(** * Bridge: polling database synchroniser

    A shallow embedding of the replication core of the bridge repository:
    [src/core/SyncJob.js] (one directed table pair), the watermark read of
    the MariaDB and MSSQL adapters, and the scheduler tick of
    [src/syncer.js]; around it, the configuration check, the adapter
    factory, the data path of the MariaDB adapter over its connection
    pool, and what the table analyzer decides from a table's columns.

    Adapters are the external collaborators of the core.  They are modelled
    as records of state-passing operations over an arbitrary database state
    [D]; every operation may return or throw.  The job itself runs in a
    small monad that threads the database state and the wall clock, and
    records every adapter call together with its reply. *)

From Stdlib Require Import ZArith Lia.
From stdpp Require Import gmap strings list.

Local Open Scope string_scope.
Local Open Scope list_scope.

(** ** JavaScript values *)

Module Js.

(** Scalar values a row can hold (string, number, timestamp, null,
    boolean); [VUndefined] is what reading an absent property gives.
    Numbers are the integers a key or counter column holds, with [VNaN]
    apart; a [VDate] carries milliseconds since the epoch.
    [VInherited p] is the member [p] of [Object.prototype], a function
    (the prototype object itself for [__proto__]): what a row gives for
    a column of that name when it has no such column of its own. *)
Inductive value : Type :=
| VUndefined
| VNull
| VBool (b : bool)
| VNumber (n : Z)
| VNaN
| VString (s : string)
| VDate (t : Z)
| VInherited (p : string).

#[global] Instance value_eq_dec : EqDecision value.
Proof. solve_decision. Defined.

(** ToBoolean: what [if (v)], [!v] and [v || w] look at. *)
Definition truthy (v : value) : bool :=
  match v with
  | VUndefined | VNull | VNaN => false
  | VBool b => b
  | VNumber n => negb (n =? 0)%Z
  | VString s => negb (String.eqb s "")
  | VDate _ => true
  | VInherited _ => true
  end.

(** [a || b] *)
Definition or (a b : value) : value := if truthy a then a else b.

(** A thrown [Error] object, which is what the adapters and the drivers
    under them throw: the [catch] of the job reads its [message]. *)
Record error : Type := Error { name : string; message : string }.

#[global] Instance error_eq_dec : EqDecision error.
Proof. solve_decision. Defined.

(** How a call ends: it returns a value or throws. *)
Inductive outcome (A : Type) : Type :=
| Returned (a : A)
| Thrown (e : error).
Arguments Returned {A} a.
Arguments Thrown {A} e.

Definition returned {A} (o : outcome A) : bool :=
  match o with Returned _ => true | Thrown _ => false end.

(** [new Date(0)] *)
Definition epoch : value := VDate 0.

(** [v.toISOString()], as far as the job depends on it: it throws unless
    [v] is a Date. *)
Definition toISOString (v : value) : outcome unit :=
  match v with
  | VDate _ => Returned tt
  | VUndefined =>
      Thrown (Error "TypeError" "Cannot read properties of undefined (reading 'toISOString')")
  | VNull =>
      Thrown (Error "TypeError" "Cannot read properties of null (reading 'toISOString')")
  | _ => Thrown (Error "TypeError" "lastSyncTime.toISOString is not a function")
  end.

(** [s.trim()].  A string here is the UTF-8 encoding of the JavaScript
    string.  [trim] strips the white space and line terminator code
    points from both ends: U+0009 to U+000D and U+0020, which are one
    byte each; U+00A0, which is two; and U+1680, U+2000 to U+200A,
    U+2028, U+2029, U+202F, U+205F, U+3000 and U+FEFF, which are three. *)
Definition is_space (c : Ascii.ascii) : bool :=
  let n := Ascii.nat_of_ascii c in
  (n =? 32)%nat || ((9 <=? n)%nat && (n <=? 13)%nat).

Definition is_space2 (a b : Ascii.ascii) : bool :=
  (Ascii.nat_of_ascii a =? 194)%nat && (Ascii.nat_of_ascii b =? 160)%nat.

Definition is_space3 (a b c : Ascii.ascii) : bool :=
  let x := Ascii.nat_of_ascii a in
  let y := Ascii.nat_of_ascii b in
  let z := Ascii.nat_of_ascii c in
  ((x =? 225) && (y =? 154) && (z =? 128))%nat
  || ((x =? 226) && (y =? 128)
      && (((128 <=? z) && (z <=? 138)) || (z =? 168) || (z =? 169) || (z =? 175)))%nat
  || ((x =? 226) && (y =? 129) && (z =? 159))%nat
  || ((x =? 227) && (y =? 128) && (z =? 128))%nat
  || ((x =? 239) && (y =? 187) && (z =? 191))%nat.

(** What follows the white space code point [s] starts with, when it
    starts with one. *)
Definition afterSpace (s : string) : option string :=
  match s with
  | String a rest =>
      if is_space a then Some rest
      else
        match rest with
        | String b rest' =>
            if is_space2 a b then Some rest'
            else
              match rest' with
              | String c rest'' => if is_space3 a b c then Some rest'' else None
              | EmptyString => None
              end
        | EmptyString => None
        end
  | EmptyString => None
  end.

(** The same on a string written backwards: what precedes the white
    space code point the string ends with. *)
Definition beforeSpace (reversed : string) : option string :=
  match reversed with
  | String c rest =>
      if is_space c then Some rest
      else
        match rest with
        | String b rest' =>
            if is_space2 b c then Some rest'
            else
              match rest' with
              | String a rest'' => if is_space3 a b c then Some rest'' else None
              | EmptyString => None
              end
        | EmptyString => None
        end
  | EmptyString => None
  end.

(** Strip code points while [next] finds one; [fuel] bounds the rounds,
    and the length of the string is enough, a round taking a byte at
    least. *)
Fixpoint strip (next : string -> option string) (fuel : nat) (s : string) : string :=
  match fuel with
  | O => s
  | S fuel' =>
      match next s with
      | Some rest => strip next fuel' rest
      | None => s
      end
  end.

Definition reverse (s : string) : string :=
  String.string_of_list_ascii (rev (String.list_ascii_of_string s)).

Definition trimStart (s : string) : string := strip afterSpace (String.length s) s.

Definition trimEnd (s : string) : string :=
  reverse (strip beforeSpace (String.length s) (reverse s)).

Definition trim (s : string) : string := trimEnd (trimStart s).

(** The members of [Object.prototype], which every row inherits. *)
Definition objectPrototype : list string :=
  ["constructor"; "__defineGetter__"; "__defineSetter__"; "hasOwnProperty";
   "__lookupGetter__"; "__lookupSetter__"; "isPrototypeOf"; "propertyIsEnumerable";
   "toString"; "valueOf"; "__proto__"; "toLocaleString"].

End Js.

Import Js.

(** A row: column name to scalar value. *)
Abbreviation Row := (gmap string Js.value).

(** [record[column]]: the row's own column, or else the member of
    [Object.prototype] of that name, or else [undefined]. *)
Definition get (record : Row) (column : string) : value :=
  match record !! column with
  | Some v => v
  | None =>
      if existsb (String.eqb column) objectPrototype then VInherited column
      else VUndefined
  end.

(** ** The adapter interface ([BaseAdapter]) *)

(** One operation of an adapter on the database state. *)
Definition op (D A : Type) : Type := D -> outcome A * D.

Record Adapter (D : Type) : Type := {
  exists_ : string -> string -> value -> op D bool;
  batchInsert : string -> list Row -> op D unit;
  batchUpdate : string -> list Row -> string -> op D unit;
  getUpdatedRecords : string -> string -> value -> op D (list Row);
  updateSyncStatus : string -> value -> op D unit;
  getSyncStatus : string -> op D value
}.
Arguments exists_ {D}.
Arguments batchInsert {D}.
Arguments batchUpdate {D}.
Arguments getUpdatedRecords {D}.
Arguments updateSyncStatus {D}.
Arguments getSyncStatus {D}.

(** ** Calls and the job monad *)

(** An adapter call with the reply it got. *)
Inductive Event : Type :=
| EGetSyncStatus (key : string) (reply : outcome value)
| EGetUpdatedRecords (table column : string) (since : value) (reply : outcome (list Row))
| EExists (table keyColumn : string) (keyValue : value) (reply : outcome bool)
| EBatchInsert (table : string) (rows : list Row) (reply : outcome unit)
| EBatchUpdate (table : string) (rows : list Row) (keyColumn : string) (reply : outcome unit)
| EUpdateSyncStatus (key : string) (time : value) (reply : outcome unit).

Definition isWatermarkWrite (ev : Event) : bool :=
  match ev with EUpdateSyncStatus _ _ _ => true | _ => false end.

Definition isExistenceCheck (ev : Event) : bool :=
  match ev with EExists _ _ _ _ => true | _ => false end.

Definition isBatchInsert (ev : Event) : bool :=
  match ev with EBatchInsert _ _ _ => true | _ => false end.

Definition isBatchUpdate (ev : Event) : bool :=
  match ev with EBatchUpdate _ _ _ _ => true | _ => false end.

(** What the job runs in: the database state of the adapters and the wall
    clock, whose successive readings are [clock 0], [clock 1], ... *)
Record World (D : Type) : Type := mkWorld { db : D; clock : nat -> Z }.
Arguments mkWorld {D}.
Arguments db {D}.
Arguments clock {D}.

(** The world after one more reading of the clock. *)
Definition tick {D} (w : World D) : World D := mkWorld (db w) (fun n => clock w (S n)).

Definition M (D A : Type) : Type := World D -> outcome A * World D * list Event.

Section Monad.
Context {D : Type}.

Definition ret {A} (a : A) : M D A := fun w => (Returned a, w, []).

Definition throw {A} (e : error) : M D A := fun w => (Thrown e, w, []).

Definition bind {A B} (m : M D A) (k : A -> M D B) : M D B :=
  fun w =>
    match m w with
    | (Returned a, w1, t1) => let '(o, w2, t2) := k a w1 in (o, w2, t1 ++ t2)
    | (Thrown e, w1, t1) => (Thrown e, w1, t1)
    end.

(** [try { m } catch (error) { handler error }] *)
Definition tryCatch {A} (m : M D A) (handler : error -> M D A) : M D A :=
  fun w =>
    match m w with
    | (Returned a, w1, t1) => (Returned a, w1, t1)
    | (Thrown e, w1, t1) => let '(o, w2, t2) := handler e w1 in (o, w2, t1 ++ t2)
    end.

(** [await adapter.method(...)]: run the operation on the database and
    record the call with its reply. *)
Definition call {A} (f : op D A) (record : outcome A -> Event) : M D A :=
  fun w => let '(o, d) := f (db w) in (o, mkWorld d (clock w), [record o]).

(** [new Date()]: the next reading of the wall clock. *)
Definition newDate : M D Z :=
  fun w => (Returned (clock w 0%nat), tick w, []).

(** Lift a pure step that may throw. *)
Definition lift {A} (o : outcome A) : M D A := fun w => (o, w, []).

End Monad.

Notation "'let!' x ':=' m 'in' k" := (bind m (fun x => k))
  (at level 10, x name, m at level 100, k at level 200, only parsing).
Notation "'run!' m 'in' k" := (bind m (fun _ => k))
  (at level 10, m at level 100, k at level 200, only parsing).

(** ** Configuration ([src/config/database.js]) *)

Record TablePair : Type := { listenTable : string; syncTable : string }.

Record Tables : Type := { clientToServer : TablePair; serverToClient : TablePair }.

(** [syncConfig].  [batchSize] and [maxRetryAttempts] are
    [parseInt(...) || default]; the stride of the batch loop is taken
    positive, as the default 1000 is. *)
Record SyncConfig : Type := {
  interval : positive;
  cfg_updateColumn : string;
  cfg_batchSize : positive;
  cfg_maxRetryAttempts : positive;
  tables : Tables
}.

(** ** The sync job ([src/core/SyncJob.js]) *)

(** The [options] argument of the constructor; [None] is an absent
    property. *)
Record Options : Type := {
  opt_targetTableName : option string;
  opt_updateColumn : option string;
  opt_keyColumn : option string;
  opt_batchSize : option positive;
  opt_maxRetryAttempts : option positive;
  opt_optimizedQueries : option (gmap string string)
}.

(** [options.field || fallback] on a string property: absent and the
    empty string are falsy. *)
Definition orString (o : option string) (fallback : string) : string :=
  match o with
  | Some s => if String.eqb s "" then fallback else s
  | None => fallback
  end.

Record SyncJob (D : Type) : Type := {
  sourceAdapter : Adapter D;
  targetAdapter : Adapter D;
  tableName : string;
  targetTableName : string;
  updateColumn : string;
  keyColumn : string;
  batchSize : positive;
  maxRetryAttempts : positive;
  optimizedQueries : gmap string string
}.
Arguments sourceAdapter {D}.
Arguments targetAdapter {D}.
Arguments tableName {D}.
Arguments targetTableName {D}.
Arguments updateColumn {D}.
Arguments keyColumn {D}.
Arguments batchSize {D}.
Arguments maxRetryAttempts {D}.
Arguments optimizedQueries {D}.

(** [new SyncJob(sourceAdapter, targetAdapter, tableName, options)] *)
Definition newSyncJob {D} (syncConfig : SyncConfig)
    (source target : Adapter D) (table : string) (options : Options) : SyncJob D :=
  {| sourceAdapter := source;
     targetAdapter := target;
     tableName := table;
     targetTableName := orString (opt_targetTableName options) table;
     updateColumn := orString (opt_updateColumn options) (cfg_updateColumn syncConfig);
     keyColumn := orString (opt_keyColumn options) "id";
     batchSize := default (cfg_batchSize syncConfig) (opt_batchSize options);
     maxRetryAttempts := default (cfg_maxRetryAttempts syncConfig) (opt_maxRetryAttempts options);
     optimizedQueries := default ∅ (opt_optimizedQueries options) |}.

(** What [processBatch] returns. *)
Record BatchResults : Type := { processed : nat; inserted : nat; updated : nat }.

(** The accumulator of [processBatches] ([totalProcessed], [inserted],
    [updated]). *)
Record Results : Type := { totalProcessed : nat; totalInserted : nat; totalUpdated : nat }.

(** What [execute] returns; an absent property is [None]. *)
Record SyncResult : Type := {
  success : bool;
  recordsProcessed : nat;
  recordsInserted : option nat;
  recordsUpdated : option nat;
  duration : option Z;
  error : option string;
  message : string
}.

(** The object built in the [catch] of [execute]. *)
Definition failure (e : Js.error) : SyncResult :=
  {| success := false;
     recordsProcessed := 0;
     recordsInserted := None;
     recordsUpdated := None;
     duration := None;
     error := Some (Js.message e);
     message := "同步失敗" |}.

(** The object returned when nothing was extracted. *)
Definition nothingNew : SyncResult :=
  {| success := true;
     recordsProcessed := 0;
     recordsInserted := None;
     recordsUpdated := None;
     duration := None;
     error := None;
     message := "沒有新記錄" |}.

(** [records.slice(from, to)] for [0 <= from <= to]. *)
Definition slice {A} (records : list A) (from to : nat) : list A :=
  take (to - from) (drop from records).

Section SyncJob.
Context {D : Type}.
Variable this : SyncJob D.

Definition syncStatusKey : string :=
  (tableName this ++ "_to_" ++ targetTableName this)%string.

(** [insertOneByOne]: the loop, with [successful] as it stands. *)
Fixpoint insertOneByOne_from (successful : nat) (records : list Row) : M D nat :=
  match records with
  | [] => ret successful
  | record :: rest =>
      let! successful' :=
        tryCatch
          (run! call (batchInsert (targetAdapter this) (targetTableName this) [record])
                    (EBatchInsert (targetTableName this) [record]) in
           ret (S successful))
          (fun _ => ret successful) in
      insertOneByOne_from successful' rest
  end.

Definition insertOneByOne (records : list Row) : M D nat :=
  insertOneByOne_from 0 records.

(** [updateOneByOne] *)
Fixpoint updateOneByOne_from (successful : nat) (records : list Row) : M D nat :=
  match records with
  | [] => ret successful
  | record :: rest =>
      let! successful' :=
        tryCatch
          (run! call (batchUpdate (targetAdapter this) (targetTableName this) [record]
                       (keyColumn this))
                    (EBatchUpdate (targetTableName this) [record] (keyColumn this)) in
           ret (S successful))
          (fun _ => ret successful) in
      updateOneByOne_from successful' rest
  end.

Definition updateOneByOne (records : list Row) : M D nat :=
  updateOneByOne_from 0 records.

(** The first loop of [processBatch]: sort the records of the batch into
    [toInsert] and [toUpdate]. *)
Fixpoint classify (batch : list Row) (toInsert toUpdate : list Row)
    : M D (list Row * list Row) :=
  match batch with
  | [] => ret (toInsert, toUpdate)
  | record :: rest =>
      let keyValue := get record (keyColumn this) in
      if negb (truthy keyValue) then classify rest toInsert toUpdate
      else
        let! lists :=
          tryCatch
            (let! exists' := call (exists_ (targetAdapter this) (targetTableName this)
                                   (keyColumn this) keyValue)
                                (EExists (targetTableName this) (keyColumn this) keyValue) in
             if (exists' : bool) then ret (toInsert, toUpdate ++ [record])
             else ret (toInsert ++ [record], toUpdate))
            (fun _ => ret (toInsert, toUpdate)) in
        classify rest (fst lists) (snd lists)
  end.

(** The insert half of [processBatch]. *)
Definition applyInserts (toInsert : list Row) : M D nat :=
  if (0 <? length toInsert)%nat then
    tryCatch
      (run! call (batchInsert (targetAdapter this) (targetTableName this) toInsert)
                (EBatchInsert (targetTableName this) toInsert) in
       ret (length toInsert))
      (fun _ => insertOneByOne toInsert)
  else ret 0%nat.

(** The update half of [processBatch]. *)
Definition applyUpdates (toUpdate : list Row) : M D nat :=
  if (0 <? length toUpdate)%nat then
    tryCatch
      (run! call (batchUpdate (targetAdapter this) (targetTableName this) toUpdate
                   (keyColumn this))
                (EBatchUpdate (targetTableName this) toUpdate (keyColumn this)) in
       ret (length toUpdate))
      (fun _ => updateOneByOne toUpdate)
  else ret 0%nat.

Definition processBatch (batch : list Row) : M D BatchResults :=
  let! lists := classify batch [] [] in
  let '(toInsert, toUpdate) := lists in
  let! inserted' := applyInserts toInsert in
  let! updated' := applyUpdates toUpdate in
  ret {| processed := inserted' + updated'; inserted := inserted'; updated := updated' |}.

(** The loop of [processBatches], from index [i].  [i] grows by the
    positive [batchSize] each round, so [length records] rounds always
    reach the exit test (lemma [processBatches_from_fuel]). *)
Fixpoint processBatches_from (rounds : nat) (records : list Row) (i : nat)
    (results : Results) : M D Results :=
  match rounds with
  | O => ret results
  | S rounds' =>
      if (i <? length records)%nat then
        let batch := slice records i (i + Pos.to_nat (batchSize this)) in
        let! batchResults := processBatch batch in
        processBatches_from rounds' records (i + Pos.to_nat (batchSize this))
          {| totalProcessed := totalProcessed results + processed batchResults;
             totalInserted := totalInserted results + inserted batchResults;
             totalUpdated := totalUpdated results + updated batchResults |}
      else ret results
  end.

Definition processBatches (records : list Row) : M D Results :=
  processBatches_from (length records) records 0
    {| totalProcessed := 0; totalInserted := 0; totalUpdated := 0 |}.

(** [execute], with the reconciliation it awaits ([this.processBatches])
    as [reconcile]. *)
Definition executeWith (reconcile : list Row -> M D Results) : M D SyncResult :=
  let! startTime := newDate in
  tryCatch
    (let! lastSyncTime := call (getSyncStatus (targetAdapter this) syncStatusKey)
                             (EGetSyncStatus syncStatusKey) in
     run! lift (toISOString lastSyncTime) in
     let! updatedRecords :=
       call (getUpdatedRecords (sourceAdapter this) (tableName this) (updateColumn this)
               lastSyncTime)
            (EGetUpdatedRecords (tableName this) (updateColumn this) lastSyncTime) in
     if (length updatedRecords =? 0)%nat then ret nothingNew
     else
       let! results := reconcile updatedRecords in
       let! currentTime := newDate in
       run! call (updateSyncStatus (targetAdapter this) syncStatusKey (VDate currentTime))
                (EUpdateSyncStatus syncStatusKey (VDate currentTime)) in
       let! endTime := newDate in
       ret {| success := true;
              recordsProcessed := totalProcessed results;
              recordsInserted := Some (totalInserted results);
              recordsUpdated := Some (totalUpdated results);
              duration := Some (endTime - startTime)%Z;
              error := None;
              message := "同步成功" |})
    (fun error => ret (failure error)).

Definition execute : M D SyncResult := executeWith processBatches.

End SyncJob.

(** ** The watermark read of the adapters *)

(** [rows[0]?.column] *)
Definition firstRowColumn (rows : list Row) (column : string) : value :=
  match rows with
  | [] => VUndefined
  | row :: _ => get row column
  end.

Module MariaDBAdapter.
Section MariaDBAdapter.
Context {D : Type}.
(** [this.query(queryString, params)]: it throws when there is no pool
    or when the driver does. *)
Variable query : string -> list value -> op D (list Row).

Definition selectSyncStatus : string :=
  "SELECT last_sync_time FROM sync_status WHERE table_name = ?".

Definition getSyncStatus (tableName : string) : op D value :=
  fun d =>
    match query selectSyncStatus [VString tableName] d with
    | (Returned result, d') =>
        (Returned (Js.or (firstRowColumn result "last_sync_time") epoch), d')
    | (Thrown _, d') => (Returned epoch, d')
    end.
End MariaDBAdapter.
End MariaDBAdapter.

Module MSSQLAdapter.
Section MSSQLAdapter.
Context {D : Type}.
(** [this.pool.request()], the [request.input(name, value)] calls and
    [request.query(text)], giving [result.recordset]; any of them may
    throw. *)
Variable requestQuery : list (string * value) -> string -> op D (list Row).

Definition selectSyncStatus : string :=
  "SELECT last_sync_time FROM sync_status WHERE table_name = @tableName".

Definition getSyncStatus (tableName : string) : op D value :=
  fun d =>
    match requestQuery [("tableName", VString tableName)] selectSyncStatus d with
    | (Returned recordset, d') =>
        (Returned (Js.or (firstRowColumn recordset "last_sync_time") epoch), d')
    | (Thrown _, d') => (Returned epoch, d')
    end.
End MSSQLAdapter.
End MSSQLAdapter.

(** ** The scheduler tick ([src/syncer.js]) *)

(** What the table analyzer leaves in [tableSchemas]. *)
Record TableSchema : Type := {
  primaryKey : option string;
  schema_updateColumn : option string;
  schema_optimizedQueries : option (gmap string string)
}.

Record Adapters (D : Type) : Type := {
  client : option (Adapter D);
  server : option (Adapter D)
}.
Arguments client {D}.
Arguments server {D}.

Record DatabaseSyncer (D : Type) : Type := {
  adapters : Adapters D;
  tableSchemas : gmap string TableSchema;
  isRunning : bool
}.
Arguments adapters {D}.
Arguments tableSchemas {D}.
Arguments isRunning {D}.

(** The per-tick aggregate. *)
Record TickResults : Type := {
  totalTables : nat;
  successTables : nat;
  failedTables : nat;
  totalRecords : nat
}.

Definition mergeResults (target source : TickResults) : TickResults :=
  {| totalTables := totalTables target + totalTables source;
     successTables := successTables target + successTables source;
     failedTables := failedTables target + failedTables source;
     totalRecords := totalRecords target + totalRecords source |}.

Definition nonEmpty (s : string) : bool := negb (String.eqb s "").

Section DatabaseSyncer.
Context {D : Type}.
Variable syncConfig : SyncConfig.
Variable this : DatabaseSyncer D.

(** The options [syncTablePair] hands to the job. *)
Definition syncJobOptions (listenTable syncTable schemaPrefix : string) : Options :=
  match tableSchemas this !! (schemaPrefix ++ "." ++ listenTable)%string with
  | Some listenTableSchema =>
      {| opt_targetTableName := Some syncTable;
         opt_updateColumn :=
           Some (orString (schema_updateColumn listenTableSchema)
                   (cfg_updateColumn syncConfig));
         opt_keyColumn := Some (orString (primaryKey listenTableSchema) "id");
         opt_batchSize := Some (cfg_batchSize syncConfig);
         opt_maxRetryAttempts := Some (cfg_maxRetryAttempts syncConfig);
         opt_optimizedQueries := schema_optimizedQueries listenTableSchema |}
  | None =>
      {| opt_targetTableName := Some syncTable;
         opt_updateColumn := Some (cfg_updateColumn syncConfig);
         opt_keyColumn := None;
         opt_batchSize := Some (cfg_batchSize syncConfig);
         opt_maxRetryAttempts := Some (cfg_maxRetryAttempts syncConfig);
         opt_optimizedQueries := None |}
  end.

(** The job [syncTablePair] constructs. *)
Definition pairJob (source target : Adapter D)
    (listenTable syncTable schemaPrefix : string) : SyncJob D :=
  newSyncJob syncConfig source target (trim listenTable)
    (syncJobOptions listenTable syncTable schemaPrefix).

(** [syncTablePair], with the execution of the job it awaits
    ([syncJob.execute()]) as [run]. *)
Definition syncTablePairWith (run : SyncJob D -> M D SyncResult)
    (source target : Adapter D)
    (listenTable syncTable direction schemaPrefix : string) : M D TickResults :=
  let results :=
    {| totalTables := 1; successTables := 0; failedTables := 0; totalRecords := 0 |} in
  if negb (isRunning this) then ret results
  else
    tryCatch
      (let syncJob := pairJob source target listenTable syncTable schemaPrefix in
       let! result := run syncJob in
       if success result then
         ret {| totalTables := totalTables results;
                successTables := S (successTables results);
                failedTables := failedTables results;
                totalRecords := totalRecords results + recordsProcessed result |}
       else
         ret {| totalTables := totalTables results;
                successTables := successTables results;
                failedTables := S (failedTables results);
                totalRecords := totalRecords results |})
      (fun _ =>
         ret {| totalTables := totalTables results;
                successTables := successTables results;
                failedTables := S (failedTables results);
                totalRecords := totalRecords results |}).

Definition syncTablePair (source target : Adapter D)
    (listenTable syncTable direction schemaPrefix : string) : M D TickResults :=
  syncTablePairWith execute source target listenTable syncTable direction schemaPrefix.

(** One direction of [runSync]: run the pair when both adapters and both
    table names are there, and merge its results. *)
Definition runDirectionWith (run : SyncJob D -> M D SyncResult)
    (source target : option (Adapter D)) (pair : TablePair)
    (direction schemaPrefix : string) (results : TickResults) : M D TickResults :=
  match source, target with
  | Some sourceAdapter', Some targetAdapter' =>
      if nonEmpty (listenTable pair) && nonEmpty (syncTable pair) then
        let! pairResults :=
          syncTablePairWith run sourceAdapter' targetAdapter' (listenTable pair)
            (syncTable pair) direction schemaPrefix in
        ret (mergeResults results pairResults)
      else ret results
  | _, _ => ret results
  end.

Definition runDirection (source target : option (Adapter D)) (pair : TablePair)
    (direction schemaPrefix : string) (results : TickResults) : M D TickResults :=
  runDirectionWith execute source target pair direction schemaPrefix results.

(** [runSync], with the execution of a job as [run].  The JavaScript
    method returns nothing and logs the aggregate; here the logged
    aggregate is the result, [None] when the tick does not run or ends in
    the outer [catch]. *)
Definition runSyncWith (run : SyncJob D -> M D SyncResult) : M D (option TickResults) :=
  if negb (isRunning this) then ret None
  else
    let! startTime := newDate in
    tryCatch
      (let results :=
         {| totalTables := 0; successTables := 0; failedTables := 0; totalRecords := 0 |} in
       let! results1 :=
         runDirectionWith run (client (adapters this)) (server (adapters this))
           (clientToServer (tables syncConfig)) "客戶端 -> 伺服器端" "client" results in
       let! results2 :=
         runDirectionWith run (server (adapters this)) (client (adapters this))
           (serverToClient (tables syncConfig)) "伺服器端 -> 客戶端" "server" results1 in
       let! endTime := newDate in
       ret (Some results2))
      (fun _ => ret None).

(** [runSync] *)
Definition runSync : M D (option TickResults) := runSyncWith execute.

End DatabaseSyncer.

(** What the result of one job adds to the aggregate of the tick. *)
Definition tally (result : SyncResult) : TickResults :=
  if success result then
    {| totalTables := 1; successTables := 1; failedTables := 0;
       totalRecords := recordsProcessed result |}
  else
    {| totalTables := 1; successTables := 0; failedTables := 1; totalRecords := 0 |}.

Definition noTables : TickResults :=
  {| totalTables := 0; successTables := 0; failedTables := 0; totalRecords := 0 |}.

(** The execution of a job ended well: it returned a success. *)
Definition succeeded (o : outcome SyncResult) : bool :=
  match o with
  | Returned result => success result
  | Thrown _ => false
  end.

(** What the execution of one job adds to the aggregate of the tick: its
    result when it returns one, one failed table when it throws. *)
Definition outcomeTally (o : outcome SyncResult) : TickResults :=
  match o with
  | Returned result => tally result
  | Thrown _ =>
      {| totalTables := 1; successTables := 0; failedTables := 1; totalRecords := 0 |}
  end.

(** ** An in-memory pair of databases

    A small executable implementation of the adapter interface, on which
    the job and the tick can be run: each database holds its tables, its
    [sync_status] table and a flag telling whether it can be reached.  A
    batch is applied whole or not at all, and the column [name] must not
    be null. *)

Module Mem.

Record Database : Type := {
  online : bool;
  contents : gmap string (list Row);
  sync_status : gmap string value
}.

Record Dbs : Type := { clientDb : Database; serverDb : Database }.

Inductive Side : Type := Client | Server.

Definition dbOf (side : Side) (dbs : Dbs) : Database :=
  match side with Client => clientDb dbs | Server => serverDb dbs end.

Definition setDb (side : Side) (database : Database) (dbs : Dbs) : Dbs :=
  match side with
  | Client => {| clientDb := database; serverDb := serverDb dbs |}
  | Server => {| clientDb := clientDb dbs; serverDb := database |}
  end.

Definition notConnected : Js.error := Error "Error" "資料庫未連接".
Definition noSuchTable : Js.error := Error "Error" "Table doesn't exist".
Definition nullName : Js.error := Error "Error" "Column 'name' cannot be null".

(** Run an operation of one database, which throws when unreachable. *)
Definition on {A} (side : Side) (f : Database -> outcome A * Database) : op Dbs A :=
  fun dbs =>
    if online (dbOf side dbs) then
      let '(o, database) := f (dbOf side dbs) in (o, setDb side database dbs)
    else (Thrown notConnected, dbs).

Definition withTable {A} (table : string)
    (f : list Row -> Database -> outcome A * Database)
    : Database -> outcome A * Database :=
  fun database =>
    match contents database !! table with
    | Some rows => f rows database
    | None => (Thrown noSuchTable, database)
    end.

Definition setTable (table : string) (rows : list Row) (database : Database) : Database :=
  {| online := online database;
     contents := <[table := rows]> (contents database);
     sync_status := sync_status database |}.

Definition hasKey (keyColumn : string) (keyValue : value) (row : Row) : bool :=
  bool_decide (get row keyColumn = keyValue).

Definition violates (row : Row) : bool := bool_decide (get row "name" = VNull).

Definition laterThan (v since : value) : bool :=
  match v, since with
  | VDate t, VDate s => (s <? t)%Z
  | _, _ => false
  end.

Definition updateRow (data : list Row) (keyColumn : string) (old : Row) : Row :=
  match List.find (hasKey keyColumn (get old keyColumn)) data with
  | Some new => new ∪ old
  | None => old
  end.

Definition query (side : Side) (text : string) (params : list value) : op Dbs (list Row) :=
  on side (fun database =>
    match params with
    | [VString key] =>
        match sync_status database !! key with
        | Some time => (Returned [ {[ "last_sync_time" := time ]} ], database)
        | None => (Returned [], database)
        end
    | _ => (Returned [], database)
    end).

Definition adapter (side : Side) : Adapter Dbs :=
  {| exists_ := fun table keyColumn keyValue =>
       on side (withTable table (fun rows database =>
         (Returned (existsb (hasKey keyColumn keyValue) rows), database)));
     batchInsert := fun table data =>
       on side (withTable table (fun rows database =>
         if existsb violates data then (Thrown nullName, database)
         else (Returned tt, setTable table (rows ++ data) database)));
     batchUpdate := fun table data keyColumn =>
       on side (withTable table (fun rows database =>
         if existsb violates data then (Thrown nullName, database)
         else (Returned tt, setTable table (map (updateRow data keyColumn) rows) database)));
     getUpdatedRecords := fun table column since =>
       on side (withTable table (fun rows database =>
         (Returned (List.filter (fun row => laterThan (get row column) since) rows),
          database)));
     updateSyncStatus := fun key time =>
       on side (fun database =>
         (Returned tt,
          {| online := online database;
             contents := contents database;
             sync_status := <[key := time]> (sync_status database) |}));
     getSyncStatus := MariaDBAdapter.getSyncStatus (query side) |}.

(** Sample data. *)
Definition person (id : Z) (name : value) (updated_at : Z) : Row :=
  {[ "id" := VNumber id; "name" := name; "updated_at" := VDate updated_at ]}.

Definition database (rows : list Row) (marks : gmap string value) : Database :=
  {| online := true;
     contents := {[ "test_polling" := rows; "test_syncing" := rows ]};
     sync_status := marks |}.


(** A clock that reads 1000, 1001, 1002, ... *)
Definition ticking : nat -> Z := fun n => (1000 + Z.of_nat n)%Z.

Definition world (clientRows serverRows : list Row) : World Dbs :=
  mkWorld {| clientDb := database clientRows ∅; serverDb := database serverRows ∅ |} ticking.

(** The job client [test_polling] to server [test_syncing]. *)
Definition job (size : positive) : SyncJob Dbs :=
  {| sourceAdapter := adapter Client;
     targetAdapter := adapter Server;
     tableName := "test_polling";
     targetTableName := "test_syncing";
     updateColumn := "updated_at";
     keyColumn := "id";
     batchSize := size;
     maxRetryAttempts := 3;
     optimizedQueries := ∅ |}.

End Mem.

(** ** Sample inputs *)

(** A hundred records for the client, the fiftieth with a null [name]. *)
Definition hundred : list Row :=
  map (fun i => Mem.person (Z.of_nat i)
                  (if (i =? 50)%nat then VNull else VString "x") (Z.of_nat i))
      (seq 1 100).

(** A configuration for the in-memory databases: client [test_polling] to
    server [test_syncing], and a server table that does not exist to
    client [test_syncing]. *)
Definition sampleConfig : SyncConfig :=
  {| interval := 30000;
     cfg_updateColumn := "updated_at";
     cfg_batchSize := 1000;
     cfg_maxRetryAttempts := 3;
     tables :=
       {| clientToServer := {| listenTable := "test_polling"; syncTable := "test_syncing" |};
          serverToClient := {| listenTable := "missing"; syncTable := "test_syncing" |} |} |}.

Definition sampleSyncer : DatabaseSyncer Mem.Dbs :=
  {| adapters := {| client := Some (Mem.adapter Mem.Client);
                    server := Some (Mem.adapter Mem.Server) |};
     tableSchemas := ∅;
     isRunning := true |}.

(** ** Replies, for stating what the job does *)

Section Replies.
Context {D : Type}.

(** The replies that applying each record on its own gets, one after
    the other, and the database this leaves. *)
Fixpoint oneByOne (apply : Row -> op D unit) (records : list Row) (d : D)
    : list (outcome unit) * D :=
  match records with
  | [] => ([], d)
  | record :: rest =>
      let '(reply, d1) := apply record d in
      let '(replies, d2) := oneByOne apply rest d1 in
      (reply :: replies, d2)
  end.

Definition successes {A} (replies : list (outcome A)) : nat :=
  length (List.filter returned replies).

(** The replies that are throws. *)
Definition failures {A} (replies : list (outcome A)) : nat :=
  length (List.filter (fun reply => negb (returned reply)) replies).

Variable this : SyncJob D.

Definition insertAlone (record : Row) : op D unit :=
  batchInsert (targetAdapter this) (targetTableName this) [record].

Definition updateAlone (record : Row) : op D unit :=
  batchUpdate (targetAdapter this) (targetTableName this) [record] (keyColumn this).

Definition insertAloneEvent (record : Row) (reply : outcome unit) : Event :=
  EBatchInsert (targetTableName this) [record] reply.

Definition updateAloneEvent (record : Row) (reply : outcome unit) : Event :=
  EBatchUpdate (targetTableName this) [record] (keyColumn this) reply.

(** The existence checks of a batch: each record with a truthy key, with
    the reply its check gets. *)
Fixpoint existenceChecks (batch : list Row) (d : D) : list (Row * outcome bool) * D :=
  match batch with
  | [] => ([], d)
  | record :: rest =>
      let keyValue := get record (keyColumn this) in
      if truthy keyValue then
        let '(reply, d1) :=
          exists_ (targetAdapter this) (targetTableName this) (keyColumn this) keyValue d in
        let '(checks, d2) := existenceChecks rest d1 in
        ((record, reply) :: checks, d2)
      else existenceChecks rest d
  end.

Definition existsEvent (check : Row * outcome bool) : Event :=
  EExists (targetTableName this) (keyColumn this) (get (fst check) (keyColumn this))
    (snd check).

(** The records whose check answered [answer]. *)
Definition answered (answer : bool) (checks : list (Row * outcome bool)) : list Row :=
  map fst (List.filter
             (fun check =>
                match snd check with
                | Returned b => Bool.eqb b answer
                | Thrown _ => false
                end) checks).

End Replies.

(** ** The reconciliation as a function of the database

    What [processBatch] and [processBatches] do, written as plain
    functions from the database to the counts, the database left and the
    calls made (lemmas [processBatch_run] and [processBatches_run]). *)

Section Runs.
Context {D : Type}.
Variable this : SyncJob D.

Definition insertsOn (toInsert : list Row) (d : D) : nat * D * list Event :=
  match toInsert with
  | [] => (0%nat, d, [])
  | _ :: _ =>
      match batchInsert (targetAdapter this) (targetTableName this) toInsert d with
      | (Returned u, d1) =>
          (length toInsert, d1, [EBatchInsert (targetTableName this) toInsert (Returned u)])
      | (Thrown e, d1) =>
          let '(replies, d2) := oneByOne (insertAlone this) toInsert d1 in
          (successes replies, d2,
           EBatchInsert (targetTableName this) toInsert (Thrown e)
             :: zip_with (insertAloneEvent this) toInsert replies)
      end
  end.

Definition updatesOn (toUpdate : list Row) (d : D) : nat * D * list Event :=
  match toUpdate with
  | [] => (0%nat, d, [])
  | _ :: _ =>
      match batchUpdate (targetAdapter this) (targetTableName this) toUpdate
              (keyColumn this) d with
      | (Returned u, d1) =>
          (length toUpdate, d1,
           [EBatchUpdate (targetTableName this) toUpdate (keyColumn this) (Returned u)])
      | (Thrown e, d1) =>
          let '(replies, d2) := oneByOne (updateAlone this) toUpdate d1 in
          (successes replies, d2,
           EBatchUpdate (targetTableName this) toUpdate (keyColumn this) (Thrown e)
             :: zip_with (updateAloneEvent this) toUpdate replies)
      end
  end.

Definition batchOn (batch : list Row) (d : D) : BatchResults * D * list Event :=
  let '(checks, d1) := existenceChecks this batch d in
  let '(inserted', d2, insertCalls) := insertsOn (answered false checks) d1 in
  let '(updated', d3, updateCalls) := updatesOn (answered true checks) d2 in
  ({| processed := inserted' + updated'; inserted := inserted'; updated := updated' |},
   d3, map (existsEvent this) checks ++ insertCalls ++ updateCalls).

(** The batches the loop of [processBatches] cuts, from index [i]. *)
Fixpoint chunks_from (rounds : nat) (records : list Row) (i : nat) : list (list Row) :=
  match rounds with
  | O => []
  | S rounds' =>
      if (i <? length records)%nat then
        slice records i (i + Pos.to_nat (batchSize this))
          :: chunks_from rounds' records (i + Pos.to_nat (batchSize this))
      else []
  end.

Definition chunks (records : list Row) : list (list Row) :=
  chunks_from (length records) records 0.

Definition addBatch (results : Results) (batchResults : BatchResults) : Results :=
  {| totalProcessed := totalProcessed results + processed batchResults;
     totalInserted := totalInserted results + inserted batchResults;
     totalUpdated := totalUpdated results + updated batchResults |}.

Fixpoint batchesOn (batches : list (list Row)) (results : Results) (d : D)
    : Results * D * list Event :=
  match batches with
  | [] => (results, d, [])
  | batch :: rest =>
      let '(batchResults, d1, calls1) := batchOn batch d in
      let '(results', d2, calls2) := batchesOn rest (addBatch results batchResults) d1 in
      (results', d2, calls1 ++ calls2)
  end.

(** [processBatch] on each batch in turn, adding up. *)
Fixpoint processEach (batches : list (list Row)) (results : Results) : M D Results :=
  match batches with
  | [] => ret results
  | batch :: rest =>
      let! batchResults := processBatch this batch in
      processEach rest (addBatch results batchResults)
  end.

Definition noResults : Results :=
  {| totalProcessed := 0; totalInserted := 0; totalUpdated := 0 |}.

End Runs.

(** ** Reading the calls *)

(** [record] is among the rows of some [batchInsert] call. *)
Definition passedToInsert (calls : list Event) (record : Row) : Prop :=
  exists table rows reply, In (EBatchInsert table rows reply) calls /\ In record rows.

(** [record] is among the rows of some [batchUpdate] call. *)
Definition passedToUpdate (calls : list Event) (record : Row) : Prop :=
  exists table rows keyColumn' reply,
    In (EBatchUpdate table rows keyColumn' reply) calls /\ In record rows.

(** Some existence check was made for the key value [keyValue]. *)
Definition checkedKey (calls : list Event) (keyValue : value) : Prop :=
  exists table keyColumn' reply, In (EExists table keyColumn' keyValue reply) calls.

(** The calls contain a watermark write. *)
Definition writesWatermark (calls : list Event) : bool := existsb isWatermarkWrite calls.

(** What a call of the reconciliation can be: an existence check for a
    truthy key value, or a batch apply of rows whose keys are truthy. *)
Definition reconcileCall {D} (this : SyncJob D) (ev : Event) : Prop :=
  match ev with
  | EExists _ _ keyValue _ => truthy keyValue = true
  | EBatchInsert _ rows _ | EBatchUpdate _ rows _ _ =>
      Forall (fun record => truthy (get record (keyColumn this)) = true) rows
  | _ => False
  end.

(** The call [ev], made after the calls [before], respects the existence
    checks: every record it inserts is one of [records] whose key some
    earlier check answered not to exist, and every record it updates is
    one whose key some earlier check answered to exist. *)
Definition routedBy {D} (this : SyncJob D) (records : list Row) (before : list Event)
    (ev : Event) : Prop :=
  match ev with
  | EBatchInsert _ rows _ =>
      forall record, In record rows ->
        In record records
        /\ In (EExists (targetTableName this) (keyColumn this)
                 (get record (keyColumn this)) (Returned false)) before
  | EBatchUpdate _ rows _ _ =>
      forall record, In record rows ->
        In record records
        /\ In (EExists (targetTableName this) (keyColumn this)
                 (get record (keyColumn this)) (Returned true)) before
  | _ => True
  end.

(** Every call respects the checks made before it. *)
Definition allRouted {D} (this : SyncJob D) (records : list Row) (calls : list Event)
    : Prop :=
  forall before ev after, calls = before ++ ev :: after -> routedBy this records before ev.

(** ** The steps of one execution *)

Section Steps.
Context {D : Type}.
Variable this : SyncJob D.

(** The extraction step throws [e], leaving the database [d]: the
    watermark read throws, or what it returns is not a Date, or the read
    of the updated records throws. *)
Definition extractionThrows (w : World D) (e : Js.error) (d : D) : Prop :=
  getSyncStatus (targetAdapter this) (syncStatusKey this) (db w) = (Thrown e, d)
  \/ (exists lastSyncTime,
        getSyncStatus (targetAdapter this) (syncStatusKey this) (db w)
          = (Returned lastSyncTime, d)
        /\ toISOString lastSyncTime = Thrown e)
  \/ (exists lastSyncTime d1,
        getSyncStatus (targetAdapter this) (syncStatusKey this) (db w)
          = (Returned lastSyncTime, d1)
        /\ toISOString lastSyncTime = Returned tt
        /\ getUpdatedRecords (sourceAdapter this) (tableName this) (updateColumn this)
             lastSyncTime d1 = (Thrown e, d)).

(** The extraction step returns [rows], read since [lastSyncTime],
    leaving the database [d]. *)
Definition extracted (w : World D) (lastSyncTime : value) (rows : list Row) (d : D)
    : Prop :=
  exists d1,
    getSyncStatus (targetAdapter this) (syncStatusKey this) (db w)
      = (Returned lastSyncTime, d1)
    /\ toISOString lastSyncTime = Returned tt
    /\ getUpdatedRecords (sourceAdapter this) (tableName this) (updateColumn this)
         lastSyncTime d1 = (Returned rows, d).

(** The two calls of a successful extraction. *)
Definition extractionCalls (lastSyncTime : value) (rows : list Row) : list Event :=
  [EGetSyncStatus (syncStatusKey this) (Returned lastSyncTime);
   EGetUpdatedRecords (tableName this) (updateColumn this) lastSyncTime (Returned rows)].


(** A step of [execute] throws [e]: the extraction does or, rows having
    been extracted, the reconciliation does or, the reconciliation having
    returned, the watermark write does. *)
Definition stepThrows (reconcile : list Row -> M D Results) (w : World D) (e : Js.error)
    : Prop :=
  (exists d, extractionThrows w e d)
  \/ (exists lastSyncTime rows d,
        extracted w lastSyncTime rows d /\ rows <> []
        /\ match reconcile rows (mkWorld d (clock (tick w))) with
           | (Thrown e', _, _) => e' = e
           | (Returned _, w3, _) =>
               fst (updateSyncStatus (targetAdapter this) (syncStatusKey this)
                      (VDate (clock w3 0%nat)) (db w3)) = Thrown e
           end).

End Steps.

(** ** The reconciliation in the order the specification gives *)

Section AsSpecified.
Context {D : Type}.
Variable this : SyncJob D.

Fixpoint insertEach (groups : list (list Row)) (total : nat) (d : D)
    : nat * D * list Event :=
  match groups with
  | [] => (total, d, [])
  | group :: rest =>
      let '(n, d1, calls1) := insertsOn this group d in
      let '(total', d2, calls2) := insertEach rest (total + n) d1 in
      (total', d2, calls1 ++ calls2)
  end.

Fixpoint updateEach (groups : list (list Row)) (total : nat) (d : D)
    : nat * D * list Event :=
  match groups with
  | [] => (total, d, [])
  | group :: rest =>
      let '(n, d1, calls1) := updatesOn this group d in
      let '(total', d2, calls2) := updateEach rest (total + n) d1 in
      (total', d2, calls1 ++ calls2)
  end.

(** The reconciler as the specification words it: partition the whole
    list of rows by the existence checks, cut each partition into groups
    of at most [batchSize], and apply each group by one batch call, with
    the row-by-row fallback when that call throws. *)
Definition reconcileAsSpecified (rows : list Row) (d : D) : Results * D * list Event :=
  let '(checks, d1) := existenceChecks this rows d in
  let '(inserted', d2, insertCalls) := insertEach (chunks this (answered false checks)) 0 d1 in
  let '(updated', d3, updateCalls) := updateEach (chunks this (answered true checks)) 0 d2 in
  ({| totalProcessed := inserted' + updated';
      totalInserted := inserted';
      totalUpdated := updated' |},
   d3, map (existsEvent this) checks ++ insertCalls ++ updateCalls).

End AsSpecified.

(** ** Further readings of a run *)

(** The key values the existence checks of [calls] were made for, in
    order. *)
Definition checkedKeys (calls : list Event) : list value :=
  flat_map (fun ev => match ev with EExists _ _ keyValue _ => [keyValue] | _ => [] end)
    calls.

(** The existence checks that got an answer. *)
Definition answeredChecks (checks : list (Row * outcome bool)) : nat :=
  length (List.filter (fun check => returned (snd check)) checks).

(** The in-memory adapter of a database whose existence check of the key
    value [bad] throws. *)
Definition checkFails : Js.error := Error "Error" "Lock wait timeout exceeded".

Definition flaky (bad : value) (side : Mem.Side) : Adapter Mem.Dbs :=
  {| exists_ := fun table keyColumn keyValue dbs =>
       if bool_decide (keyValue = bad) then (Thrown checkFails, dbs)
       else exists_ (Mem.adapter side) table keyColumn keyValue dbs;
     batchInsert := batchInsert (Mem.adapter side);
     batchUpdate := batchUpdate (Mem.adapter side);
     getUpdatedRecords := getUpdatedRecords (Mem.adapter side);
     updateSyncStatus := updateSyncStatus (Mem.adapter side);
     getSyncStatus := getSyncStatus (Mem.adapter side) |}.

(** The job client [test_polling] to server [test_syncing] against a
    server whose check of key 2 throws. *)
Definition flakyJob (size : positive) : SyncJob Mem.Dbs :=
  {| sourceAdapter := Mem.adapter Mem.Client;
     targetAdapter := flaky (VNumber 2) Mem.Server;
     tableName := "test_polling";
     targetTableName := "test_syncing";
     updateColumn := "updated_at";
     keyColumn := "id";
     batchSize := size;
     maxRetryAttempts := 3;
     optimizedQueries := ∅ |}.


(** Two records of the client whose [name] is null: no insert of them
    can succeed. *)
Definition nameless : list Row :=
  [Mem.person 1 VNull 5; Mem.person 2 VNull 6].


(** The in-memory adapter of a database whose [sync_status] table cannot
    be written. *)
Definition statusReadOnly : Js.error := Error "Error" "INSERT command denied to user".

Definition noStatusWrite (side : Mem.Side) : Adapter Mem.Dbs :=
  {| exists_ := exists_ (Mem.adapter side);
     batchInsert := batchInsert (Mem.adapter side);
     batchUpdate := batchUpdate (Mem.adapter side);
     getUpdatedRecords := getUpdatedRecords (Mem.adapter side);
     updateSyncStatus := fun _ _ dbs => (Thrown statusReadOnly, dbs);
     getSyncStatus := getSyncStatus (Mem.adapter side) |}.

Definition noStatusWriteJob (size : positive) : SyncJob Mem.Dbs :=
  {| sourceAdapter := Mem.adapter Mem.Client;
     targetAdapter := noStatusWrite Mem.Server;
     tableName := "test_polling";
     targetTableName := "test_syncing";
     updateColumn := "updated_at";
     keyColumn := "id";
     batchSize := size;
     maxRetryAttempts := 3;
     optimizedQueries := ∅ |}.


(** An adapter every call of which throws [e], and the job between two
    such adapters. *)
Definition down {D} (e : Js.error) : Adapter D :=
  {| exists_ := fun _ _ _ d => (Thrown e, d);
     batchInsert := fun _ _ d => (Thrown e, d);
     batchUpdate := fun _ _ _ d => (Thrown e, d);
     getUpdatedRecords := fun _ _ _ d => (Thrown e, d);
     updateSyncStatus := fun _ _ d => (Thrown e, d);
     getSyncStatus := fun _ d => (Thrown e, d) |}.

Definition downJob (e : Js.error) : SyncJob Mem.Dbs :=
  {| sourceAdapter := down e;
     targetAdapter := down e;
     tableName := "test_polling";
     targetTableName := "test_syncing";
     updateColumn := "updated_at";
     keyColumn := "id";
     batchSize := 1000;
     maxRetryAttempts := 3;
     optimizedQueries := ∅ |}.

(** Client [test_polling] to server [test_syncing], and server
    [test_syncing] to client [test_polling]. *)
Definition bothWays : SyncConfig :=
  {| interval := 30000;
     cfg_updateColumn := "updated_at";
     cfg_batchSize := 1000;
     cfg_maxRetryAttempts := 3;
     tables :=
       {| clientToServer := {| listenTable := "test_polling"; syncTable := "test_syncing" |};
          serverToClient := {| listenTable := "test_syncing"; syncTable := "test_polling" |} |} |}.

(** An execution of jobs that lets an error out for the job listening to
    [table], and is [execute] for every other job. *)
Definition connectionLost : Js.error := Error "Error" "connection lost".

Definition crashingOn (table : string) (job : SyncJob Mem.Dbs) : M Mem.Dbs SyncResult :=
  if String.eqb (tableName job) table then throw connectionLost else execute job.

(** ** More of the scheduler ([src/syncer.js]) and its configuration *)

(** A direction of [runSync] runs when both its table names are set. *)
Definition configured (pair : TablePair) : bool :=
  nonEmpty (listenTable pair) && nonEmpty (syncTable pair).

(** The number of directions a tick runs. *)
Definition directions {D} (syncConfig : SyncConfig) (this : DatabaseSyncer D) : nat :=
  match client (adapters this), server (adapters this) with
  | Some _, Some _ =>
      (if configured (clientToServer (tables syncConfig)) then 1 else 0)
      + (if configured (serverToClient (tables syncConfig)) then 1 else 0)
  | _, _ => 0
  end.

(** What a pair adds: one table, a success or a failure. *)
Definition onePair (pairResults : TickResults) : Prop :=
  totalTables pairResults = 1%nat
  /\ (successTables pairResults + failedTables pairResults)%nat = 1%nat.

(** Both table names of a pair are set, or neither. *)
Definition wholeOrEmpty (pair : TablePair) : bool :=
  Bool.eqb (nonEmpty (listenTable pair)) (nonEmpty (syncTable pair)).

Section SyncTables.
Context {D : Type}.
Variable syncConfig : SyncConfig.
Variable this : DatabaseSyncer D.

(** The options [syncTables] hands to the job: no target table name. *)
Definition tableJobOptions (tableName' schemaPrefix : string) : Options :=
  match tableSchemas this !! (schemaPrefix ++ "." ++ tableName')%string with
  | Some tableSchema =>
      {| opt_targetTableName := None;
         opt_updateColumn :=
           Some (orString (schema_updateColumn tableSchema) (cfg_updateColumn syncConfig));
         opt_keyColumn := Some (orString (primaryKey tableSchema) "id");
         opt_batchSize := Some (cfg_batchSize syncConfig);
         opt_maxRetryAttempts := Some (cfg_maxRetryAttempts syncConfig);
         opt_optimizedQueries := schema_optimizedQueries tableSchema |}
  | None =>
      {| opt_targetTableName := None;
         opt_updateColumn := Some (cfg_updateColumn syncConfig);
         opt_keyColumn := None;
         opt_batchSize := Some (cfg_batchSize syncConfig);
         opt_maxRetryAttempts := Some (cfg_maxRetryAttempts syncConfig);
         opt_optimizedQueries := None |}
  end.

(** The job [syncTables] constructs for one table. *)
Definition tableJob (source target : Adapter D) (tableName' schemaPrefix : string)
    : SyncJob D :=
  newSyncJob syncConfig source target (trim tableName')
    (tableJobOptions tableName' schemaPrefix).

(** The loop of [syncTables], with [results] as it stands; [break] when
    the syncer is not running. *)
Fixpoint syncTables_from (source target : Adapter D) (schemaPrefix : string)
    (tables' : list string) (results : TickResults) : M D TickResults :=
  match tables' with
  | [] => ret results
  | tableName' :: rest =>
      if negb (isRunning this) then ret results
      else
        let! results' :=
          tryCatch
            (let syncJob := tableJob source target tableName' schemaPrefix in
             let! result := execute syncJob in
             if success result then
               ret {| totalTables := totalTables results;
                      successTables := S (successTables results);
                      failedTables := failedTables results;
                      totalRecords := totalRecords results + recordsProcessed result |}
             else
               ret {| totalTables := totalTables results;
                      successTables := successTables results;
                      failedTables := S (failedTables results);
                      totalRecords := totalRecords results |})
            (fun _ =>
               ret {| totalTables := totalTables results;
                      successTables := successTables results;
                      failedTables := S (failedTables results);
                      totalRecords := totalRecords results |}) in
        syncTables_from source target schemaPrefix rest results'
  end.

Definition syncTables (source target : Adapter D) (tables' : list string)
    (direction schemaPrefix : string) : M D TickResults :=
  syncTables_from source target schemaPrefix tables'
    {| totalTables := length tables'; successTables := 0; failedTables := 0;
       totalRecords := 0 |}.

End SyncTables.

(** [dbConfig], as far as [validateConfig] reads it; [None] is an
    environment variable that is not set. *)
Record DbSettings : Type := { host : option string; database : option string }.

Record DbConfig : Type := { clientSettings : DbSettings; serverSettings : DbSettings }.

(** [!setting] *)
Definition unset (setting : option string) : bool :=
  match setting with
  | Some s => String.eqb s ""
  | None => true
  end.

(** [errors.join('\n')] *)
Definition newline : string := String (Ascii.ascii_of_nat 10) "".

Fixpoint join (separator : string) (parts : list string) : string :=
  match parts with
  | [] => ""
  | [part] => part
  | part :: rest => (part ++ separator ++ join separator rest)%string
  end.

(** The [errors] array [validateConfig] builds: each test pushes its
    message when it holds. *)
Definition pushIf (test : bool) (text : string) (errors : list string) : list string :=
  if test then errors ++ [text] else errors.

Definition configErrors (dbConfig : DbConfig) (syncConfig : SyncConfig) : list string :=
  let clientToServer' := clientToServer (tables syncConfig) in
  let serverToClient' := serverToClient (tables syncConfig) in
  let hasClientToServerSync := configured clientToServer' in
  let hasServerToClientSync := configured serverToClient' in
  pushIf (nonEmpty (syncTable serverToClient') && negb (nonEmpty (listenTable serverToClient')))
    "SERVER_TO_CLIENT_SYNC_TABLE 已設定，但缺少 SERVER_TO_CLIENT_LISTEN_TABLE"
  (pushIf (nonEmpty (listenTable serverToClient') && negb (nonEmpty (syncTable serverToClient')))
    "SERVER_TO_CLIENT_LISTEN_TABLE 已設定，但缺少 SERVER_TO_CLIENT_SYNC_TABLE"
  (pushIf (nonEmpty (syncTable clientToServer') && negb (nonEmpty (listenTable clientToServer')))
    "CLIENT_TO_SERVER_SYNC_TABLE 已設定，但缺少 CLIENT_TO_SERVER_LISTEN_TABLE"
  (pushIf (nonEmpty (listenTable clientToServer') && negb (nonEmpty (syncTable clientToServer')))
    "CLIENT_TO_SERVER_LISTEN_TABLE 已設定，但缺少 CLIENT_TO_SERVER_SYNC_TABLE"
  (pushIf (negb hasClientToServerSync && negb hasServerToClientSync)
    "至少需要設定一組同步表格 (CLIENT_TO_SERVER 或 SERVER_TO_CLIENT)"
  (pushIf (unset (database (serverSettings dbConfig))) "SERVER_DB_DATABASE 未設定"
  (pushIf (unset (host (serverSettings dbConfig))) "SERVER_DB_HOST 未設定"
  (pushIf (unset (database (clientSettings dbConfig))) "CLIENT_DB_DATABASE 未設定"
  (pushIf (unset (host (clientSettings dbConfig))) "CLIENT_DB_HOST 未設定" [])))))))).

(** [validateConfig] *)
Definition validateConfig (dbConfig : DbConfig) (syncConfig : SyncConfig) : outcome bool :=
  let errors := configErrors dbConfig syncConfig in
  if (0 <? length errors)%nat then
    Thrown (Error "Error" ("配置驗證失敗:" ++ newline ++ join newline errors))
  else Returned true.


(** ** The adapter factory ([AdapterFactory]) *)

(** [s.toLowerCase()] on the letters A to Z. *)
Definition lowerAscii (c : Ascii.ascii) : Ascii.ascii :=
  let n := Ascii.nat_of_ascii c in
  if (65 <=? n)%nat && (n <=? 90)%nat then Ascii.ascii_of_nat (n + 32) else c.

Fixpoint toLowerCase (s : string) : string :=
  match s with
  | String c s' => String (lowerAscii c) (toLowerCase s')
  | EmptyString => EmptyString
  end.

Module AdapterFactory.

(** What [createAdapter] constructs: [new MSSQLAdapter(config)] or
    [new MariaDBAdapter(config)]. *)
Inductive Created (C : Type) : Type :=
| NewMSSQLAdapter (config : C)
| NewMariaDBAdapter (config : C).
Arguments NewMSSQLAdapter {C} config.
Arguments NewMariaDBAdapter {C} config.

Definition createAdapter {C} (type : string) (config : C) : outcome (Created C) :=
  let lowered := toLowerCase type in
  if String.eqb lowered "mssql" then Returned (NewMSSQLAdapter config)
  else if String.eqb lowered "mariadb" || String.eqb lowered "mysql" then
    Returned (NewMariaDBAdapter config)
  else if String.eqb lowered "gcp_mariadb" then Returned (NewMariaDBAdapter config)
  else if String.eqb lowered "client_mariadb" then Returned (NewMariaDBAdapter config)
  else if String.eqb lowered "postgres" || String.eqb lowered "postgresql" then
    Thrown (Error "Error" "PostgreSQL adapter not implemented yet")
  else if String.eqb lowered "sqlite" then
    Thrown (Error "Error" "SQLite adapter not implemented yet")
  else if String.eqb lowered "mongodb" || String.eqb lowered "mongo" then
    Thrown (Error "Error" "MongoDB adapter not implemented yet")
  else if String.eqb lowered "oracle" then
    Thrown (Error "Error" "Oracle adapter not implemented yet")
  else Thrown (Error "Error" ("不支援的資料庫類型: " ++ type)).

Definition getSupportedTypes : list string :=
  ["mssql"; "mariadb"; "mysql"; "gcp_mariadb"; "client_mariadb";
   "postgres"; "postgresql"; "sqlite"; "mongodb"; "mongo"; "oracle"].

(** [this.getSupportedTypes().includes(type.toLowerCase())] *)
Definition isSupported (type : string) : bool :=
  existsb (String.eqb (toLowerCase type)) getSupportedTypes.

(** The types [createAdapter] has an adapter for, and those it names but
    has none for. *)
Definition implemented : list string :=
  ["mssql"; "mariadb"; "mysql"; "gcp_mariadb"; "client_mariadb"].

Definition reserved : list string :=
  ["postgres"; "postgresql"; "sqlite"; "mongodb"; "mongo"; "oracle"].

End AdapterFactory.


(** ** The MariaDB adapter over its connection pool ([MariaDBAdapter]) *)

Module MariaDB.

(** A call of the driver, with its reply. *)
Inductive DriverCall : Type :=
| CGetConnection (reply : outcome unit)
| CQuery (text : string) (params : list value) (reply : outcome (list Row))
| CRelease (reply : outcome unit).

(** [this.pool], as far as the adapter uses it: [pool.getConnection()]
    and, on the connection it gives, [conn.query(text, values)] and
    [conn.release()]. *)
Record Pool (D : Type) : Type := {
  getConnection : op D unit;
  connQuery : string -> list value -> op D (list Row);
  release : op D unit
}.
Arguments getConnection {D}.
Arguments connQuery {D}.
Arguments release {D}.

Definition notConnected : Js.error := Error "Error" "資料庫未連接".

(** What [this.pool.getConnection()] throws when [this.pool] is [null]. *)
Definition noPool : Js.error :=
  Error "TypeError" "Cannot read properties of null (reading 'getConnection')".

Definition backtick (name : string) : string := ("`" ++ name ++ "`")%string.

Definition insertText (tableName : string) (columns : list string) : string :=
  let placeholders := join ", " (map (fun _ => "?") columns) in
  let columnList := join ", " (map backtick columns) in
  ("INSERT INTO `" ++ tableName ++ "` (" ++ columnList ++ ") VALUES ("
     ++ placeholders ++ ")")%string.

Definition updateText (tableName : string) (columns : list string) (keyColumn : string)
    : string :=
  let setClause := join ", " (map (fun col => ("`" ++ col ++ "` = ?")%string) columns) in
  (newline ++ "            UPDATE `" ++ tableName ++ "` "
     ++ newline ++ "            SET " ++ setClause ++ " "
     ++ newline ++ "            WHERE `" ++ keyColumn ++ "` = ?"
     ++ newline ++ "          ")%string.

Section Adapter.
Context {D : Type}.
(** [Object.keys(row)]: the columns of a row, in the order the row has
    them. *)
Variable keys : Row -> list string.
(** [this.pool]; [None] is [null], before [connect] and after
    [disconnect]. *)
Variable pool : option (Pool D).

(** [try { body } finally { if (conn) await conn.release(); }] with the
    connection obtained: a throw of [release] replaces the outcome of the
    body. *)
Definition releasing {A} (p : Pool D) (body : op D A) : op D A :=
  fun d =>
    let '(o, d1) := body d in
    match release p d1 with
    | (Returned _, d2) => (o, d2)
    | (Thrown e, d2) => (Thrown e, d2)
    end.

Definition query (queryString : string) (params : list value) : op D (list Row) :=
  fun d =>
    match pool with
    | None => (Thrown notConnected, d)
    | Some p =>
        match getConnection p d with
        | (Returned _, d1) => releasing p (connQuery p queryString params) d1
        | (Thrown e, d1) => (Thrown e, d1)
        end
    end.

(** [for (const row of data) { ...; await conn.query(text, values); }],
    where [statement row] is the text and the values built for [row]. *)
Fixpoint forEachRow (p : Pool D) (statement : Row -> string * list value)
    (data : list Row) (d : D) {struct data} : outcome unit * D :=
  match data with
  | [] => (Returned tt, d)
  | row :: rest =>
      match connQuery p (fst (statement row)) (snd (statement row)) d with
      | (Returned _, d1) => forEachRow p statement rest d1
      | (Thrown e, d1) => (Thrown e, d1)
      end
  end.

(** The statement [batchInsert] sends for [row]: the text and the columns
    are those of the first row of the data. *)
Definition insertStatement (tableName : string) (columns : list string) (row : Row)
    : string * list value :=
  (insertText tableName columns, map (get row) columns).

Definition batchInsert (tableName : string) (data : list Row) : op D unit :=
  fun d =>
    match data with
    | [] => (Returned tt, d)
    | first :: _ =>
        let columns := keys first in
        match pool with
        | None => (Thrown noPool, d)
        | Some p =>
            match getConnection p d with
            | (Returned _, d1) =>
                releasing p (forEachRow p (insertStatement tableName columns) data) d1
            | (Thrown e, d1) => (Thrown e, d1)
            end
        end
    end.

(** The statement [batchUpdate] sends for [row]: its own columns but the
    key in the [SET] clause, the key value last. *)
Definition updateStatement (tableName keyColumn : string) (row : Row)
    : string * list value :=
  let columns := List.filter (fun key => negb (String.eqb key keyColumn)) (keys row) in
  (updateText tableName columns keyColumn,
   map (get row) columns ++ [get row keyColumn]).

Definition batchUpdate (tableName : string) (data : list Row) (keyColumn : string)
    : op D unit :=
  fun d =>
    match data with
    | [] => (Returned tt, d)
    | _ :: _ =>
        match pool with
        | None => (Thrown noPool, d)
        | Some p =>
            match getConnection p d with
            | (Returned _, d1) =>
                releasing p (forEachRow p (updateStatement tableName keyColumn) data) d1
            | (Thrown e, d1) => (Thrown e, d1)
            end
        end
    end.

End Adapter.

(** The pool [p] with a record of the calls made on it kept beside the
    database. *)
Definition recorded {D} (p : Pool D) : Pool (D * list DriverCall) :=
  {| getConnection := fun s =>
       let '(o, d) := getConnection p (fst s) in (o, (d, snd s ++ [CGetConnection o]));
     connQuery := fun text params s =>
       let '(o, d) := connQuery p text params (fst s) in
       (o, (d, snd s ++ [CQuery text params o]));
     release := fun s =>
       let '(o, d) := release p (fst s) in (o, (d, snd s ++ [CRelease o])) |}.

(** Reading a record of driver calls: the statements sent, whether each
    was accepted, and how many connections were asked for. *)
Definition statements (calls : list DriverCall) : list (string * list value) :=
  omap (fun c => match c with CQuery text params _ => Some (text, params) | _ => None end)
    calls.

Definition accepted (calls : list DriverCall) : list bool :=
  omap (fun c => match c with CQuery _ _ reply => Some (returned reply) | _ => None end)
    calls.

Definition acquisitions (calls : list DriverCall) : nat :=
  length (List.filter (fun c => match c with CGetConnection _ => true | _ => false end)
            calls).

(** Every statement is sent on a connection that was obtained, and every
    connection obtained is released before the next is asked for and
    before the end; [held] says whether one is out at the start. *)
Fixpoint sessions (held : bool) (calls : list DriverCall) : bool :=
  match calls with
  | [] => negb held
  | CGetConnection (Returned _) :: rest => negb held && sessions true rest
  | CGetConnection (Thrown _) :: rest => negb held && sessions false rest
  | CQuery _ _ _ :: rest => held && sessions true rest
  | CRelease _ :: rest => held && sessions false rest
  end.

End MariaDB.


(** The number of [?] in a statement text: the values the driver expects. *)
Fixpoint placeholders (text : string) : nat :=
  match text with
  | String c rest =>
      ((if String.eqb (String c "") "?" then 1 else 0) + placeholders rest)%nat
  | EmptyString => 0%nat
  end.

(** ** An in-memory pool *)

Module MemPool.

(** A table without a unique key, as the list of the value lists it was
    sent, behind a pool that always gives a connection: a statement whose
    values hold a [null] is rejected, any other is appended. *)
Definition Table : Type := list (list value).

Definition nullValue : Js.error := Error "Error" "Column cannot be null".

Definition pool : MariaDB.Pool Table :=
  {| MariaDB.getConnection := fun d => (Returned tt, d);
     MariaDB.connQuery := fun _ params d =>
       if existsb (fun v => bool_decide (v = VNull)) params then (Thrown nullValue, d)
       else (Returned [], d ++ [params]);
     MariaDB.release := fun d => (Returned tt, d) |}.

(** [Object.keys] of the rows [Mem.person] builds: the columns the row
    has, in the order they were written. *)
Definition keys (row : Row) : list string :=
  List.filter (fun column => bool_decide (is_Some (row !! column)))
    ["id"; "name"; "updated_at"].

(** Three new rows, the second with a [null] name. *)
Definition sample : list Row :=
  [Mem.person 1 (VString "a") 10; Mem.person 2 VNull 20; Mem.person 3 (VString "c") 30].

(** A target whose batch calls are those of the MariaDB adapter on the
    recording pool, and where no key exists yet. *)
Definition adapter : Adapter (Table * list MariaDB.DriverCall) :=
  {| exists_ := fun _ _ _ s => (Returned false, s);
     batchInsert := MariaDB.batchInsert keys (Some (MariaDB.recorded pool));
     batchUpdate := MariaDB.batchUpdate keys (Some (MariaDB.recorded pool));
     getUpdatedRecords := fun _ _ _ s => (Returned sample, s);
     updateSyncStatus := fun _ _ s => (Returned tt, s);
     getSyncStatus := fun _ s => (Returned epoch, s) |}.

Definition job : SyncJob (Table * list MariaDB.DriverCall) :=
  {| sourceAdapter := adapter;
     targetAdapter := adapter;
     tableName := "test_polling";
     targetTableName := "test_syncing";
     updateColumn := "updated_at";
     keyColumn := "id";
     batchSize := 1000;
     maxRetryAttempts := 3;
     optimizedQueries := ∅ |}.

Definition world : World (Table * list MariaDB.DriverCall) := mkWorld ([], []) Mem.ticking.

End MemPool.

(** ** The table analyzer ([src/utils/tableAnalyzer.js]) *)

Module TableAnalyzer.

(** The analysis [analyzeTable] runs, by the [switch] on
    [this.adapter.config.type || 'mariadb'];
    [analyzePostgreSQLTable] warns and runs [analyzeGenericTable]. *)
Inductive Analysis : Type :=
| AnalyzeMSSQLTable
| AnalyzeMariaDBTable
| AnalyzePostgreSQLTable
| AnalyzeGenericTable.

Definition analysis (type : option string) : Analysis :=
  let dbType := orString type "mariadb" in
  if String.eqb dbType "mssql" then AnalyzeMSSQLTable
  else if String.eqb dbType "mariadb" || String.eqb dbType "mysql" then AnalyzeMariaDBTable
  else if String.eqb dbType "postgres" || String.eqb dbType "postgresql" then
    AnalyzePostgreSQLTable
  else AnalyzeGenericTable.

Definition getQuoteChar (type : option string) : string :=
  let dbType := orString type "mariadb" in
  if String.eqb dbType "mssql" then "["
  else if String.eqb dbType "mariadb" || String.eqb dbType "mysql" then "`"
  else if String.eqb dbType "postgres" || String.eqb dbType "postgresql" then
    String (Ascii.ascii_of_nat 34) ""
  else "`".

(** A row of the column query.  [COLUMN_NAME] is a string, as the
    information schema gives it; [PK_CONSTRAINT] is what the MSSQL query
    adds, [COLUMN_KEY] what the MariaDB one does. *)
Record Column : Type := {
  COLUMN_NAME : string;
  PK_CONSTRAINT : value;
  COLUMN_KEY : value
}.

(** [for (const c of candidates) { if (...) { result = ...; break; } }],
    the result starting as [null]. *)
Fixpoint firstOf {A} (candidates : list string) (found : string -> option A) : option A :=
  match candidates with
  | [] => None
  | candidate :: rest =>
      match found candidate with
      | Some a => Some a
      | None => firstOf rest found
      end
  end.

Definition updateColumns : list string :=
  ["updated_at"; "last_update"; "modify_time"; "update_time"].

(** The update column [analyzeMSSQLTable] finds; [analyzeGenericTable]
    has the same loop. *)
Definition updateColumnMSSQL (columns : list Column) : option string :=
  firstOf updateColumns (fun updateCol =>
    if existsb (fun col => String.eqb (toLowerCase (COLUMN_NAME col)) updateCol) columns
    then Some updateCol else None).

(** The update column [analyzeMariaDBTable] finds. *)
Definition updateColumnMariaDB (columns : list Column) : option string :=
  firstOf updateColumns (fun updateCol =>
    let same col :=
      String.eqb (toLowerCase (COLUMN_NAME col)) (toLowerCase updateCol) in
    if existsb same columns then option_map COLUMN_NAME (List.find same columns)
    else None).

Record TableInfo : Type := {
  tableName : string;
  primaryKey : option string;
  columns : list Column;
  updateColumn : option string
}.

Record InsertTemplate : Type := { insert_table : string; insert_columns : list string }.

Record UpdateTemplate : Type := {
  update_table : string;
  update_primaryKey : string;
  update_columns : list string
}.

Record OptimizedQueries : Type := {
  checkExists : string;
  getLastUpdate : string;
  getUpdatedRecords : string;
  batchInsertTemplate : InsertTemplate;
  batchUpdateTemplate : UpdateTemplate
}.

Section Queries.
Variable type : option string.

Definition closeQuote : string :=
  if String.eqb (getQuoteChar type) "[" then "]" else getQuoteChar type.

Definition generateInsertTemplate (tableInfo : TableInfo) : InsertTemplate :=
  let quote := getQuoteChar type in
  {| insert_table := (quote ++ tableName tableInfo ++ closeQuote)%string;
     insert_columns :=
       map (fun col => (quote ++ COLUMN_NAME col ++ closeQuote)%string)
         (columns tableInfo) |}.

Definition generateUpdateTemplate (tableInfo : TableInfo) : UpdateTemplate :=
  let quote := getQuoteChar type in
  {| update_table := (quote ++ tableName tableInfo ++ closeQuote)%string;
     update_primaryKey :=
       (quote ++ orString (primaryKey tableInfo) "id" ++ closeQuote)%string;
     update_columns :=
       map (fun col => (quote ++ COLUMN_NAME col ++ closeQuote)%string)
         (List.filter
            (fun col => negb (bool_decide (Some (COLUMN_NAME col) = primaryKey tableInfo)))
            (columns tableInfo)) |}.

(** [x ? a : b] on a string that may be [null]. *)
Definition present (o : option string) : bool :=
  match o with Some s => negb (String.eqb s "") | None => false end.

Definition generateOptimizedQueries (tableInfo : TableInfo) : OptimizedQueries :=
  let quote := getQuoteChar type in
  let quotedTable := (quote ++ tableName tableInfo ++ quote)%string in
  let quotedPk :=
    if present (primaryKey tableInfo)
    then (quote ++ default "" (primaryKey tableInfo) ++ quote)%string else "id" in
  let quotedUpdate :=
    if present (updateColumn tableInfo)
    then (quote ++ default "" (updateColumn tableInfo) ++ quote)%string
    else (quote ++ "updated_at" ++ quote)%string in
  {| checkExists :=
       ("SELECT COUNT(*) as count FROM " ++ quotedTable ++ " WHERE " ++ quotedPk ++ " = ?")%string;
     getLastUpdate :=
       ("SELECT MAX(" ++ quotedUpdate ++ ") as lastUpdate FROM " ++ quotedTable)%string;
     getUpdatedRecords :=
       if present (updateColumn tableInfo)
       then ("SELECT * FROM " ++ quotedTable ++ " WHERE " ++ quotedUpdate
               ++ " > ? ORDER BY " ++ quotedUpdate)%string
       else ("SELECT * FROM " ++ quotedTable)%string;
     batchInsertTemplate := generateInsertTemplate tableInfo;
     batchUpdateTemplate := generateUpdateTemplate tableInfo |}.

End Queries.

End TableAnalyzer.

(** * Properties *)

(** ** The row-by-row fallback *)

Section Fallback.
Context {D : Type}.
Variable this : SyncJob D.

Lemma oneByOne_length (apply : Row -> op D unit) records d :
  length (fst (oneByOne apply records d)) = length records.
Proof.
  revert d. induction records as [|record rest IH]; intros d; simpl; [reflexivity|].
  destruct (apply record d) as [reply d1].
  specialize (IH d1). destruct (oneByOne apply rest d1) as [replies d2].
  simpl in *. now rewrite IH.
Qed.

Lemma successes_cons {A} (reply : outcome A) replies :
  successes (reply :: replies) = ((if returned reply then 1 else 0) + successes replies)%nat.
Proof. unfold successes. simpl. now destruct (returned reply). Qed.

Lemma successes_le {A} (replies : list (outcome A)) : successes replies <= length replies.
Proof. unfold successes. apply List.filter_length_le. Qed.

Lemma insertOneByOne_from_spec records : forall successful w,
  insertOneByOne_from this successful records w =
  let '(replies, d) := oneByOne (insertAlone this) records (db w) in
  (Returned (successful + successes replies)%nat, mkWorld d (clock w),
   zip_with (insertAloneEvent this) records replies).
Proof.
  induction records as [|record rest IH]; intros successful w; simpl.
  - unfold ret. destruct w. simpl. now rewrite Nat.add_0_r.
  - unfold insertAlone at 1.
    destruct (batchInsert (targetAdapter this) (targetTableName this) [record] (db w))
      as [reply d1] eqn:Hcall.
    unfold bind at 1, tryCatch, bind, call. rewrite Hcall.
    destruct reply as [[]|e]; simpl; rewrite IH; simpl;
      destruct (oneByOne (insertAlone this) rest d1) as [replies d2];
      rewrite successes_cons; simpl; repeat f_equal; lia.
Qed.

Lemma updateOneByOne_from_spec records : forall successful w,
  updateOneByOne_from this successful records w =
  let '(replies, d) := oneByOne (updateAlone this) records (db w) in
  (Returned (successful + successes replies)%nat, mkWorld d (clock w),
   zip_with (updateAloneEvent this) records replies).
Proof.
  induction records as [|record rest IH]; intros successful w; simpl.
  - unfold ret. destruct w. simpl. now rewrite Nat.add_0_r.
  - unfold updateAlone at 1.
    destruct (batchUpdate (targetAdapter this) (targetTableName this) [record]
                (keyColumn this) (db w)) as [reply d1] eqn:Hcall.
    unfold bind at 1, tryCatch, bind, call. rewrite Hcall.
    destruct reply as [[]|e]; simpl; rewrite IH; simpl;
      destruct (oneByOne (updateAlone this) rest d1) as [replies d2];
      rewrite successes_cons; simpl; repeat f_equal; lia.
Qed.

End Fallback.

(** ** One batch *)

Section Batch.
Context {D : Type}.
Variable this : SyncJob D.

Lemma classify_run batch : forall toInsert toUpdate w,
  classify this batch toInsert toUpdate w =
  let '(checks, d) := existenceChecks this batch (db w) in
  (Returned (toInsert ++ answered false checks, toUpdate ++ answered true checks),
   mkWorld d (clock w), map (existsEvent this) checks).
Proof.
  induction batch as [|record rest IH]; intros toInsert toUpdate w; simpl.
  - unfold ret, answered. simpl. rewrite !app_nil_r. now destruct w.
  - destruct (truthy (get record (keyColumn this))) eqn:Hkey; simpl.
    + destruct (exists_ (targetAdapter this) (targetTableName this) (keyColumn this)
                  (get record (keyColumn this)) (db w)) as [reply d1] eqn:Hcall.
      unfold bind at 1, tryCatch, bind, call. rewrite Hcall.
      destruct reply as [[|]|e]; simpl; rewrite IH; simpl;
        destruct (existenceChecks this rest d1) as [checks d2];
        unfold answered; simpl; rewrite <- ?app_assoc; reflexivity.
    + apply IH.
Qed.

Lemma applyInserts_run toInsert w :
  applyInserts this toInsert w =
  let '(n, d, calls) := insertsOn this toInsert (db w) in
  (Returned n, mkWorld d (clock w), calls).
Proof.
  unfold applyInserts, insertsOn. destruct toInsert as [|record rest].
  - simpl. unfold ret. now destruct w.
  - cbn [length Nat.ltb Nat.leb].
    destruct (batchInsert (targetAdapter this) (targetTableName this) (record :: rest) (db w))
      as [reply d1] eqn:Hcall.
    unfold tryCatch, bind, call. rewrite Hcall.
    destruct reply as [u|e]; [reflexivity|].
    unfold insertOneByOne. rewrite insertOneByOne_from_spec. cbn [db clock].
    destruct (oneByOne (insertAlone this) (record :: rest) d1) as [replies d2].
    reflexivity.
Qed.

Lemma applyUpdates_run toUpdate w :
  applyUpdates this toUpdate w =
  let '(n, d, calls) := updatesOn this toUpdate (db w) in
  (Returned n, mkWorld d (clock w), calls).
Proof.
  unfold applyUpdates, updatesOn. destruct toUpdate as [|record rest].
  - simpl. unfold ret. now destruct w.
  - cbn [length Nat.ltb Nat.leb].
    destruct (batchUpdate (targetAdapter this) (targetTableName this) (record :: rest)
                (keyColumn this) (db w)) as [reply d1] eqn:Hcall.
    unfold tryCatch, bind, call. rewrite Hcall.
    destruct reply as [u|e]; [reflexivity|].
    unfold updateOneByOne. rewrite updateOneByOne_from_spec. cbn [db clock].
    destruct (oneByOne (updateAlone this) (record :: rest) d1) as [replies d2].
    reflexivity.
Qed.

Lemma processBatch_run batch w :
  processBatch this batch w =
  let '(batchResults, d, calls) := batchOn this batch (db w) in
  (Returned batchResults, mkWorld d (clock w), calls).
Proof.
  unfold processBatch, batchOn, bind at 1. rewrite classify_run.
  destruct (existenceChecks this batch (db w)) as [checks d1]. cbn [app].
  unfold bind at 1. rewrite applyInserts_run. cbn [db clock].
  destruct (insertsOn this (answered false checks) d1) as [[n1 d2] calls1].
  unfold bind at 1. rewrite applyUpdates_run. cbn [db clock].
  destruct (updatesOn this (answered true checks) d2) as [[n2 d3] calls2].
  unfold ret. now rewrite app_nil_r.
Qed.

End Batch.

(** ** The batch loop *)

Section Batches.
Context {D : Type}.
Variable this : SyncJob D.

Let size : nat := Pos.to_nat (batchSize this).

Lemma size_pos : (0 < size)%nat.
Proof. unfold size. lia. Qed.

(** [length records] rounds are enough: one more changes nothing. *)
Lemma processBatches_from_fuel records rounds : forall i results w,
  (length records <= i + rounds)%nat ->
  processBatches_from this (S rounds) records i results w =
  processBatches_from this rounds records i results w.
Proof.
  induction rounds as [|rounds IH]; intros i results w Hle.
  - simpl. destruct (i <? length records)%nat eqn:Hlt; [|reflexivity].
    apply Nat.ltb_lt in Hlt. lia.
  - change (processBatches_from this (S (S rounds)) records i results w)
      with ((if (i <? length records)%nat then
               bind (processBatch this (slice records i (i + size)))
                 (fun batchResults =>
                    processBatches_from this (S rounds) records (i + size)
                      (addBatch results batchResults))
             else ret results) w).
    change (processBatches_from this (S rounds) records i results w)
      with ((if (i <? length records)%nat then
               bind (processBatch this (slice records i (i + size)))
                 (fun batchResults =>
                    processBatches_from this rounds records (i + size)
                      (addBatch results batchResults))
             else ret results) w).
    destruct (i <? length records)%nat; [|reflexivity].
    unfold bind.
    destruct (processBatch this (slice records i (i + size)) w) as [[[br|e] w1] t1];
      [|reflexivity].
    rewrite IH; [reflexivity|]. pose proof size_pos. lia.
Qed.

Lemma processBatches_from_run records rounds : forall i results w,
  processBatches_from this rounds records i results w =
  let '(results', d, calls) :=
    batchesOn this (chunks_from this rounds records i) results (db w) in
  (Returned results', mkWorld d (clock w), calls).
Proof.
  induction rounds as [|rounds IH]; intros i results w; simpl.
  - unfold ret. now destruct w.
  - destruct (i <? length records)%nat; simpl.
    + unfold bind. rewrite processBatch_run.
      destruct (batchOn this (slice records i (i + Pos.to_nat (batchSize this))) (db w))
        as [[br d1] calls1].
      rewrite IH. cbn [db clock]. unfold addBatch.
      destruct (batchesOn this _ _ d1) as [[results' d2] calls2]. reflexivity.
    + unfold ret. now destruct w.
Qed.

Lemma processBatches_run records w :
  processBatches this records w =
  let '(results, d, calls) := batchesOn this (chunks this records) noResults (db w) in
  (Returned results, mkWorld d (clock w), calls).
Proof. unfold processBatches, chunks. apply processBatches_from_run. Qed.

Lemma slice_step (records : list Row) i :
  slice records i (i + size) = take size (drop i records).
Proof. unfold slice. f_equal. lia. Qed.

Lemma chunks_from_concat records rounds : forall i,
  (length records <= i + rounds)%nat ->
  concat (chunks_from this rounds records i) = drop i records.
Proof.
  induction rounds as [|rounds IH]; intros i Hle; simpl.
  - symmetry. apply drop_ge. lia.
  - destruct (i <? length records)%nat eqn:Hlt.
    + simpl. rewrite IH by (pose proof size_pos; lia).
      fold size. rewrite slice_step.
      transitivity (take size (drop i records) ++ drop size (drop i records));
        [now rewrite drop_drop | apply take_drop].
    + apply Nat.ltb_ge in Hlt. symmetry. now apply drop_ge.
Qed.

Lemma chunks_concat records : concat (chunks this records) = records.
Proof. unfold chunks. rewrite chunks_from_concat by lia. apply drop_0. Qed.

Lemma chunks_from_bounds records rounds : forall i,
  Forall (fun batch => 0 < length batch <= size)%nat (chunks_from this rounds records i).
Proof.
  induction rounds as [|rounds IH]; intros i; simpl; [constructor|].
  destruct (i <? length records)%nat eqn:Hlt; [|constructor].
  apply Nat.ltb_lt in Hlt. constructor; [|apply IH].
  fold size. rewrite slice_step, length_take, length_drop.
  pose proof size_pos. lia.
Qed.

Lemma chunks_bounds records :
  Forall (fun batch => 0 < length batch <= size)%nat (chunks this records).
Proof. apply chunks_from_bounds. Qed.

Lemma chunks_from_done records rounds i :
  (length records <= i)%nat -> chunks_from this rounds records i = [].
Proof.
  intros Hle. destruct rounds as [|rounds]; [reflexivity|]. simpl.
  destruct (i <? length records)%nat eqn:Hlt; [|reflexivity].
  apply Nat.ltb_lt in Hlt. lia.
Qed.

(** An input of at most [batchSize] records is one batch. *)
Lemma chunks_small records :
  records <> [] -> (length records <= size)%nat -> chunks this records = [records].
Proof.
  intros Hne Hle. unfold chunks.
  destruct records as [|record rest]; [congruence|].
  cbn [length chunks_from Nat.ltb Nat.leb]. fold size.
  rewrite chunks_from_done by (simpl in *; lia).
  rewrite slice_step. cbn [drop]. now rewrite take_ge by exact Hle.
Qed.

End Batches.

(** ** Routing *)

Section Routing.
Context {D : Type}.
Variable this : SyncJob D.

Lemma existenceChecks_rows batch : forall d,
  map fst (fst (existenceChecks this batch d)) =
  List.filter (fun record => truthy (get record (keyColumn this))) batch.
Proof.
  induction batch as [|record rest IH]; intros d; simpl; [reflexivity|].
  destruct (truthy (get record (keyColumn this))); [|apply IH].
  destruct (exists_ _ _ _ _ d) as [reply d1].
  specialize (IH d1). destruct (existenceChecks this rest d1) as [checks d2].
  simpl in *. now rewrite IH.
Qed.

Lemma existenceChecks_in batch d record reply :
  In (record, reply) (fst (existenceChecks this batch d)) ->
  In record batch /\ truthy (get record (keyColumn this)) = true.
Proof.
  intros Hin. apply (in_map fst) in Hin. rewrite existenceChecks_rows in Hin.
  simpl in Hin. now apply filter_In in Hin.
Qed.

Lemma existenceChecks_NoDup batch d :
  List.NoDup batch -> List.NoDup (map fst (fst (existenceChecks this batch d))).
Proof. intros Hnd. rewrite existenceChecks_rows. now apply List.NoDup_filter. Qed.

Lemma answered_In answer checks record :
  In record (answered answer checks) <-> In (record, Returned answer) checks.
Proof.
  unfold answered. rewrite in_map_iff. split.
  - intros [[record' reply] [Heq Hin]]. simpl in Heq. subst record'.
    apply filter_In in Hin as [Hin Hreply]. simpl in Hreply.
    destruct reply as [b|e]; [|discriminate].
    apply Bool.eqb_prop in Hreply. now subst b.
  - intros Hin. exists (record, Returned answer). split; [reflexivity|].
    apply filter_In. split; [exact Hin|]. simpl. apply Bool.eqb_reflx.
Qed.

Lemma in_zip_with_alone {A} (event : Row -> outcome A -> Event) records :
  forall replies ev,
  In ev (zip_with event records replies) ->
  exists record reply, ev = event record reply /\ In record records.
Proof.
  induction records as [|record rest IH]; intros [|reply replies] ev Hin;
    simpl in Hin; try contradiction.
  destruct Hin as [<-|Hin].
  - exists record, reply. split; [reflexivity|now left].
  - destruct (IH _ _ Hin) as (record' & reply' & -> & Hin').
    exists record', reply'. split; [reflexivity|now right].
Qed.

(** Every call of the insert half is a [batchInsert] of rows of
    [toInsert]; when there is something to insert, the first call
    carries all of it. *)
Lemma insertsOn_calls toInsert d ev :
  In ev (snd (insertsOn this toInsert d)) ->
  exists rows reply,
    ev = EBatchInsert (targetTableName this) rows reply /\ incl rows toInsert.
Proof.
  unfold insertsOn. destruct toInsert as [|record rest]; [intros []|].
  destruct (batchInsert _ _ _ d) as [[u|e] d1].
  - intros [<-|[]]. eexists _, _. split; [reflexivity|apply incl_refl].
  - destruct (oneByOne (insertAlone this) (record :: rest) d1) as [replies d2].
    intros [<-|Hin].
    + eexists _, _. split; [reflexivity|apply incl_refl].
    + apply in_zip_with_alone in Hin as (record' & reply & -> & Hin).
      exists [record'], reply. split; [reflexivity|].
      intros x [<-|[]]. exact Hin.
Qed.

Lemma updatesOn_calls toUpdate d ev :
  In ev (snd (updatesOn this toUpdate d)) ->
  exists rows reply,
    ev = EBatchUpdate (targetTableName this) rows (keyColumn this) reply /\
    incl rows toUpdate.
Proof.
  unfold updatesOn. destruct toUpdate as [|record rest]; [intros []|].
  destruct (batchUpdate _ _ _ _ d) as [[u|e] d1].
  - intros [<-|[]]. eexists _, _. split; [reflexivity|apply incl_refl].
  - destruct (oneByOne (updateAlone this) (record :: rest) d1) as [replies d2].
    intros [<-|Hin].
    + eexists _, _. split; [reflexivity|apply incl_refl].
    + apply in_zip_with_alone in Hin as (record' & reply & -> & Hin).
      exists [record'], reply. split; [reflexivity|].
      intros x [<-|[]]. exact Hin.
Qed.

Lemma insertsOn_first toInsert d :
  toInsert <> [] ->
  exists reply rest,
    snd (insertsOn this toInsert d) =
    EBatchInsert (targetTableName this) toInsert reply :: rest.
Proof.
  unfold insertsOn. destruct toInsert as [|record rest]; [congruence|]. intros _.
  destruct (batchInsert _ _ _ d) as [[u|e] d1].
  - now eexists _, _.
  - destruct (oneByOne (insertAlone this) (record :: rest) d1) as [replies d2].
    now eexists _, _.
Qed.

Lemma updatesOn_first toUpdate d :
  toUpdate <> [] ->
  exists reply rest,
    snd (updatesOn this toUpdate d) =
    EBatchUpdate (targetTableName this) toUpdate (keyColumn this) reply :: rest.
Proof.
  unfold updatesOn. destruct toUpdate as [|record rest]; [congruence|]. intros _.
  destruct (batchUpdate _ _ _ _ d) as [[u|e] d1].
  - now eexists _, _.
  - destruct (oneByOne (updateAlone this) (record :: rest) d1) as [replies d2].
    now eexists _, _.
Qed.

(** The calls of one batch, split by kind. *)
Lemma batchOn_calls batch d :
  exists d1 d2 checks,
    existenceChecks this batch d = (checks, d1) /\
    snd (batchOn this batch d) =
      map (existsEvent this) checks
        ++ snd (insertsOn this (answered false checks) d1)
        ++ snd (updatesOn this (answered true checks) d2).
Proof.
  unfold batchOn. destruct (existenceChecks this batch d) as [checks d1].
  destruct (insertsOn this (answered false checks) d1) as [[n1 d2] calls1] eqn:Hi.
  destruct (updatesOn this (answered true checks) d2) as [[n2 d3] calls2] eqn:Hu.
  exists d1, d2, checks. split; [reflexivity|]. simpl. now rewrite Hi, Hu.
Qed.

Lemma batchOn_passedToInsert batch d record :
  passedToInsert (snd (batchOn this batch d)) record <->
  In (record, Returned false) (fst (existenceChecks this batch d)).
Proof.
  destruct (batchOn_calls batch d) as (d1 & d2 & checks & Hchecks & ->).
  rewrite Hchecks. cbn [fst]. rewrite <- answered_In. split.
  - intros (table & rows & reply & Hin & Hrow).
    rewrite !in_app_iff in Hin. destruct Hin as [Hin|[Hin|Hin]].
    + apply in_map_iff in Hin as (check & Heq & _). discriminate.
    + apply insertsOn_calls in Hin as (rows' & reply' & Heq & Hincl).
      injection Heq as _ -> _. now apply Hincl.
    + apply updatesOn_calls in Hin as (rows' & reply' & Heq & _). discriminate.
  - intros Hin.
    destruct (insertsOn_first (answered false checks) d1) as (reply & rest & Heq).
    { intros Hnil. rewrite Hnil in Hin. contradiction. }
    exists (targetTableName this), (answered false checks), reply.
    split; [|exact Hin].
    rewrite !in_app_iff. right. left. rewrite Heq. now left.
Qed.

Lemma batchOn_passedToUpdate batch d record :
  passedToUpdate (snd (batchOn this batch d)) record <->
  In (record, Returned true) (fst (existenceChecks this batch d)).
Proof.
  destruct (batchOn_calls batch d) as (d1 & d2 & checks & Hchecks & ->).
  rewrite Hchecks. cbn [fst]. rewrite <- answered_In. split.
  - intros (table & rows & keyColumn' & reply & Hin & Hrow).
    rewrite !in_app_iff in Hin. destruct Hin as [Hin|[Hin|Hin]].
    + apply in_map_iff in Hin as (check & Heq & _). discriminate.
    + apply insertsOn_calls in Hin as (rows' & reply' & Heq & _). discriminate.
    + apply updatesOn_calls in Hin as (rows' & reply' & Heq & Hincl).
      injection Heq as _ -> _ _. now apply Hincl.
  - intros Hin.
    destruct (updatesOn_first (answered true checks) d2) as (reply & rest & Heq).
    { intros Hnil. rewrite Hnil in Hin. contradiction. }
    exists (targetTableName this), (answered true checks), (keyColumn this), reply.
    split; [|exact Hin].
    rewrite !in_app_iff. right. right. rewrite Heq. now left.
Qed.

End Routing.

(** ** Skipped records and the counts *)

Section Counts.
Context {D : Type}.
Variable this : SyncJob D.

Lemma existenceChecks_skip before record after d :
  truthy (get record (keyColumn this)) = false ->
  existenceChecks this (before ++ record :: after) d =
  existenceChecks this (before ++ after) d.
Proof.
  intros Hkey. revert d. induction before as [|first rest IH]; intros d; simpl.
  - now rewrite Hkey.
  - destruct (truthy (get first (keyColumn this))); [|apply IH].
    destruct (exists_ _ _ _ _ d) as [reply d1]. now rewrite IH.
Qed.

Lemma processBatch_skip before record after w :
  truthy (get record (keyColumn this)) = false ->
  processBatch this (before ++ record :: after) w =
  processBatch this (before ++ after) w.
Proof.
  intros Hkey. rewrite !processBatch_run. unfold batchOn.
  now rewrite existenceChecks_skip.
Qed.

Lemma existenceChecks_length batch d :
  (length (fst (existenceChecks this batch d)) <= length batch)%nat.
Proof.
  rewrite <- (length_map fst), existenceChecks_rows. apply List.filter_length_le.
Qed.

Lemma answered_length checks :
  (length (answered false checks) + length (answered true checks) <= length checks)%nat.
Proof.
  unfold answered. rewrite !length_map.
  induction checks as [|[record [[|]|e]] rest IH]; simpl; lia.
Qed.

Lemma insertsOn_count toInsert d :
  (fst (fst (insertsOn this toInsert d)) <= length toInsert)%nat.
Proof.
  unfold insertsOn. destruct toInsert as [|record rest]; [simpl; lia|].
  destruct (batchInsert _ _ _ d) as [[u|e] d1]; [simpl; lia|].
  pose proof (oneByOne_length (insertAlone this) (record :: rest) d1) as Hlen.
  destruct (oneByOne (insertAlone this) (record :: rest) d1) as [replies d2].
  cbn [fst] in *. rewrite <- Hlen. apply successes_le.
Qed.

Lemma updatesOn_count toUpdate d :
  (fst (fst (updatesOn this toUpdate d)) <= length toUpdate)%nat.
Proof.
  unfold updatesOn. destruct toUpdate as [|record rest]; [simpl; lia|].
  destruct (batchUpdate _ _ _ _ d) as [[u|e] d1]; [simpl; lia|].
  pose proof (oneByOne_length (updateAlone this) (record :: rest) d1) as Hlen.
  destruct (oneByOne (updateAlone this) (record :: rest) d1) as [replies d2].
  cbn [fst] in *. rewrite <- Hlen. apply successes_le.
Qed.

Lemma batchOn_counts batch d :
  let batchResults := fst (fst (batchOn this batch d)) in
  processed batchResults = (inserted batchResults + updated batchResults)%nat /\
  (processed batchResults <= length batch)%nat.
Proof.
  unfold batchOn.
  pose proof (existenceChecks_length batch d) as Hchecks.
  destruct (existenceChecks this batch d) as [checks d1]. cbn [fst] in Hchecks.
  pose proof (insertsOn_count (answered false checks) d1) as Hins.
  destruct (insertsOn this (answered false checks) d1) as [[n1 d2] calls1].
  pose proof (updatesOn_count (answered true checks) d2) as Hupd.
  destruct (updatesOn this (answered true checks) d2) as [[n2 d3] calls2].
  pose proof (answered_length checks). simpl in *. lia.
Qed.

Lemma batchesOn_counts batches : forall results d,
  totalProcessed results = (totalInserted results + totalUpdated results)%nat ->
  let results' := fst (fst (batchesOn this batches results d)) in
  totalProcessed results' = (totalInserted results' + totalUpdated results')%nat /\
  (totalProcessed results' <= totalProcessed results + length (concat batches))%nat.
Proof.
  induction batches as [|batch rest IH]; intros results d Hsum; simpl.
  - split; [exact Hsum|lia].
  - pose proof (batchOn_counts batch d) as [Hb1 Hb2].
    destruct (batchOn this batch d) as [[br d1] calls1]. cbn [fst] in Hb1, Hb2.
    specialize (IH (addBatch results br) d1).
    destruct (batchesOn this rest (addBatch results br) d1) as [[results' d2] calls2].
    cbn [fst] in *. rewrite length_app.
    destruct IH as [IH1 IH2]; [simpl; lia|]. simpl in IH2. split; [exact IH1|lia].
Qed.

Lemma batchOn_reconcileCalls batch d :
  Forall (reconcileCall this) (snd (batchOn this batch d)).
Proof.
  destruct (batchOn_calls this batch d) as (d1 & d2 & checks & Hchecks & ->).
  assert (Hrows : forall answer record, In record (answered answer checks) ->
                  truthy (get record (keyColumn this)) = true).
  { intros answer record Hin. apply answered_In in Hin.
    eapply existenceChecks_in. rewrite Hchecks. exact Hin. }
  rewrite !Forall_app. split; [|split]; apply List.Forall_forall; intros ev Hin.
  - apply in_map_iff in Hin as ([record reply] & <- & Hin). simpl.
    eapply existenceChecks_in. rewrite Hchecks. exact Hin.
  - apply insertsOn_calls in Hin as (rows & reply & -> & Hincl). simpl.
    apply List.Forall_forall. intros record Hrow. eapply Hrows, Hincl, Hrow.
  - apply updatesOn_calls in Hin as (rows & reply & -> & Hincl). simpl.
    apply List.Forall_forall. intros record Hrow. eapply Hrows, Hincl, Hrow.
Qed.

Lemma batchesOn_reconcileCalls batches : forall results d,
  Forall (reconcileCall this) (snd (batchesOn this batches results d)).
Proof.
  induction batches as [|batch rest IH]; intros results d; simpl; [constructor|].
  pose proof (batchOn_reconcileCalls batch d) as Hb.
  destruct (batchOn this batch d) as [[br d1] calls1].
  specialize (IH (addBatch results br) d1).
  destruct (batchesOn this rest (addBatch results br) d1) as [[results' d2] calls2].
  simpl in *. apply Forall_app. now split.
Qed.


End Counts.

(** ** One execution *)

Section Execute.
Context {D : Type}.
Variable this : SyncJob D.

Let key : string := syncStatusKey this.
Let source : Adapter D := sourceAdapter this.
Let target : Adapter D := targetAdapter this.

(** [executeWith], case by case. *)
Lemma executeWith_run (reconcile : list Row -> M D Results) (w : World D) :
  executeWith this reconcile w =
  match getSyncStatus target key (db w) with
  | (Thrown e, d1) =>
      (Returned (failure e), mkWorld d1 (clock (tick w)),
       [EGetSyncStatus key (Thrown e)])
  | (Returned lastSyncTime, d1) =>
      match toISOString lastSyncTime with
      | Thrown e =>
          (Returned (failure e), mkWorld d1 (clock (tick w)),
           [EGetSyncStatus key (Returned lastSyncTime)])
      | Returned _ =>
          match getUpdatedRecords source (tableName this) (updateColumn this)
                  lastSyncTime d1 with
          | (Thrown e, d2) =>
              (Returned (failure e), mkWorld d2 (clock (tick w)),
               [EGetSyncStatus key (Returned lastSyncTime);
                EGetUpdatedRecords (tableName this) (updateColumn this) lastSyncTime
                  (Thrown e)])
          | (Returned updatedRecords, d2) =>
              match updatedRecords with
              | [] =>
                  (Returned nothingNew, mkWorld d2 (clock (tick w)),
                   [EGetSyncStatus key (Returned lastSyncTime);
                    EGetUpdatedRecords (tableName this) (updateColumn this) lastSyncTime
                      (Returned [])])
              | _ :: _ =>
                  match reconcile updatedRecords (mkWorld d2 (clock (tick w))) with
                  | (Thrown e, w3, calls) =>
                      (Returned (failure e), w3,
                       EGetSyncStatus key (Returned lastSyncTime)
                         :: EGetUpdatedRecords (tableName this) (updateColumn this)
                              lastSyncTime (Returned updatedRecords)
                         :: calls)
                  | (Returned results, w3, calls) =>
                      let currentTime := VDate (clock w3 0%nat) in
                      match updateSyncStatus target key currentTime (db w3) with
                      | (Thrown e, d4) =>
                          (Returned (failure e), mkWorld d4 (clock (tick w3)),
                           EGetSyncStatus key (Returned lastSyncTime)
                             :: EGetUpdatedRecords (tableName this) (updateColumn this)
                                  lastSyncTime (Returned updatedRecords)
                             :: calls ++ [EUpdateSyncStatus key currentTime (Thrown e)])
                      | (Returned u, d4) =>
                          (Returned
                             {| success := true;
                                recordsProcessed := totalProcessed results;
                                recordsInserted := Some (totalInserted results);
                                recordsUpdated := Some (totalUpdated results);
                                duration := Some (clock w3 1%nat - clock w 0%nat)%Z;
                                error := None;
                                message := "同步成功" |},
                           mkWorld d4 (clock (tick (tick w3))),
                           EGetSyncStatus key (Returned lastSyncTime)
                             :: EGetUpdatedRecords (tableName this) (updateColumn this)
                                  lastSyncTime (Returned updatedRecords)
                             :: calls ++ [EUpdateSyncStatus key currentTime (Returned u)])
                      end
                  end
              end
          end
      end
  end.
Proof.
  unfold executeWith, bind at 1, newDate at 1, tryCatch, bind at 1, call at 1, tick.
  fold key source target. cbn [db clock].
  destruct (getSyncStatus target key (db w)) as [[lastSyncTime|e] d1]; [|reflexivity].
  unfold bind at 1, lift.
  destruct (toISOString lastSyncTime) as [[]|e]; [|reflexivity].
  unfold bind at 1, call at 1. cbn [db clock].
  destruct (getUpdatedRecords source (tableName this) (updateColumn this) lastSyncTime d1)
    as [[updatedRecords|e] d2]; [|reflexivity].
  destruct updatedRecords as [|record rest]; [reflexivity|].
  cbn [length Nat.eqb]. unfold bind at 1.
  destruct (reconcile (record :: rest) {| db := d2; clock := fun n => clock w (S n) |})
    as [[[results|e] w3] calls];
    [|unfold ret; cbn [app]; now rewrite app_nil_r].
  unfold bind at 1, newDate at 1, bind at 1, call at 1, tick. cbn [db clock].
  destruct (updateSyncStatus target key (VDate (clock w3 0%nat)) (db w3))
    as [[u|e] d4]; unfold bind, newDate, ret, tick; cbn [db clock app];
    now rewrite ?app_nil_r.
Qed.

Lemma execute_run (w : World D) : execute this w = executeWith this (processBatches this) w.
Proof. reflexivity. Qed.

End Execute.

(** ** Where a watermark write can stand among the calls *)



Lemma processBatches_returns {D} (this : SyncJob D) records w :
  exists results d calls,
    processBatches this records w = (Returned results, mkWorld d (clock w), calls)
    /\ Forall (reconcileCall this) calls
    /\ totalProcessed results = (totalInserted results + totalUpdated results)%nat
    /\ (totalProcessed results <= length records)%nat.
Proof.
  rewrite processBatches_run.
  pose proof (batchesOn_reconcileCalls this (chunks this records) noResults (db w)) as Hcalls.
  pose proof (batchesOn_counts this (chunks this records) noResults (db w) eq_refl)
    as [Hsum Hle].
  rewrite chunks_concat in Hle.
  destruct (batchesOn this (chunks this records) noResults (db w)) as [[results d] calls].
  exists results, d, calls. simpl in *. auto.
Qed.

(** ** The claims about one execution *)


(** An execution returns, with a success or with the failure object. *)
Lemma executeWith_returns {D} (this : SyncJob D)
    (reconcile : list Row -> M D Results) (w : World D) :
  exists result,
    fst (fst (executeWith this reconcile w)) = Returned result
    /\ (success result = true
        \/ exists e,
             result = failure e /\ success result = false
             /\ error result = Some (Js.message e) /\ recordsProcessed result = 0%nat).
Proof.
  rewrite executeWith_run.
  destruct (getSyncStatus _ _ (db w)) as [[last|e] d1];
    [|eexists; split; [reflexivity|right; now exists e]].
  destruct (toISOString last) as [[]|e];
    [|eexists; split; [reflexivity|right; now exists e]].
  destruct (getUpdatedRecords _ _ _ last d1) as [[rows|e] d2];
    [|eexists; split; [reflexivity|right; now exists e]].
  destruct rows as [|record rest]; [eexists; split; [reflexivity|now left]|].
  destruct (reconcile (record :: rest) _) as [[[results|e] w3] calls];
    [|eexists; split; [reflexivity|right; now exists e]].
  cbn zeta.
  destruct (updateSyncStatus _ _ _ (db w3)) as [[u|e] d4];
    [eexists; split; [reflexivity|now left]
    |eexists; split; [reflexivity|right; now exists e]].
Qed.

(** C8.  Whatever the adapters do, and whatever the reconciliation does,
    [execute] returns: an execution never ends in a throw, and a result
    that is not a success is the failure object, with [success] false, the
    message of the error caught and zero records processed.  The error
    that a step of [execute] throws (the watermark read, the read of the
    updated records, the watermark write, the reconciliation if it lets
    one out) is the one the failure object carries, and a failure comes
    from such a throw only.  [processBatches] lets no error out, so a
    failure of [execute] comes from the extraction or from the watermark
    write: what [exists], [batchInsert] or [batchUpdate] throw makes no
    failure. *)
Theorem execute_never_throws {D} (this : SyncJob D)
    (reconcile : list Row -> M D Results) (w : World D) :
  (exists result, fst (fst (execute this w)) = Returned result)
  /\ (exists result,
       fst (fst (executeWith this reconcile w)) = Returned result
       /\ (success result = true
           \/ exists e,
                result = failure e /\ success result = false
                /\ error result = Some (Js.message e) /\ recordsProcessed result = 0%nat))
  /\ (forall e,
        stepThrows this reconcile w e ->
        fst (fst (executeWith this reconcile w)) = Returned (failure e)
        /\ success (failure e) = false
        /\ error (failure e) = Some (Js.message e)
        /\ recordsProcessed (failure e) = 0%nat)
  /\ (forall result,
        fst (fst (executeWith this reconcile w)) = Returned result ->
        success result = false ->
        exists e, stepThrows this reconcile w e /\ result = failure e)
  /\ (forall result,
        fst (fst (execute this w)) = Returned result ->
        success result = false ->
        exists e,
          result = failure e
          /\ ((exists d, extractionThrows this w e d)
              \/ exists time,
                   In (EUpdateSyncStatus (syncStatusKey this) time (Thrown e))
                      (snd (execute this w)))).
Proof.
  split; [|split; [apply executeWith_returns|split; [|split]]].
  - destruct (executeWith_returns this (processBatches this) w) as (result & Hres & _).
    exists result. now rewrite execute_run.
  - intros e Hstep. split; [|now repeat split].
    rewrite executeWith_run.
    destruct Hstep as [[d [Hread|[(last & Hread & Hiso)|(last & d1 & Hread & Hiso & Hrows)]]]
                      |(last & rows & d & (d1 & Hread & Hiso & Hrows) & Hne & Hlater)].
    + now rewrite Hread.
    + now rewrite Hread, Hiso.
    + now rewrite Hread, Hiso, Hrows.
    + rewrite Hread, Hiso, Hrows. destruct rows as [|record rest]; [congruence|].
      destruct (reconcile (record :: rest) _) as [[[results|e'] w3] calls].
      * cbn zeta.
        destruct (updateSyncStatus _ _ _ (db w3)) as [[u|e'] d4]; cbn [fst] in Hlater;
          [discriminate|]. now injection Hlater as ->.
      * now subst e'.
  - intros result. rewrite executeWith_run.
    destruct (getSyncStatus _ _ (db w)) as [[last|e] d1] eqn:Hread.
    2:{ cbn [fst]. intros [= <-] _. exists e. split; [|reflexivity].
        left. exists d1. now left. }
    destruct (toISOString last) as [[]|e] eqn:Hiso.
    2:{ cbn [fst]. intros [= <-] _. exists e. split; [|reflexivity].
        left. exists d1. right. left. now exists last. }
    destruct (getUpdatedRecords _ _ _ last d1) as [[rows|e] d2] eqn:Hrows.
    2:{ cbn [fst]. intros [= <-] _. exists e. split; [|reflexivity].
        left. exists d2. right. right. now exists last, d1. }
    destruct rows as [|record rest]; [cbn [fst]; intros [= <-]; discriminate|].
    assert (Hextracted : extracted this w last (record :: rest) d2)
      by (exists d1; auto).
    destruct (reconcile (record :: rest) _) as [[[results|e] w3] calls] eqn:Hreconcile.
    + cbn zeta.
      destruct (updateSyncStatus _ _ _ (db w3)) as [[u|e] d4] eqn:Hwrite;
        cbn [fst]; intros [= <-]; [discriminate|]. intros _.
      exists e. split; [|reflexivity].
      right. exists last, (record :: rest), d2. split; [exact Hextracted|].
      split; [discriminate|]. rewrite Hreconcile. now rewrite Hwrite.
    + cbn [fst]. intros [= <-] _. exists e. split; [|reflexivity].
      right. exists last, (record :: rest), d2. split; [exact Hextracted|].
      split; [discriminate|]. now rewrite Hreconcile.
  - intros result. rewrite execute_run, executeWith_run.
    destruct (getSyncStatus _ _ (db w)) as [[last|e] d1] eqn:Hread.
    2:{ cbn [fst]. intros [= <-] _. exists e. split; [reflexivity|].
        left. exists d1. now left. }
    destruct (toISOString last) as [[]|e] eqn:Hiso.
    2:{ cbn [fst]. intros [= <-] _. exists e. split; [reflexivity|].
        left. exists d1. right. left. now exists last. }
    destruct (getUpdatedRecords _ _ _ last d1) as [[rows|e] d2] eqn:Hrows.
    2:{ cbn [fst]. intros [= <-] _. exists e. split; [reflexivity|].
        left. exists d2. right. right. now exists last, d1. }
    destruct rows as [|record rest]; [cbn [fst]; intros [= <-]; discriminate|].
    destruct (processBatches_returns this (record :: rest) (mkWorld d2 (clock (tick w))))
      as (results & d3 & calls & -> & _).
    cbn zeta.
    destruct (updateSyncStatus _ _ _ _) as [[u|e] d4] eqn:Hwrite;
      cbn [fst snd]; intros [= <-]; [discriminate|]. intros _.
    exists e. split; [reflexivity|]. right. eexists.
    right. right. apply in_or_app. right. left. reflexivity.
Qed.

(** Every call throws: the execution returns the failure object with the
    message of the first throw. *)
Lemma execute_never_throws_witness :
  let w := Mem.world [Mem.person 1 (VString "a") 5] [] in
  fst (fst (execute (downJob Mem.notConnected) w)) = Returned (failure Mem.notConnected)
  /\ error (failure Mem.notConnected) = Some "資料庫未連接".
Proof.
  intros w.
  destruct (execute_never_throws (downJob Mem.notConnected)
              (processBatches (downJob Mem.notConnected)) w) as (_ & _ & Hthrow & _ & _).
  destruct (Hthrow Mem.notConnected) as (Hrun & _ & Herror & _).
  - left. exists (db w). left. reflexivity.
  - split; [exact Hrun|exact Herror].
Defined.

(** C8, as the claim words it, fails: not every error an adapter method
    throws is converted into a failure.  The existence check of the one
    extracted record throws; the error is caught inside the
    reconciliation, and the execution returns a success with no record
    processed and no error. *)
Lemma absorbed_error_counterexample :
  let w := Mem.world [Mem.person 2 (VString "b") 6] [] in
  In (EExists "test_syncing" "id" (VNumber 2) (Thrown checkFails))
     (snd (execute (flakyJob 5) w))
  /\ exists result,
       fst (fst (execute (flakyJob 5) w)) = Returned result
       /\ success result = true
       /\ error result = None
       /\ recordsProcessed result = 0%nat.
Proof.
  intros w. split.
  - assert (Hcalls : List.filter isExistenceCheck (snd (execute (flakyJob 5) w))
                     = [EExists "test_syncing" "id" (VNumber 2) (Thrown checkFails)])
      by (vm_compute; reflexivity).
    assert (Hin : In (EExists "test_syncing" "id" (VNumber 2) (Thrown checkFails))
                    (List.filter isExistenceCheck (snd (execute (flakyJob 5) w))))
      by (rewrite Hcalls; now left).
    now apply List.filter_In in Hin.
  - eexists. split; [vm_compute; reflexivity|]. repeat split.
Qed.

(** C2.  When the extraction returns no rows, [execute] returns the
    success object with zero records processed after the two reads alone:
    no watermark write is called.  When those two reads leave the database
    as it is, a second execution right after the first does the same, and
    the database, with the watermark stored in it, is unchanged after
    both. *)
Theorem noop_execute_idempotent {D} (this : SyncJob D) (w : World D)
    (lastSyncTime : value) (d : D) :
  extracted this w lastSyncTime [] d ->
  execute this w
    = (Returned nothingNew, mkWorld d (clock (tick w)), extractionCalls this lastSyncTime [])
  /\ success nothingNew = true /\ recordsProcessed nothingNew = 0%nat
  /\ writesWatermark (extractionCalls this lastSyncTime []) = false
  /\ (getSyncStatus (targetAdapter this) (syncStatusKey this) (db w)
        = (Returned lastSyncTime, db w) ->
      d = db w ->
      let '(first, w1, calls1) := execute this w in
      let '(second, w2, calls2) := execute this w1 in
      first = Returned nothingNew /\ second = Returned nothingNew
      /\ db w2 = db w /\ writesWatermark (calls1 ++ calls2) = false).
Proof.
  intros (d1 & Hread & Hiso & Hrows).
  assert (Hrun : execute this w
                 = (Returned nothingNew, mkWorld d (clock (tick w)),
                    extractionCalls this lastSyncTime [])).
  { rewrite execute_run, executeWith_run, Hread, Hiso, Hrows. reflexivity. }
  split; [exact Hrun|]. repeat split.
  intros Hpure ->. rewrite Hrun.
  assert (d1 = db w) as -> by congruence.
  rewrite execute_run, executeWith_run. cbn [db]. rewrite Hread, Hiso, Hrows.
  repeat split.
Qed.


Lemma noop_execute_idempotent_witness :
  let w := Mem.world [] [] in
  execute (Mem.job 2) w
  = (Returned nothingNew, tick w, extractionCalls (Mem.job 2) epoch [])
  /\ fst (fst (execute (Mem.job 2) (tick w))) = Returned nothingNew.
Proof.
  intros w.
  destruct (noop_execute_idempotent (Mem.job 2) w epoch (db w))
    as (Hrun & _ & _ & _ & Htwice).
  - exists (db w). repeat split; reflexivity.
  - split; [exact Hrun|].
    specialize (Htwice eq_refl eq_refl). rewrite Hrun in Htwice.
    change (mkWorld (db w) (clock (tick w))) with (tick w) in Htwice.
    destruct (execute (Mem.job 2) (tick w)) as [[second w2] calls2].
    destruct Htwice as (_ & Hsecond & _). exact Hsecond.
Defined.

(** ** The claims about one batch *)

Lemma processBatch_calls {D} (this : SyncJob D) batch w :
  snd (processBatch this batch w) = snd (batchOn this batch (db w)).
Proof.
  rewrite processBatch_run. now destruct (batchOn this batch (db w)) as [[br d] calls].
Qed.

Lemma one_reply_each {A B} (pairs : list (A * B)) a b b' :
  List.NoDup (map fst pairs) -> In (a, b) pairs -> In (a, b') pairs -> b = b'.
Proof.
  induction pairs as [|[a0 b0] rest IH]; simpl; [intros _ []|].
  intros Hnd. apply List.NoDup_cons_iff in Hnd as [Hnotin Hnd].
  intros [Heq|Hin] [Heq'|Hin'].
  - congruence.
  - injection Heq as -> ->. exfalso. apply Hnotin.
    change a with (fst (a, b')). now apply in_map.
  - injection Heq' as -> ->. exfalso. apply Hnotin.
    change a with (fst (a, b)). now apply in_map.
  - now apply IH.
Qed.

Lemma filter_none {A} (f : A -> bool) (l : list A) :
  (forall x, In x l -> f x = false) -> List.filter f l = [].
Proof.
  induction l as [|x rest IH]; intros Hall; simpl; [reflexivity|].
  rewrite (Hall x) by now left. apply IH. intros y Hy. apply Hall. now right.
Qed.

Lemma filter_all {A} (f : A -> bool) (l : list A) :
  (forall x, In x l -> f x = true) -> List.filter f l = l.
Proof.
  induction l as [|x rest IH]; intros Hall; simpl; [reflexivity|].
  rewrite (Hall x) by now left. f_equal. apply IH. intros y Hy. apply Hall. now right.
Qed.

Lemma batchOn_existence_checks {D} (this : SyncJob D) batch d :
  List.filter isExistenceCheck (snd (batchOn this batch d))
  = map (existsEvent this) (fst (existenceChecks this batch d)).
Proof.
  destruct (batchOn_calls this batch d) as (d1 & d2 & checks & Hchecks & ->).
  rewrite Hchecks. cbn [fst]. rewrite !List.filter_app.
  rewrite filter_all, !filter_none, !app_nil_r; [reflexivity| | |].
  - intros ev Hin. now apply updatesOn_calls in Hin as (rows & reply & -> & _).
  - intros ev Hin. now apply insertsOn_calls in Hin as (rows & reply & -> & _).
  - intros ev Hin. now apply in_map_iff in Hin as (check & <- & _).
Qed.

Section WholeRun.
Context {D : Type}.
Variable this : SyncJob D.

Lemma routedBy_mono records records' before before' ev :
  incl records records' -> incl before before' ->
  routedBy this records before ev -> routedBy this records' before' ev.
Proof.
  intros Hrecords Hbefore. destruct ev; simpl; try tauto;
    intros Hrouted record Hin; destruct (Hrouted record Hin); split; auto.
Qed.

Lemma allRouted_app records calls1 calls2 :
  allRouted this records calls1 -> allRouted this records calls2 ->
  allRouted this records (calls1 ++ calls2).
Proof.
  intros H1 H2 before ev after Heq.
  apply List.app_eq_app in Heq as [mid [[-> Hrest]|[-> Hrest]]].
  - destruct mid as [|ev' mid]; simpl in Hrest.
    + eapply routedBy_mono; [apply incl_refl| |eapply (H2 []); symmetry; exact Hrest].
      intros x [].
    + injection Hrest as <- ->. eapply H1. reflexivity.
  - eapply routedBy_mono; [apply incl_refl| |eapply H2; exact Hrest].
    now apply incl_appr, incl_refl.
Qed.

Lemma allRouted_nil records : allRouted this records [].
Proof. intros [|b before] ev after Heq; discriminate. Qed.

Lemma batchOn_allRouted batch d : allRouted this batch (snd (batchOn this batch d)).
Proof.
  destruct (batchOn_calls this batch d) as (d1 & d2 & checks & Hchecks & ->).
  assert (Hchecked : forall answer record, In record (answered answer checks) ->
    In record batch
    /\ In (EExists (targetTableName this) (keyColumn this)
             (get record (keyColumn this)) (Returned answer))
          (map (existsEvent this) checks)).
  { intros answer record Hin. apply answered_In in Hin. split.
    - eapply existenceChecks_in. rewrite Hchecks. exact Hin.
    - apply in_map_iff. now exists (record, Returned answer). }
  intros before ev after Heq.
  assert (Happly : In ev (snd (insertsOn this (answered false checks) d1)
                          ++ snd (updatesOn this (answered true checks) d2)) ->
                   incl (map (existsEvent this) checks) before ->
                   routedBy this batch before ev).
  { intros Hin Hseen. apply in_app_or in Hin as [Hin|Hin].
    - apply insertsOn_calls in Hin as (rows & reply & -> & Hincl).
      intros record Hrow. destruct (Hchecked false record (Hincl _ Hrow)).
      split; [assumption|]. now apply Hseen.
    - apply updatesOn_calls in Hin as (rows & reply & -> & Hincl).
      intros record Hrow. destruct (Hchecked true record (Hincl _ Hrow)).
      split; [assumption|]. now apply Hseen. }
  apply List.app_eq_app in Heq as [mid [[Hfirst Hrest]|[-> Hrest]]].
  - destruct mid as [|ev' mid]; simpl in Hrest.
    + rewrite app_nil_r in Hfirst. subst before. apply Happly; [|apply incl_refl].
      rewrite <- Hrest. now left.
    + injection Hrest as <- ->.
      assert (Hin : In ev (map (existsEvent this) checks)).
      { rewrite Hfirst. apply in_elt. }
      now apply in_map_iff in Hin as (check & <- & _).
  - apply Happly; [|now apply incl_appl, incl_refl].
    rewrite Hrest. apply in_elt.
Qed.

Lemma allRouted_records records records' calls :
  incl records records' -> allRouted this records calls -> allRouted this records' calls.
Proof.
  intros Hincl Hall before ev after Heq.
  eapply routedBy_mono; [exact Hincl|apply incl_refl|eapply Hall; exact Heq].
Qed.

Lemma batchesOn_allRouted batches : forall results d,
  allRouted this (concat batches) (snd (batchesOn this batches results d)).
Proof.
  induction batches as [|batch rest IH]; intros results d; simpl.
  - apply allRouted_nil.
  - pose proof (batchOn_allRouted batch d) as Hbatch.
    destruct (batchOn this batch d) as [[br d1] calls1].
    specialize (IH (addBatch results br) d1).
    destruct (batchesOn this rest (addBatch results br) d1) as [[results' d2] calls2].
    simpl in *. apply allRouted_app.
    + eapply allRouted_records; [|exact Hbatch]. now apply incl_appl, incl_refl.
    + eapply allRouted_records; [|exact IH]. now apply incl_appr, incl_refl.
Qed.

Lemma processBatches_allRouted records w :
  allRouted this records (snd (processBatches this records w)).
Proof.
  rewrite processBatches_run.
  pose proof (batchesOn_allRouted (chunks this records) noResults (db w)) as Hall.
  rewrite chunks_concat in Hall.
  now destruct (batchesOn this (chunks this records) noResults (db w)) as [[results d] calls].
Qed.

End WholeRun.

(** C3.  In [processBatch], the existence checks made are those of the
    records with a truthy key, in order.  A record whose check answered
    that the key exists is passed to [batchUpdate], one whose check
    answered that it does not is passed to [batchInsert]; only records
    with the answer "does not exist" are ever passed to [batchInsert], only
    records with the answer "exists" to [batchUpdate], and a record of the
    batch is never passed to both.  Over the whole reconciliation, every
    record a call inserts is an extracted record whose key an earlier
    check answered not to exist, and every record a call updates is one
    whose key an earlier check answered to exist. *)
Theorem upsert_routing {D} (this : SyncJob D) (batch : list Row) (w : World D) :
  let checks := fst (existenceChecks this batch (db w)) in
  let calls := snd (processBatch this batch w) in
  List.filter isExistenceCheck calls = map (existsEvent this) checks
  /\ (forall record, In (record, Returned true) checks -> passedToUpdate calls record)
  /\ (forall record, In (record, Returned false) checks -> passedToInsert calls record)
  /\ (forall record, passedToInsert calls record -> In (record, Returned false) checks)
  /\ (forall record, passedToUpdate calls record -> In (record, Returned true) checks)
  /\ (List.NoDup batch ->
      forall record, ~ (passedToInsert calls record /\ passedToUpdate calls record))
  /\ (forall records w0 before ev after,
        snd (processBatches this records w0) = before ++ ev :: after ->
        routedBy this records before ev).
Proof.
  intros checks calls. subst checks calls. rewrite processBatch_calls.
  split; [|split; [|split; [|split; [|split; [|split]]]]].
  - apply batchOn_existence_checks.
  - intros record. apply batchOn_passedToUpdate.
  - intros record. apply batchOn_passedToInsert.
  - intros record. apply batchOn_passedToInsert.
  - intros record. apply batchOn_passedToUpdate.
  - intros Hnd record [Hins Hupd].
    apply batchOn_passedToInsert in Hins. apply batchOn_passedToUpdate in Hupd.
    pose proof (one_reply_each _ _ _ _ (existenceChecks_NoDup this batch (db w) Hnd)
                  Hins Hupd).
    discriminate.
  - intros records w0. apply processBatches_allRouted.
Qed.

(** Three records from the client, of which the second is on the server
    already. *)
Lemma upsert_routing_witness :
  let batch := [Mem.person 1 (VString "a") 5; Mem.person 2 (VString "b") 6;
                Mem.person 3 (VString "c") 7] in
  let w := Mem.world batch [Mem.person 2 (VString "old") 1] in
  let calls := snd (processBatch (Mem.job 5) batch w) in
  passedToUpdate calls (Mem.person 2 (VString "b") 6)
  /\ passedToInsert calls (Mem.person 1 (VString "a") 5)
  /\ ~ passedToInsert calls (Mem.person 2 (VString "b") 6).
Proof.
  intros batch w calls.
  destruct (upsert_routing (Mem.job 5) batch w)
    as (_ & Hupd & Hins & Hins' & Hupd' & Hboth & _).
  assert (Hupdated : passedToUpdate calls (Mem.person 2 (VString "b") 6)).
  { apply Hupd. right. left. reflexivity. }
  split; [exact Hupdated|]. split.
  - apply Hins. left. reflexivity.
  - intros Hinserted. apply (Hboth) with (record := Mem.person 2 (VString "b") 6).
    + apply NoDup_ListNoDup. apply (bool_decide_unpack _). vm_compute. exact I.
    + split; assumption.
Defined.

Lemma successes_failures {A} (replies : list (outcome A)) :
  (successes replies + failures replies = length replies)%nat.
Proof.
  unfold successes, failures.
  induction replies as [|[a|e] rest IH]; simpl; lia.
Qed.

(** C4.  [applyInserts] and [applyUpdates] are the two halves of
    [processBatch], which reports what they return as [inserted] and
    [updated].  When the batch call for a chunk throws, every record of
    the chunk is then applied on its own, in order and whatever happened
    to the records before it: the calls are the failed batch call followed
    by one single-record call per record.  The count reported is the
    number of single-record calls that returned, so the length of the
    chunk less the number that threw. *)
Theorem fallback_row_by_row {D} (this : SyncJob D) (chunk : list Row) (w : World D)
    (e : Js.error) (d1 : D) :
  chunk <> [] ->
  (batchInsert (targetAdapter this) (targetTableName this) chunk (db w) = (Thrown e, d1) ->
   let '(replies, d2) := oneByOne (insertAlone this) chunk d1 in
   applyInserts this chunk w
     = (Returned (successes replies), mkWorld d2 (clock w),
        EBatchInsert (targetTableName this) chunk (Thrown e)
          :: zip_with (insertAloneEvent this) chunk replies)
   /\ length replies = length chunk
   /\ successes replies = (length chunk - failures replies)%nat)
  /\ (batchUpdate (targetAdapter this) (targetTableName this) chunk (keyColumn this) (db w)
        = (Thrown e, d1) ->
      let '(replies, d2) := oneByOne (updateAlone this) chunk d1 in
      applyUpdates this chunk w
        = (Returned (successes replies), mkWorld d2 (clock w),
           EBatchUpdate (targetTableName this) chunk (keyColumn this) (Thrown e)
             :: zip_with (updateAloneEvent this) chunk replies)
      /\ length replies = length chunk
      /\ successes replies = (length chunk - failures replies)%nat).
Proof.
  intros Hne. destruct chunk as [|record rest]; [congruence|]. split; intros Hthrown.
  - rewrite applyInserts_run. unfold insertsOn. rewrite Hthrown.
    pose proof (oneByOne_length (insertAlone this) (record :: rest) d1) as Hlen.
    destruct (oneByOne (insertAlone this) (record :: rest) d1) as [replies d2].
    cbn [fst] in Hlen. pose proof (successes_failures replies).
    split; [reflexivity|]. split; [exact Hlen|lia].
  - rewrite applyUpdates_run. unfold updatesOn. rewrite Hthrown.
    pose proof (oneByOne_length (updateAlone this) (record :: rest) d1) as Hlen.
    destruct (oneByOne (updateAlone this) (record :: rest) d1) as [replies d2].
    cbn [fst] in Hlen. pose proof (successes_failures replies).
    split; [reflexivity|]. split; [exact Hlen|lia].
Qed.

(** One record with a null [name] among a hundred new ones: the batch
    insert throws, and ninety-nine records are inserted one by one. *)
Lemma fallback_row_by_row_witness :
  let w := Mem.world hundred [] in
  fst (fst (applyInserts (Mem.job 1000) hundred w)) = Returned 99%nat
  /\ fst (fst (processBatch (Mem.job 1000) hundred w))
     = Returned {| processed := 99; inserted := 99; updated := 0 |}.
Proof.
  intros w.
  destruct (fallback_row_by_row (Mem.job 1000) hundred w Mem.nullName (db w))
    as [Hinsert _]; [discriminate|].
  assert (Hthrown : batchInsert (targetAdapter (Mem.job 1000))
                      (targetTableName (Mem.job 1000)) hundred (db w)
                    = (Thrown Mem.nullName, db w)) by (vm_compute; reflexivity).
  specialize (Hinsert Hthrown).
  destruct (oneByOne (insertAlone (Mem.job 1000)) hundred (db w)) as [replies d2] eqn:Hreplies.
  destruct Hinsert as (Hrun & _ & Hcount).
  assert (Hfailures : failures replies = 1%nat).
  { change replies with (fst (replies, d2)). rewrite <- Hreplies.
    vm_compute. reflexivity. }
  split.
  - rewrite Hrun. cbn [fst]. rewrite Hcount, Hfailures. reflexivity.
  - vm_compute. reflexivity.
Defined.

(** C9.  The key test is truthiness: a record whose key is [0], the empty
    string or [false] is skipped, as one with a null or missing key is.
    No call is made for it, it counts as neither inserted nor updated, and
    the batch goes as if the record were not there. *)
Theorem falsy_keys_skipped {D} (this : SyncJob D) (record : Row)
    (before after : list Row) (w : World D) :
  In (get record (keyColumn this)) [VNumber 0; VString ""; VBool false] ->
  truthy (get record (keyColumn this)) = false
  /\ processBatch this [record] w
     = (Returned {| processed := 0; inserted := 0; updated := 0 |}, w, [])
  /\ processBatch this (before ++ record :: after) w = processBatch this (before ++ after) w
  /\ (forall other, In (get other (keyColumn this)) [VNull; VUndefined] ->
      processBatch this (before ++ record :: after) w
      = processBatch this (before ++ other :: after) w).
Proof.
  intros Hkey.
  assert (Hfalsy : truthy (get record (keyColumn this)) = false).
  { destruct Hkey as [<-|[<-|[<-|[]]]]; reflexivity. }
  split; [exact Hfalsy|]. split; [|split].
  - rewrite processBatch_run. unfold batchOn. simpl. rewrite Hfalsy. simpl.
    now destruct w.
  - now apply processBatch_skip.
  - intros other Hother. rewrite !processBatch_skip; [reflexivity| |exact Hfalsy].
    destruct Hother as [<-|[<-|[]]]; reflexivity.
Qed.

(** A record with key [0] between two records with keys 1 and 2. *)
Lemma falsy_keys_skipped_witness :
  let zero := Mem.person 0 (VString "z") 9 in
  let one := Mem.person 1 (VString "a") 5 in
  let two := Mem.person 2 (VString "b") 6 in
  let w := Mem.world [] [] in
  processBatch (Mem.job 5) ([one] ++ zero :: [two]) w
  = processBatch (Mem.job 5) ([one] ++ [two]) w
  /\ fst (fst (processBatch (Mem.job 5) [one; zero; two] w))
     = Returned {| processed := 2; inserted := 2; updated := 0 |}.
Proof.
  intros zero one two w. split.
  - apply (falsy_keys_skipped (Mem.job 5) zero [one] [two] w). left. reflexivity.
  - vm_compute. reflexivity.
Defined.

(** C7.  The reconciliation always returns, with [totalProcessed] the sum
    of [inserted] and [updated] and at most the number of records.  For a
    record whose key is missing or null, that is, for which reading the
    key column gives [undefined] or [null], no existence check is made,
    the record is in no insert and in no update call, and its batch goes
    as if the record were not there.  Reading the key column gives
    [undefined] or [null] for a record that holds [null] there, and for a
    record that has no such column, the key column not being named as a
    member of [Object.prototype]. *)
Theorem keyless_rows_skipped {D} (this : SyncJob D) (records : list Row) (w : World D) :
  exists results w' calls,
    processBatches this records w = (Returned results, w', calls)
    /\ totalProcessed results = (totalInserted results + totalUpdated results)%nat
    /\ (totalProcessed results <= length records)%nat
    /\ (forall record,
          get record (keyColumn this) = VUndefined \/ get record (keyColumn this) = VNull ->
          ~ checkedKey calls (get record (keyColumn this))
          /\ ~ passedToInsert calls record
          /\ ~ passedToUpdate calls record
          /\ forall before after w0,
               processBatch this (before ++ record :: after) w0
               = processBatch this (before ++ after) w0)
    /\ (forall record,
          (record !! keyColumn this = None /\ ~ In (keyColumn this) objectPrototype)
          \/ record !! keyColumn this = Some VUndefined
          \/ record !! keyColumn this = Some VNull ->
          get record (keyColumn this) = VUndefined \/ get record (keyColumn this) = VNull).
Proof.
  destruct (processBatches_returns this records w)
    as (results & d & calls & Hrun & Hcalls & Hsum & Hle).
  exists results, (mkWorld d (clock w)), calls.
  split; [exact Hrun|]. split; [exact Hsum|]. split; [exact Hle|]. split.
  - intros record Hkey.
    assert (Hfalsy : truthy (get record (keyColumn this)) = false).
    { destruct Hkey as [->| ->]; reflexivity. }
    rewrite List.Forall_forall in Hcalls.
    split; [|split; [|split]].
    + intros (table & keyColumn' & reply & Hin). apply Hcalls in Hin. simpl in Hin.
      congruence.
    + intros (table & rows & reply & Hin & Hrow). apply Hcalls in Hin. simpl in Hin.
      rewrite List.Forall_forall in Hin. apply Hin in Hrow. congruence.
    + intros (table & rows & keyColumn' & reply & Hin & Hrow). apply Hcalls in Hin.
      simpl in Hin. rewrite List.Forall_forall in Hin. apply Hin in Hrow. congruence.
    + intros before after w0. now apply processBatch_skip.
  - intros record [[Hown Hname]|[Hown|Hown]]; unfold get; rewrite Hown; auto.
    destruct (existsb (String.eqb (keyColumn this)) objectPrototype) eqn:Hinherited;
      [|now left].
    apply List.existsb_exists in Hinherited as (name & Hin & Heq).
    apply String.eqb_eq in Heq. subst name. contradiction.
Qed.

(** A record without [id] and one with a null [id] among two good ones. *)
Lemma keyless_rows_skipped_witness :
  let noKey : Row := {[ "name" := VString "n"; "updated_at" := VDate 7 ]} in
  let nullKey : Row := {[ "id" := VNull; "name" := VString "m"; "updated_at" := VDate 8 ]} in
  let records := [Mem.person 1 (VString "a") 5; noKey; nullKey; Mem.person 2 (VString "b") 6] in
  let w := Mem.world records [] in
  ~ passedToInsert (snd (processBatches (Mem.job 5) records w)) noKey
  /\ ~ passedToInsert (snd (processBatches (Mem.job 5) records w)) nullKey
  /\ fst (fst (processBatches (Mem.job 5) records w))
     = Returned {| totalProcessed := 2; totalInserted := 2; totalUpdated := 0 |}.
Proof.
  intros noKey nullKey records w.
  destruct (keyless_rows_skipped (Mem.job 5) records w)
    as (results & w' & calls & Hrun & _ & _ & Hskip & Hread).
  rewrite Hrun. cbn [snd]. split; [|split].
  - apply (Hskip noKey). apply Hread. left. split; [reflexivity|].
    intros Hin. cbn in Hin. repeat destruct Hin as [Hin|Hin]; try discriminate Hin.
    exact Hin.
  - apply (Hskip nullKey). apply Hread. right. right. reflexivity.
  - rewrite <- Hrun. vm_compute. reflexivity.
Defined.

(** ** Chunks first, partitions second *)

Section ChunkThenPartition.
Context {D : Type}.
Variable this : SyncJob D.

Lemma processEach_run batches : forall results w,
  processEach this batches results w =
  let '(results', d, calls) := batchesOn this batches results (db w) in
  (Returned results', mkWorld d (clock w), calls).
Proof.
  induction batches as [|batch rest IH]; intros results w; simpl.
  - unfold ret. now destruct w.
  - unfold bind. rewrite processBatch_run.
    destruct (batchOn this batch (db w)) as [[br d1] calls1].
    rewrite IH. cbn [db clock].
    destruct (batchesOn this rest (addBatch results br) d1) as [[results' d2] calls2].
    reflexivity.
Qed.

Lemma processBatches_each records w :
  processBatches this records w = processEach this (chunks this records) noResults w.
Proof. now rewrite processBatches_run, processEach_run. Qed.

Lemma processBatches_small records w :
  records <> [] -> (length records <= Pos.to_nat (batchSize this))%nat ->
  snd (processBatches this records w) = snd (processBatch this records w).
Proof.
  intros Hne Hle. rewrite processBatches_run, processBatch_run, chunks_small by assumption.
  simpl. destruct (batchOn this records (db w)) as [[br d1] calls1]. simpl.
  apply app_nil_r.
Qed.

Lemma insertsOn_shape toInsert d :
  toInsert <> [] ->
  exists reply rest,
    snd (insertsOn this toInsert d)
      = EBatchInsert (targetTableName this) toInsert reply :: rest
    /\ (returned reply = true -> rest = []).
Proof.
  unfold insertsOn. destruct toInsert as [|record others]; [congruence|]. intros _.
  destruct (batchInsert _ _ _ d) as [[u|e] d1].
  - eexists _, _. split; [reflexivity|reflexivity].
  - destruct (oneByOne (insertAlone this) (record :: others) d1) as [replies d2].
    eexists _, _. split; [reflexivity|discriminate].
Qed.

Lemma updatesOn_shape toUpdate d :
  toUpdate <> [] ->
  exists reply rest,
    snd (updatesOn this toUpdate d)
      = EBatchUpdate (targetTableName this) toUpdate (keyColumn this) reply :: rest
    /\ (returned reply = true -> rest = []).
Proof.
  unfold updatesOn. destruct toUpdate as [|record others]; [congruence|]. intros _.
  destruct (batchUpdate _ _ _ _ d) as [[u|e] d1].
  - eexists _, _. split; [reflexivity|reflexivity].
  - destruct (oneByOne (updateAlone this) (record :: others) d1) as [replies d2].
    eexists _, _. split; [reflexivity|discriminate].
Qed.

Lemma batchOn_inserts batch d :
  exists d1,
    List.filter isBatchInsert (snd (batchOn this batch d))
    = snd (insertsOn this (answered false (fst (existenceChecks this batch d))) d1).
Proof.
  destruct (batchOn_calls this batch d) as (d1 & d2 & checks & Hchecks & ->).
  rewrite Hchecks. cbn [fst]. exists d1. rewrite !List.filter_app.
  rewrite (filter_none _ (map _ _)), (filter_all _ (snd (insertsOn _ _ _))),
    (filter_none _ (snd (updatesOn _ _ _))).
  - now rewrite app_nil_r.
  - intros ev Hin. now apply updatesOn_calls in Hin as (rows & reply & -> & _).
  - intros ev Hin. now apply insertsOn_calls in Hin as (rows & reply & -> & _).
  - intros ev Hin. now apply in_map_iff in Hin as (check & <- & _).
Qed.

Lemma batchOn_updates batch d :
  exists d2,
    List.filter isBatchUpdate (snd (batchOn this batch d))
    = snd (updatesOn this (answered true (fst (existenceChecks this batch d))) d2).
Proof.
  destruct (batchOn_calls this batch d) as (d1 & d2 & checks & Hchecks & ->).
  rewrite Hchecks. cbn [fst]. exists d2. rewrite !List.filter_app.
  rewrite (filter_none _ (map _ _)), (filter_none _ (snd (insertsOn _ _ _))),
    (filter_all _ (snd (updatesOn _ _ _))).
  - reflexivity.
  - intros ev Hin. now apply updatesOn_calls in Hin as (rows & reply & -> & _).
  - intros ev Hin. now apply insertsOn_calls in Hin as (rows & reply & -> & _).
  - intros ev Hin. now apply in_map_iff in Hin as (check & <- & _).
Qed.

End ChunkThenPartition.

(** C6, as the code has it.  [processBatches] cuts the whole list of
    records into consecutive batches of at most [batchSize] records and
    runs [processBatch] on each in turn.  Within a batch the records are
    partitioned by their existence checks; when a partition is not empty,
    one batch call carries all of it, and it is the only call of its kind
    for the batch when it returns.  So for an input of at most [batchSize]
    records in all, every record to insert is in the one [batchInsert]
    call made. *)
Theorem chunk_then_partition {D} (this : SyncJob D) (records : list Row) (w : World D) :
  processBatches this records w = processEach this (chunks this records) noResults w
  /\ concat (chunks this records) = records
  /\ Forall (fun batch => 0 < length batch <= Pos.to_nat (batchSize this))%nat
       (chunks this records)
  /\ (forall batch w0,
        let checks := fst (existenceChecks this batch (db w0)) in
        let calls := snd (processBatch this batch w0) in
        (answered false checks = [] -> List.filter isBatchInsert calls = [])
        /\ (answered false checks <> [] ->
            exists reply rest,
              List.filter isBatchInsert calls
                = EBatchInsert (targetTableName this) (answered false checks) reply :: rest
              /\ (returned reply = true -> rest = []))
        /\ (answered true checks = [] -> List.filter isBatchUpdate calls = [])
        /\ (answered true checks <> [] ->
            exists reply rest,
              List.filter isBatchUpdate calls
                = EBatchUpdate (targetTableName this) (answered true checks)
                    (keyColumn this) reply :: rest
              /\ (returned reply = true -> rest = [])))
  /\ (records <> [] -> (length records <= Pos.to_nat (batchSize this))%nat ->
      let toInsert := answered false (fst (existenceChecks this records (db w))) in
      snd (processBatches this records w) = snd (processBatch this records w)
      /\ (toInsert <> [] ->
          exists reply rest,
            List.filter isBatchInsert (snd (processBatches this records w))
              = EBatchInsert (targetTableName this) toInsert reply :: rest
            /\ (returned reply = true -> rest = []))).
Proof.
  assert (Hbatch : forall batch w0,
    let checks := fst (existenceChecks this batch (db w0)) in
    let calls := snd (processBatch this batch w0) in
    (answered false checks = [] -> List.filter isBatchInsert calls = [])
    /\ (answered false checks <> [] ->
        exists reply rest,
          List.filter isBatchInsert calls
            = EBatchInsert (targetTableName this) (answered false checks) reply :: rest
          /\ (returned reply = true -> rest = []))
    /\ (answered true checks = [] -> List.filter isBatchUpdate calls = [])
    /\ (answered true checks <> [] ->
        exists reply rest,
          List.filter isBatchUpdate calls
            = EBatchUpdate (targetTableName this) (answered true checks)
                (keyColumn this) reply :: rest
          /\ (returned reply = true -> rest = []))).
  { intros batch w0 checks calls. subst checks calls. rewrite processBatch_calls.
    destruct (batchOn_inserts this batch (db w0)) as (d1 & ->).
    destruct (batchOn_updates this batch (db w0)) as (d2 & ->).
    split; [|split; [|split]].
    - intros ->. reflexivity.
    - apply insertsOn_shape.
    - intros ->. reflexivity.
    - apply updatesOn_shape. }
  split; [apply processBatches_each|].
  split; [apply chunks_concat|].
  split; [apply chunks_bounds|].
  split; [exact Hbatch|].
  intros Hne Hle toInsert.
  rewrite processBatches_small by assumption.
  split; [reflexivity|]. apply Hbatch.
Qed.

(** C6, as the claim words it, fails.  Batch size two; three records, the
    first and the third new, the second on the server already.  The two
    records to insert would fit one [batchInsert] call, and the
    reconciler of the specification makes that one call; [processBatches]
    makes two, one per batch, and no call carries both records. *)
Lemma partition_then_chunk_counterexample :
  let new1 := Mem.person 1 (VString "a") 5 in
  let old2 := Mem.person 2 (VString "b") 6 in
  let new3 := Mem.person 3 (VString "c") 7 in
  let records := [new1; old2; new3] in
  let w := Mem.world records [Mem.person 2 (VString "old") 1] in
  let toInsert := answered false (fst (existenceChecks (Mem.job 2) records (db w))) in
  toInsert = [new1; new3]
  /\ (length toInsert <= Pos.to_nat (batchSize (Mem.job 2)))%nat
  /\ List.filter isBatchInsert (snd (reconcileAsSpecified (Mem.job 2) records (db w)))
     = [EBatchInsert "test_syncing" [new1; new3] (Returned tt)]
  /\ List.filter isBatchInsert (snd (processBatches (Mem.job 2) records w))
     = [EBatchInsert "test_syncing" [new1] (Returned tt);
        EBatchInsert "test_syncing" [new3] (Returned tt)]
  /\ ~ (exists reply,
          In (EBatchInsert "test_syncing" toInsert reply)
             (snd (processBatches (Mem.job 2) records w))).
Proof.
  intros new1 old2 new3 records w toInsert.
  assert (HtoInsert : toInsert = [new1; new3]) by (vm_compute; reflexivity).
  assert (Hcalls : List.filter isBatchInsert (snd (processBatches (Mem.job 2) records w))
                   = [EBatchInsert "test_syncing" [new1] (Returned tt);
                      EBatchInsert "test_syncing" [new3] (Returned tt)])
    by (vm_compute; reflexivity).
  split; [exact HtoInsert|]. split; [rewrite HtoInsert; simpl; lia|].
  split; [vm_compute; reflexivity|]. split; [exact Hcalls|].
  intros [reply Hin].
  assert (Hin' : In (EBatchInsert "test_syncing" toInsert reply)
                   (List.filter isBatchInsert (snd (processBatches (Mem.job 2) records w)))).
  { apply filter_In. split; [exact Hin|reflexivity]. }
  rewrite Hcalls, HtoInsert in Hin'.
  destruct Hin' as [Heq|[Heq|[]]];
    apply (f_equal (fun ev => match ev with
                              | EBatchInsert _ rows _ => length rows
                              | _ => 0%nat
                              end)) in Heq;
    discriminate Heq.
Qed.

(** Two records, batch size two: one batch, one [batchInsert] call. *)
Lemma chunk_then_partition_witness :
  let records := [Mem.person 1 (VString "a") 5; Mem.person 3 (VString "c") 7] in
  let w := Mem.world records [] in
  List.filter isBatchInsert (snd (processBatches (Mem.job 2) records w))
  = [EBatchInsert "test_syncing" records (Returned tt)].
Proof.
  intros records w.
  destruct (chunk_then_partition (Mem.job 2) records w) as (_ & _ & _ & _ & Hsmall).
  destruct Hsmall as [_ Hone]; [discriminate|simpl; lia|].
  destruct Hone as (reply & rest & Hcalls & Hrest); [discriminate|].
  rewrite Hcalls.
  assert (Hreply : reply = Returned tt).
  { assert (Hhead : head (List.filter isBatchInsert
                            (snd (processBatches (Mem.job 2) records w)))
                    = Some (EBatchInsert "test_syncing" records (Returned tt)))
      by (vm_compute; reflexivity).
    rewrite Hcalls in Hhead. simpl in Hhead. congruence. }
  subst reply. rewrite Hrest by reflexivity. reflexivity.
Defined.

(** ** The claim about the watermark read *)



(** ** The claim about the tick *)

Section Tick.
Context {D : Type}.
Variable syncConfig : SyncConfig.
Variable this : DatabaseSyncer D.

Lemma syncTablePairWith_run run source target listen sync direction schemaPrefix w :
  isRunning this = true ->
  syncTablePairWith syncConfig this run source target listen sync direction schemaPrefix w =
  let '(o, w1, calls) :=
    run (pairJob syncConfig this source target listen sync schemaPrefix) w in
  (Returned (outcomeTally o), w1, calls).
Proof.
  intros Hrunning. unfold syncTablePairWith. rewrite Hrunning. cbn [negb].
  unfold tryCatch, bind.
  destruct (run _ w) as [[[result|e] w1] calls].
  - unfold outcomeTally, tally. destruct (success result); unfold ret; cbn;
      now rewrite app_nil_r.
  - unfold ret. cbn. now rewrite app_nil_r.
Qed.

Lemma syncTablePair_run source target listen sync direction schemaPrefix w :
  isRunning this = true ->
  syncTablePair syncConfig this source target listen sync direction schemaPrefix w =
  let '(o, w1, calls) :=
    execute (pairJob syncConfig this source target listen sync schemaPrefix) w in
  match o with
  | Returned result => (Returned (tally result), w1, calls)
  | Thrown _ =>
      (Returned {| totalTables := 1; successTables := 0; failedTables := 1;
                   totalRecords := 0 |}, w1, calls)
  end.
Proof.
  intros Hrunning. unfold syncTablePair, syncTablePairWith. rewrite Hrunning. cbn [negb].
  unfold tryCatch, bind.
  destruct (execute _ w) as [[[result|e] w1] calls].
  - unfold tally. destruct (success result); unfold ret; cbn; now rewrite app_nil_r.
  - unfold ret. cbn. now rewrite app_nil_r.
Qed.

End Tick.

(** C5.  In a tick with both directions configured, the job of the first
    pair is executed and then, from the state it leaves and whatever its
    outcome, the job of the second pair.  An error that the execution of
    a job throws is caught in [syncTablePair]: the tick goes on and
    returns its aggregate, in which that job is one failed table, as is a
    job whose result is a failure; a job whose result is a success is one
    successful table.  So the aggregate of the tick is the sum of the two
    outcomes: two tables, with one success and one failure when one job
    fails or throws and the other succeeds.  The tick of [runSync] is
    this with [execute] as the execution, which never throws. *)
Theorem pair_isolation {D} (syncConfig : SyncConfig) (this : DatabaseSyncer D)
    (clientAdapter serverAdapter : Adapter D) (run : SyncJob D -> M D SyncResult)
    (w : World D) :
  isRunning this = true ->
  client (adapters this) = Some clientAdapter ->
  server (adapters this) = Some serverAdapter ->
  nonEmpty (listenTable (clientToServer (tables syncConfig))) = true ->
  nonEmpty (syncTable (clientToServer (tables syncConfig))) = true ->
  nonEmpty (listenTable (serverToClient (tables syncConfig))) = true ->
  nonEmpty (syncTable (serverToClient (tables syncConfig))) = true ->
  let job1 :=
    pairJob syncConfig this clientAdapter serverAdapter
      (listenTable (clientToServer (tables syncConfig)))
      (syncTable (clientToServer (tables syncConfig))) "client" in
  let job2 :=
    pairJob syncConfig this serverAdapter clientAdapter
      (listenTable (serverToClient (tables syncConfig)))
      (syncTable (serverToClient (tables syncConfig))) "server" in
  (let '(first, w1, calls1) := run job1 (tick w) in
   let '(second, w2, calls2) := run job2 w1 in
   exists aggregate,
     runSyncWith syncConfig this run w
     = (Returned (Some aggregate), tick w2, calls1 ++ calls2)
     /\ aggregate
        = mergeResults (mergeResults noTables (outcomeTally first)) (outcomeTally second)
     /\ totalTables aggregate = 2%nat
     /\ failedTables aggregate
        = ((if succeeded first then 0 else 1) + (if succeeded second then 0 else 1))%nat
     /\ successTables aggregate
        = ((if succeeded first then 1 else 0) + (if succeeded second then 1 else 0))%nat
     /\ (succeeded first <> succeeded second ->
         successTables aggregate = 1%nat /\ failedTables aggregate = 1%nat))
  /\ runSync syncConfig this w = runSyncWith syncConfig this execute w
  /\ (exists result1, fst (fst (execute job1 (tick w))) = Returned result1)
  /\ (forall w1, exists result2, fst (fst (execute job2 w1)) = Returned result2).
Proof.
  intros Hrunning Hclient Hserver Hl1 Hs1 Hl2 Hs2 job1 job2.
  split; [|split; [reflexivity|split]].
  - destruct (run job1 (tick w)) as [[first w1] calls1] eqn:Hfirst.
    destruct (run job2 w1) as [[second w2] calls2] eqn:Hsecond.
    exists (mergeResults (mergeResults noTables (outcomeTally first)) (outcomeTally second)).
    split.
    + unfold runSyncWith. rewrite Hrunning, Hclient, Hserver. cbn [negb].
      unfold bind at 1, newDate at 1, tryCatch, bind at 1, runDirectionWith at 1.
      rewrite Hl1, Hs1. cbn [andb]. unfold bind at 1.
      rewrite syncTablePairWith_run by exact Hrunning.
      fold job1. rewrite Hfirst. unfold ret at 1.
      unfold bind at 1, runDirectionWith. rewrite Hl2, Hs2. cbn [andb]. unfold bind at 1.
      rewrite syncTablePairWith_run by exact Hrunning.
      fold job2. rewrite Hsecond. unfold ret, bind, newDate. cbn [app].
      now rewrite !app_nil_r.
    + split; [reflexivity|]. unfold outcomeTally, tally, succeeded.
      destruct first as [result1|e1], second as [result2|e2];
        repeat match goal with
               | |- context [success ?r] => destruct (success r)
               end;
        cbn; repeat split; congruence.
  - destruct (executeWith_returns job1 (processBatches job1) (tick w)) as (result1 & Hr1 & _).
    exists result1. now rewrite execute_run.
  - intros w1.
    destruct (executeWith_returns job2 (processBatches job2) w1) as (result2 & Hr2 & _).
    exists result2. now rewrite execute_run.
Qed.

(** The execution of the first job lets an error out; the second job is
    executed all the same, and the tick reports one failure and one
    success.  And the tick of [runSync] on the sample configuration, where
    the second job fails in its own [catch]. *)
Lemma pair_isolation_witness :
  let w := Mem.world [Mem.person 1 (VString "a") 5] [] in
  (fst (fst (runSyncWith bothWays sampleSyncer (crashingOn "test_polling") w))
   = Returned (Some {| totalTables := 2; successTables := 1; failedTables := 1;
                       totalRecords := 0 |})
   /\ snd (runSyncWith bothWays sampleSyncer (crashingOn "test_polling") w)
      = snd (execute (pairJob bothWays sampleSyncer (Mem.adapter Mem.Server)
                        (Mem.adapter Mem.Client) "test_syncing" "test_polling" "server")
               (tick w)))
  /\ fst (fst (runSync sampleConfig sampleSyncer w))
     = Returned (Some {| totalTables := 2; successTables := 1; failedTables := 1;
                         totalRecords := 1 |}).
Proof.
  intros w. split.
  - destruct (pair_isolation bothWays sampleSyncer (Mem.adapter Mem.Client)
                (Mem.adapter Mem.Server) (crashingOn "test_polling") w
                eq_refl eq_refl eq_refl eq_refl eq_refl eq_refl eq_refl) as [Htick _].
    cbv zeta in Htick.
    change (crashingOn "test_polling"
              (pairJob bothWays sampleSyncer (Mem.adapter Mem.Client) (Mem.adapter Mem.Server)
                 (listenTable (clientToServer (tables bothWays)))
                 (syncTable (clientToServer (tables bothWays))) "client") (tick w))
      with (@Thrown SyncResult connectionLost, tick w, @nil Event) in Htick.
    cbv iota beta in Htick.
    change (crashingOn "test_polling"
              (pairJob bothWays sampleSyncer (Mem.adapter Mem.Server) (Mem.adapter Mem.Client)
                 (listenTable (serverToClient (tables bothWays)))
                 (syncTable (serverToClient (tables bothWays))) "server") (tick w))
      with (execute (pairJob bothWays sampleSyncer (Mem.adapter Mem.Server)
                       (Mem.adapter Mem.Client) "test_syncing" "test_polling" "server")
              (tick w)) in Htick.
    destruct (execute _ (tick w)) as [[second w2] calls2] eqn:Hsecond.
    destruct Htick as (aggregate & Hrun & Haggregate & _).
    rewrite Hrun. cbn [fst snd app]. split; [|reflexivity].
    rewrite Haggregate. f_equal. f_equal.
    assert (Hvalue : fst (fst (execute (pairJob bothWays sampleSyncer (Mem.adapter Mem.Server)
                       (Mem.adapter Mem.Client) "test_syncing" "test_polling" "server")
              (tick w))) = Returned nothingNew) by (vm_compute; reflexivity).
    rewrite Hsecond in Hvalue. cbn [fst] in Hvalue. subst second. reflexivity.
  - destruct (pair_isolation sampleConfig sampleSyncer (Mem.adapter Mem.Client)
                (Mem.adapter Mem.Server) execute w
                eq_refl eq_refl eq_refl eq_refl eq_refl eq_refl eq_refl)
      as (Htick & Hsame & _).
    cbv zeta in Htick.
    destruct (execute _ (tick w)) as [[first w1] calls1] eqn:Hfirst.
    destruct (execute _ w1) as [[second w2] calls2] eqn:Hsecond.
    destruct Htick as (aggregate & Hrun & _).
    rewrite Hsame, Hrun. cbn [fst]. f_equal. f_equal.
    assert (Hvalue : fst (fst (runSync sampleConfig sampleSyncer w))
                     = Returned (Some {| totalTables := 2; successTables := 1;
                                         failedTables := 1; totalRecords := 1 |}))
      by (vm_compute; reflexivity).
    rewrite Hsame, Hrun in Hvalue. cbn [fst] in Hvalue. congruence.
Defined.


(** * Further properties of the job *)

Section CheckFailures.
Context {D : Type}.
Variable this : SyncJob D.

Lemma answered_answeredChecks checks :
  (length (answered false checks) + length (answered true checks))%nat
  = answeredChecks checks.
Proof.
  unfold answered, answeredChecks. rewrite !length_map.
  induction checks as [|[record [[|]|e]] rest IH]; simpl; lia.
Qed.

Lemma batchOn_processed_answered batch d :
  (processed (fst (fst (batchOn this batch d)))
   <= answeredChecks (fst (existenceChecks this batch d)))%nat.
Proof.
  unfold batchOn.
  destruct (existenceChecks this batch d) as [checks d1]. cbn [fst].
  pose proof (insertsOn_count this (answered false checks) d1) as Hins.
  destruct (insertsOn this (answered false checks) d1) as [[n1 d2] calls1].
  pose proof (updatesOn_count this (answered true checks) d2) as Hupd.
  destruct (updatesOn this (answered true checks) d2) as [[n2 d3] calls2].
  pose proof (answered_answeredChecks checks). simpl in *. lia.
Qed.

End CheckFailures.

(** X1.  A record whose existence check throws is given up for this run
    and nothing else: the check was called once, the batch goes on and
    [processBatch] returns, and the record is in no insert and in no update
    call.  What the batch reports as processed is at most the number of
    checks that got an answer. *)
Theorem failed_check_skips_record {D} (this : SyncJob D) (batch : list Row) (w : World D) :
  let checks := fst (existenceChecks this batch (db w)) in
  let calls := snd (processBatch this batch w) in
  (exists results,
      fst (fst (processBatch this batch w)) = Returned results
      /\ (processed results <= answeredChecks checks)%nat)
  /\ (forall record e, In (record, Thrown e) checks ->
        In (EExists (targetTableName this) (keyColumn this)
              (get record (keyColumn this)) (Thrown e)) calls)
  /\ (List.NoDup batch ->
      forall record e, In (record, Thrown e) checks ->
        ~ passedToInsert calls record /\ ~ passedToUpdate calls record).
Proof.
  intros checks calls. subst checks calls.
  rewrite processBatch_calls. split; [|split].
  - rewrite processBatch_run.
    pose proof (batchOn_processed_answered this batch (db w)) as Hle.
    destruct (batchOn this batch (db w)) as [[results d] calls]. now exists results.
  - intros record e Hin.
    destruct (batchOn_calls this batch (db w)) as (d1 & d2 & checks & Hchecks & ->).
    rewrite Hchecks in Hin. cbn [fst] in Hin.
    apply in_or_app. left. apply in_map_iff. now exists (record, Thrown e).
  - intros Hnd record e Hin.
    pose proof (existenceChecks_NoDup this batch (db w) Hnd) as Hone.
    split; intros Hpassed.
    + apply batchOn_passedToInsert in Hpassed.
      pose proof (one_reply_each _ _ _ _ Hone Hin Hpassed). discriminate.
    + apply batchOn_passedToUpdate in Hpassed.
      pose proof (one_reply_each _ _ _ _ Hone Hin Hpassed). discriminate.
Qed.

(** Three new records; the check of the second throws.  The other two are
    inserted, the second is passed to no insert. *)
Lemma failed_check_skips_record_witness :
  let one := Mem.person 1 (VString "a") 5 in
  let two := Mem.person 2 (VString "b") 6 in
  let three := Mem.person 3 (VString "c") 7 in
  let w := Mem.world [one; two; three] [] in
  ~ passedToInsert (snd (processBatch (flakyJob 5) [one; two; three] w)) two
  /\ fst (fst (processBatch (flakyJob 5) [one; two; three] w))
     = Returned {| processed := 2; inserted := 2; updated := 0 |}.
Proof.
  intros one two three w.
  destruct (failed_check_skips_record (flakyJob 5) [one; two; three] w) as (_ & _ & Hskip).
  split; [|vm_compute; reflexivity].
  assert (Hnd : List.NoDup [one; two; three]).
  { apply NoDup_ListNoDup. apply (bool_decide_unpack _). vm_compute. exact I. }
  apply (Hskip Hnd two checkFails). right. left. reflexivity.
Defined.

Section Advance.
Context {D : Type}.
Variable this : SyncJob D.

(** What [execute] does once rows have been extracted. *)
Lemma execute_after_extraction w lastSyncTime rows d :
  extracted this w lastSyncTime rows d -> rows <> [] ->
  exists results d3 calls,
    processBatches this rows (mkWorld d (clock (tick w)))
      = (Returned results, mkWorld d3 (clock (tick w)), calls)
    /\ totalProcessed results = (totalInserted results + totalUpdated results)%nat
    /\ (totalProcessed results <= length rows)%nat
    /\ execute this w
       = match updateSyncStatus (targetAdapter this) (syncStatusKey this)
                 (VDate (clock w 1%nat)) d3 with
         | (Returned u, d4) =>
             (Returned
                {| success := true;
                   recordsProcessed := totalProcessed results;
                   recordsInserted := Some (totalInserted results);
                   recordsUpdated := Some (totalUpdated results);
                   duration := Some (clock w 2%nat - clock w 0%nat)%Z;
                   error := None;
                   message := "同步成功" |},
              mkWorld d4 (clock (tick (tick (tick w)))),
              extractionCalls this lastSyncTime rows
                ++ calls
                ++ [EUpdateSyncStatus (syncStatusKey this) (VDate (clock w 1%nat))
                      (Returned u)])
         | (Thrown e, d4) =>
             (Returned (failure e), mkWorld d4 (clock (tick (tick w))),
              extractionCalls this lastSyncTime rows
                ++ calls
                ++ [EUpdateSyncStatus (syncStatusKey this) (VDate (clock w 1%nat))
                      (Thrown e)])
         end.
Proof.
  intros (d1 & Hread & Hiso & Hrows) Hne.
  destruct (processBatches_returns this rows (mkWorld d (clock (tick w))))
    as (results & d3 & calls & Hrun & _ & Hsum & Hle).
  exists results, d3, calls. cbn [clock] in Hrun.
  split; [exact Hrun|]. split; [exact Hsum|]. split; [exact Hle|].
  rewrite execute_run, executeWith_run, Hread, Hiso, Hrows.
  destruct rows as [|record rest]; [congruence|].
  rewrite Hrun. cbn [db clock tick].
  destruct (updateSyncStatus _ _ _ d3) as [[u|e] d4]; reflexivity.
Qed.

End Advance.

(** X2.  Once rows have been extracted, the outcome of [execute] depends
    on the watermark write alone.  When it returns, the result is a
    success whatever happened to the rows: the counts are those of the
    reconciliation, with [recordsProcessed] the sum of inserted and updated
    and at most the number of rows extracted, possibly zero.  The
    watermark write is the last call, and the time written is the reading
    of the clock taken after the reconciliation. *)
Theorem success_whatever_was_applied {D} (this : SyncJob D) (w : World D)
    (lastSyncTime : value) (rows : list Row) (d : D) :
  extracted this w lastSyncTime rows d -> rows <> [] ->
  exists results d3 calls,
    processBatches this rows (mkWorld d (clock (tick w)))
      = (Returned results, mkWorld d3 (clock (tick w)), calls)
    /\ forall u d4,
         updateSyncStatus (targetAdapter this) (syncStatusKey this)
           (VDate (clock w 1%nat)) d3 = (Returned u, d4) ->
         exists result,
           execute this w
           = (Returned result, mkWorld d4 (clock (tick (tick (tick w)))),
              extractionCalls this lastSyncTime rows
                ++ calls
                ++ [EUpdateSyncStatus (syncStatusKey this) (VDate (clock w 1%nat))
                      (Returned u)])
           /\ success result = true
           /\ recordsProcessed result = totalProcessed results
           /\ recordsInserted result = Some (totalInserted results)
           /\ recordsUpdated result = Some (totalUpdated results)
           /\ duration result = Some (clock w 2%nat - clock w 0%nat)%Z
           /\ recordsProcessed result
              = (totalInserted results + totalUpdated results)%nat
           /\ (recordsProcessed result <= length rows)%nat.
Proof.
  intros Hextracted Hne.
  destruct (execute_after_extraction this w lastSyncTime rows d Hextracted Hne)
    as (results & d3 & calls & Hrun & Hsum & Hle & Hexec).
  exists results, d3, calls. split; [exact Hrun|].
  intros u d4 Hwrite. rewrite Hwrite in Hexec.
  eexists. split; [exact Hexec|]. cbn. repeat split; assumption.
Qed.

(** Two records that cannot be inserted: the job succeeds with nothing
    processed, and the watermark written is the clock's second reading. *)
Lemma success_whatever_was_applied_witness :
  let w := Mem.world nameless [] in
  (exists result w' calls,
      execute (Mem.job 5) w = (Returned result, w', calls) /\ success result = true)
  /\ fst (fst (execute (Mem.job 5) w))
     = Returned {| success := true; recordsProcessed := 0;
                   recordsInserted := Some 0%nat; recordsUpdated := Some 0%nat;
                   duration := Some 2%Z; error := None; message := "同步成功" |}
  /\ Mem.sync_status (Mem.serverDb (db (snd (fst (execute (Mem.job 5) w)))))
       !! "test_polling_to_test_syncing"
     = Some (VDate 1001).
Proof.
  intros w. split; [|split; vm_compute; reflexivity].
  destruct (success_whatever_was_applied (Mem.job 5) w epoch nameless (db w))
    as (results & d3 & calls & Hrun & Hexec).
  - exists (db w). repeat split; reflexivity.
  - discriminate.
  - apply (f_equal (fun run => db (snd (fst run)))) in Hrun. cbn [fst snd db] in Hrun.
    vm_compute in Hrun. subst d3.
    match type of Hexec with
    | forall u d4, ?write = _ -> _ => destruct write as [[u|e] d4] eqn:Hwrite
    end.
    + destruct (Hexec u d4 eq_refl) as (result & Hresult & Hsuccess & _).
      eexists _, _, _. split; [exact Hresult|exact Hsuccess].
    + vm_compute in Hwrite. discriminate Hwrite.
Defined.

(** X3.  When the watermark write throws after the reconciliation, the
    result is the failure object, with zero records processed, although
    the reconciliation ran to its end for all the extracted rows: its
    calls are all there before the failed write, and the database is the
    one it left, as the write then left it. *)
Theorem write_failure_hides_applied_rows {D} (this : SyncJob D) (w : World D)
    (lastSyncTime : value) (rows : list Row) (d : D) :
  extracted this w lastSyncTime rows d -> rows <> [] ->
  exists results d3 calls,
    processBatches this rows (mkWorld d (clock (tick w)))
      = (Returned results, mkWorld d3 (clock (tick w)), calls)
    /\ forall e d4,
         updateSyncStatus (targetAdapter this) (syncStatusKey this)
           (VDate (clock w 1%nat)) d3 = (Thrown e, d4) ->
         execute this w
         = (Returned (failure e), mkWorld d4 (clock (tick (tick w))),
            extractionCalls this lastSyncTime rows
              ++ calls
              ++ [EUpdateSyncStatus (syncStatusKey this) (VDate (clock w 1%nat))
                    (Thrown e)])
         /\ recordsProcessed (failure e) = 0%nat.
Proof.
  intros Hextracted Hne.
  destruct (execute_after_extraction this w lastSyncTime rows d Hextracted Hne)
    as (results & d3 & calls & Hrun & _ & _ & Hexec).
  exists results, d3, calls. split; [exact Hrun|].
  intros e d4 Hwrite. rewrite Hwrite in Hexec. split; [exact Hexec|reflexivity].
Qed.

(** One new record, and a server whose [sync_status] cannot be written:
    the record is inserted, and the job reports a failure with nothing
    processed. *)
Lemma write_failure_hides_applied_rows_witness :
  let one := Mem.person 1 (VString "a") 5 in
  let w := Mem.world [one] [] in
  fst (fst (execute (noStatusWriteJob 5) w)) = Returned (failure statusReadOnly)
  /\ Mem.contents (Mem.serverDb (db (snd (fst (execute (noStatusWriteJob 5) w)))))
       !! "test_syncing"
     = Some [one].
Proof.
  intros one w. split; [|vm_compute; reflexivity].
  destruct (write_failure_hides_applied_rows (noStatusWriteJob 5) w epoch [one] (db w))
    as (results & d3 & calls & Hrun & Hexec).
  - exists (db w). repeat split; reflexivity.
  - discriminate.
  - destruct (Hexec statusReadOnly d3 eq_refl) as [Hresult _]. now rewrite Hresult.
Defined.

(** ** The batches *)

Section BatchCount.
Context {D : Type}.
Variable this : SyncJob D.

Let size : nat := Pos.to_nat (batchSize this).

Lemma chunks_from_length records rounds : forall i,
  (length records <= i + rounds)%nat ->
  length (chunks_from this rounds records i) = ((length records - i + size - 1) / size)%nat.
Proof.
  pose proof (size_pos this) as Hpos. fold size in Hpos.
  induction rounds as [|rounds IH]; intros i Hle; simpl.
  - replace (length records - i + size - 1)%nat with (size - 1)%nat by lia.
    symmetry. apply Nat.div_small. lia.
  - destruct (i <? length records)%nat eqn:Hlt.
    + apply Nat.ltb_lt in Hlt. simpl. fold size. rewrite IH by lia.
      destruct (Nat.le_gt_cases (i + size) (length records)).
      * replace (length records - i + size - 1)%nat
          with ((length records - (i + size) + size - 1) + 1 * size)%nat by lia.
        rewrite Nat.div_add by lia. lia.
      * replace (length records - (i + size) + size - 1)%nat with (size - 1)%nat by lia.
        replace (length records - i + size - 1)%nat
          with ((length records - i - 1) + 1 * size)%nat by lia.
        rewrite Nat.div_add by lia. rewrite !Nat.div_small by lia. reflexivity.
    + apply Nat.ltb_ge in Hlt.
      replace (length records - i + size - 1)%nat with (size - 1)%nat by lia.
      symmetry. apply Nat.div_small. lia.
Qed.

Lemma chunks_from_lookup records rounds : forall i n batch,
  chunks_from this rounds records i !! n = Some batch ->
  batch = take size (drop (i + n * size) records) /\ (i + n * size < length records)%nat.
Proof.
  induction rounds as [|rounds IH]; intros i n batch; simpl; [discriminate|].
  destruct (i <? length records)%nat eqn:Hlt; [|discriminate].
  apply Nat.ltb_lt in Hlt. destruct n as [|n]; simpl.
  - intros [= <-]. rewrite slice_step, Nat.add_0_r. auto.
  - intros Hlookup. apply IH in Hlookup as [-> Hbound]. fold size in Hbound |- *.
    replace (i + size + n * size)%nat with (i + (size + n * size))%nat by lia.
    split; [reflexivity|lia].
Qed.

End BatchCount.

(** X4.  [processBatches] runs [processBatch] on
    [ceil(records.length / batchSize)] batches, the number its log line
    announces; batch number [n], counting from zero, is the records from
    index [n * batchSize] up to [batchSize] of them, so every batch but
    the last is full. *)
Theorem batch_count {D} (this : SyncJob D) (records : list Row) (w : World D) :
  let size := Pos.to_nat (batchSize this) in
  processBatches this records w = processEach this (chunks this records) noResults w
  /\ length (chunks this records) = ((length records + size - 1) / size)%nat
  /\ (forall n batch,
        chunks this records !! n = Some batch ->
        batch = take size (drop (n * size) records)
        /\ (n * size < length records)%nat
        /\ (S n < length (chunks this records) -> length batch = size)%nat).
Proof.
  intros size. split; [apply processBatches_each|]. split.
  - unfold chunks. rewrite chunks_from_length by lia. now rewrite Nat.sub_0_r.
  - intros n batch Hlookup.
    destruct (chunks_from_lookup this records _ _ _ _ Hlookup) as [-> Hbound].
    cbn [Nat.add] in *. fold size in Hbound |- *.
    split; [reflexivity|]. split; [exact Hbound|].
    intros Hnext. rewrite length_take, length_drop.
    destruct (lookup_lt_is_Some_2 (chunks this records) (S n) Hnext) as [next Hnext'].
    apply chunks_from_lookup in Hnext' as [_ Hbound']. fold size in Hbound'. lia.
Qed.

(** Five records in batches of two: three batches, the second one full. *)
Lemma batch_count_witness :
  let records := take 5 hundred in
  length (chunks (Mem.job 2) records) = 3%nat
  /\ length (take 2 (drop 2 records)) = 2%nat.
Proof.
  intros records.
  destruct (batch_count (Mem.job 2) records (Mem.world [] [])) as (_ & Hlength & Hbatch).
  split; [rewrite Hlength; reflexivity|].
  destruct (Hbatch 1%nat (take 2 (drop 2 records))) as (_ & _ & Hfull).
  - reflexivity.
  - apply Hfull. rewrite Hlength. vm_compute. lia.
Defined.

(** ** One check for each record with a key *)

Section CheckedKeys.
Context {D : Type}.
Variable this : SyncJob D.

Lemma checkedKeys_app calls1 calls2 :
  checkedKeys (calls1 ++ calls2) = checkedKeys calls1 ++ checkedKeys calls2.
Proof. apply flat_map_app. Qed.

Lemma checkedKeys_checks checks :
  checkedKeys (map (existsEvent this) checks)
  = map (fun record => get record (keyColumn this)) (map fst checks).
Proof. induction checks as [|check rest IH]; simpl; [reflexivity|now rewrite IH]. Qed.

Lemma checkedKeys_none calls :
  (forall ev, In ev calls -> isExistenceCheck ev = false) -> checkedKeys calls = [].
Proof.
  induction calls as [|ev rest IH]; intros Hall; [reflexivity|]. simpl.
  rewrite IH by (intros ev' Hin; apply Hall; now right).
  specialize (Hall ev (or_introl eq_refl)). now destruct ev.
Qed.

Lemma batchOn_checkedKeys batch d :
  checkedKeys (snd (batchOn this batch d))
  = map (fun record => get record (keyColumn this))
      (List.filter (fun record => truthy (get record (keyColumn this))) batch).
Proof.
  destruct (batchOn_calls this batch d) as (d1 & d2 & checks & Hchecks & ->).
  rewrite !checkedKeys_app, checkedKeys_checks.
  rewrite (checkedKeys_none (snd (insertsOn _ _ _))), (checkedKeys_none (snd (updatesOn _ _ _))).
  - rewrite !app_nil_r. f_equal.
    pose proof (existenceChecks_rows this batch d) as Hrows.
    now rewrite Hchecks in Hrows.
  - intros ev Hin. now apply updatesOn_calls in Hin as (rows & reply & -> & _).
  - intros ev Hin. now apply insertsOn_calls in Hin as (rows & reply & -> & _).
Qed.

Lemma batchesOn_checkedKeys batches : forall results d,
  checkedKeys (snd (batchesOn this batches results d))
  = map (fun record => get record (keyColumn this))
      (List.filter (fun record => truthy (get record (keyColumn this))) (concat batches)).
Proof.
  induction batches as [|batch rest IH]; intros results d; simpl; [reflexivity|].
  pose proof (batchOn_checkedKeys batch d) as Hbatch.
  destruct (batchOn this batch d) as [[br d1] calls1].
  specialize (IH (addBatch results br) d1).
  destruct (batchesOn this rest (addBatch results br) d1) as [[results' d2] calls2].
  simpl in *. now rewrite checkedKeys_app, List.filter_app, map_app, Hbatch, IH.
Qed.

End CheckedKeys.

(** X5.  Over the whole reconciliation, the existence checks made are one
    for each record with a truthy key, in the order of the records and for
    the value of its key column, whatever the earlier checks and applies
    answered or threw. *)
Theorem one_check_per_keyed_record {D} (this : SyncJob D) (records : list Row)
    (w : World D) :
  checkedKeys (snd (processBatches this records w))
  = map (fun record => get record (keyColumn this))
      (List.filter (fun record => truthy (get record (keyColumn this))) records).
Proof.
  rewrite processBatches_run.
  pose proof (batchesOn_checkedKeys this (chunks this records) noResults (db w)) as Hkeys.
  rewrite chunks_concat in Hkeys.
  now destruct (batchesOn this (chunks this records) noResults (db w)) as [[results d] calls].
Qed.

(** ** Watermark keys *)

Lemma append_same_length (a a' b b' : string) :
  String.length a = String.length a' -> (a ++ b)%string = (a' ++ b')%string ->
  a = a' /\ b = b'.
Proof.
  revert a'. induction a as [|c a IH]; intros [|c' a'] Hlen Heq; simpl in *;
    try discriminate.
  - auto.
  - injection Hlen as Hlen. injection Heq as -> Heq.
    destruct (IH a' Hlen Heq) as [-> ->]. auto.
Qed.

Lemma append_length (a b : string) :
  String.length (a ++ b)%string = (String.length a + String.length b)%nat.
Proof. induction a as [|c a IH]; simpl; [reflexivity|now rewrite IH]. Qed.

(** X6.  The watermark of a pair is kept under
    [tableName ++ "_to_" ++ targetTableName].  Two jobs with the same
    source table and different target tables have different keys, and so
    have two jobs that each write to a table named as their source (the
    jobs of [syncTables]) for different tables; but the key does not tell
    every pair apart: source [a_to_b] with target [c] and source [a] with
    target [b_to_c] share one. *)
Theorem watermark_key_collisions {D} (job1 job2 : SyncJob D) :
  (tableName job1 = tableName job2 ->
   syncStatusKey job1 = syncStatusKey job2 ->
   targetTableName job1 = targetTableName job2)
  /\ (targetTableName job1 = tableName job1 ->
      targetTableName job2 = tableName job2 ->
      syncStatusKey job1 = syncStatusKey job2 ->
      tableName job1 = tableName job2)
  /\ (tableName job1 = "a_to_b" -> targetTableName job1 = "c" ->
      tableName job2 = "a" -> targetTableName job2 = "b_to_c" ->
      syncStatusKey job1 = syncStatusKey job2).
Proof.
  unfold syncStatusKey. split; [|split].
  - intros Hsource Hkey. rewrite Hsource in Hkey.
    apply append_same_length in Hkey as [_ Hkey]; [|reflexivity].
    now injection Hkey.
  - intros -> -> Hkey.
    apply append_same_length in Hkey as [Hsource _]; [exact Hsource|].
    apply (f_equal String.length) in Hkey.
    rewrite !append_length in Hkey. simpl in Hkey. lia.
  - intros -> -> -> ->. reflexivity.
Qed.

(** Two jobs of the in-memory databases with one key. *)
Lemma watermark_key_collisions_witness :
  let job1 := newSyncJob sampleConfig (Mem.adapter Mem.Client) (Mem.adapter Mem.Server)
                "a_to_b"
                {| opt_targetTableName := Some "c"; opt_updateColumn := None;
                   opt_keyColumn := None; opt_batchSize := None;
                   opt_maxRetryAttempts := None; opt_optimizedQueries := None |} in
  let job2 := newSyncJob sampleConfig (Mem.adapter Mem.Client) (Mem.adapter Mem.Server)
                "a"
                {| opt_targetTableName := Some "b_to_c"; opt_updateColumn := None;
                   opt_keyColumn := None; opt_batchSize := None;
                   opt_maxRetryAttempts := None; opt_optimizedQueries := None |} in
  syncStatusKey job1 = syncStatusKey job2 /\ tableName job1 <> tableName job2.
Proof.
  intros job1 job2.
  destruct (watermark_key_collisions job1 job2) as (_ & _ & Hsame).
  split; [now apply Hsame|discriminate].
Defined.

(** * Further properties of the scheduler *)

Section TickAggregate.
Context {D : Type}.
Variable syncConfig : SyncConfig.
Variable this : DatabaseSyncer D.
Hypothesis running : isRunning this = true.

Lemma syncTablePair_onePair source target listen sync direction schemaPrefix w :
  exists pairResults w1 calls,
    syncTablePair syncConfig this source target listen sync direction schemaPrefix w
    = (Returned pairResults, w1, calls)
    /\ onePair pairResults.
Proof.
  rewrite syncTablePair_run by exact running.
  destruct (execute _ w) as [[[result|e] w1] calls].
  - eexists _, _, _. split; [reflexivity|]. unfold tally, onePair.
    destruct (success result); simpl; auto.
  - eexists _, _, _. split; [reflexivity|]. unfold onePair. simpl. auto.
Qed.

Lemma runDirection_run source target pair direction schemaPrefix results w :
  exists results' w1 calls,
    runDirection syncConfig this source target pair direction schemaPrefix results w
    = (Returned results', w1, calls)
    /\ match source, target with
       | Some _, Some _ =>
           if configured pair then
             exists pairResults,
               onePair pairResults /\ results' = mergeResults results pairResults
           else results' = results /\ w1 = w /\ calls = []
       | _, _ => results' = results /\ w1 = w /\ calls = []
       end.
Proof.
  unfold runDirection, runDirectionWith, configured.
  destruct source as [source|], target as [target|];
    try (eexists _, _, _; split; [reflexivity|auto]).
  destruct (nonEmpty (listenTable pair) && nonEmpty (syncTable pair));
    [|eexists _, _, _; split; [reflexivity|auto]].
  destruct (syncTablePair_onePair source target (listenTable pair) (syncTable pair)
              direction schemaPrefix w) as (pairResults & w1 & calls & Hrun & Hone).
  unfold syncTablePair in Hrun. unfold bind. rewrite Hrun. unfold ret.
  eexists _, _, _. split; [reflexivity|]. now exists pairResults.
Qed.

Lemma runSync_running w :
  exists aggregate w' calls,
    runSync syncConfig this w = (Returned (Some aggregate), w', calls)
    /\ totalTables aggregate = directions syncConfig this
    /\ (successTables aggregate + failedTables aggregate)%nat = totalTables aggregate
    /\ (directions syncConfig this = 0%nat -> calls = [] /\ db w' = db w).
Proof.
  unfold runSync, runSyncWith. rewrite running. cbn [negb].
  unfold bind at 1, newDate at 1, tryCatch, bind at 1.
  destruct (runDirection_run (client (adapters this)) (server (adapters this))
              (clientToServer (tables syncConfig)) "客戶端 -> 伺服器端" "client"
              noTables (tick w)) as (results1 & w1 & calls1 & Hrun1 & Hfirst).
  unfold runDirection in Hrun1.
  fold noTables. rewrite Hrun1. unfold bind at 1.
  destruct (runDirection_run (server (adapters this)) (client (adapters this))
              (serverToClient (tables syncConfig)) "伺服器端 -> 客戶端" "server"
              results1 w1) as (results2 & w2 & calls2 & Hrun2 & Hsecond).
  unfold runDirection in Hrun2.
  rewrite Hrun2. unfold bind, newDate, ret. cbn [app].
  eexists _, _, _. split; [reflexivity|]. unfold directions.
  destruct (client (adapters this)) as [clientAdapter|],
           (server (adapters this)) as [serverAdapter|];
    try (destruct Hfirst as (-> & -> & ->), Hsecond as (-> & -> & ->);
         simpl; repeat split; reflexivity).
  destruct (configured (clientToServer (tables syncConfig))),
           (configured (serverToClient (tables syncConfig)));
    repeat match goal with
           | H : exists pairResults, _ |- _ => destruct H as (? & [? ?] & ->)
           | H : _ /\ _ |- _ => destruct H as (-> & -> & ->)
           end;
    simpl; repeat split; try lia; try discriminate; try reflexivity.
Qed.

End TickAggregate.

(** X7.  A tick of a syncer that is not running does nothing.  A tick of
    a running syncer never throws, whatever the adapters do, and its
    aggregate counts one table for each direction that has both its table
    names, when both adapters are there: a direction with a name missing
    is left out.  Every table counted is a success or a failure, and with
    no direction to run no adapter is called. *)
Theorem tick_aggregate {D} (syncConfig : SyncConfig) (this : DatabaseSyncer D)
    (w : World D) :
  (isRunning this = false -> runSync syncConfig this w = (Returned None, w, []))
  /\ (isRunning this = true ->
      exists aggregate w' calls,
        runSync syncConfig this w = (Returned (Some aggregate), w', calls)
        /\ totalTables aggregate = directions syncConfig this
        /\ (successTables aggregate + failedTables aggregate)%nat = totalTables aggregate
        /\ (directions syncConfig this = 0%nat -> calls = [] /\ db w' = db w)).
Proof.
  split.
  - intros Hstopped. unfold runSync, runSyncWith. now rewrite Hstopped.
  - intros Hrunning. now apply runSync_running.
Qed.

(** The sample tick: two directions, one table each. *)
Lemma tick_aggregate_witness :
  let w := Mem.world [Mem.person 1 (VString "a") 5] [] in
  exists aggregate w' calls,
    runSync sampleConfig sampleSyncer w = (Returned (Some aggregate), w', calls)
    /\ totalTables aggregate = 2%nat
    /\ (successTables aggregate + failedTables aggregate)%nat = 2%nat.
Proof.
  intros w.
  destruct (tick_aggregate sampleConfig sampleSyncer w) as [_ Hrunning].
  destruct (Hrunning eq_refl) as (aggregate & w' & calls & Hrun & Htotal & Hsum & _).
  exists aggregate, w', calls. split; [exact Hrun|].
  rewrite Hsum, Htotal. split; reflexivity.
Defined.

(** ** The configuration check *)

Lemma pushIf_nil test text errors :
  pushIf test text errors = [] <-> test = false /\ errors = [].
Proof.
  unfold pushIf. destruct test.
  - split; [intros H; now apply app_eq_nil in H as [_ H]|intros [H _]; discriminate].
  - split; [auto|now intros [_ ->]].
Qed.

Lemma validateConfig_returns dbConfig syncConfig :
  validateConfig dbConfig syncConfig = Returned true
  <-> configErrors dbConfig syncConfig = [].
Proof.
  unfold validateConfig.
  destruct (configErrors dbConfig syncConfig) as [|text rest]; simpl.
  - tauto.
  - split; discriminate.
Qed.

(** X8.  [validateConfig] returns exactly when the host and the database
    of both ends are set, each direction has both of its table names or
    neither, and at least one direction has both; otherwise it throws.  A
    pair with one name alone is rejected even when the other direction is
    complete.  With a configuration it accepts, a tick of a running syncer
    with both adapters runs one or two tables. *)
Theorem validateConfig_accepts {D} (dbConfig : DbConfig) (syncConfig : SyncConfig)
    (this : DatabaseSyncer D) (clientAdapter serverAdapter : Adapter D) (w : World D) :
  (validateConfig dbConfig syncConfig = Returned true
   <-> unset (host (clientSettings dbConfig)) = false
       /\ unset (database (clientSettings dbConfig)) = false
       /\ unset (host (serverSettings dbConfig)) = false
       /\ unset (database (serverSettings dbConfig)) = false
       /\ wholeOrEmpty (clientToServer (tables syncConfig)) = true
       /\ wholeOrEmpty (serverToClient (tables syncConfig)) = true
       /\ configured (clientToServer (tables syncConfig))
          || configured (serverToClient (tables syncConfig)) = true)
  /\ (validateConfig dbConfig syncConfig <> Returned true ->
      exists e, validateConfig dbConfig syncConfig = Thrown e)
  /\ (validateConfig dbConfig syncConfig = Returned true ->
      isRunning this = true ->
      client (adapters this) = Some clientAdapter ->
      server (adapters this) = Some serverAdapter ->
      exists aggregate w' calls,
        runSync syncConfig this w = (Returned (Some aggregate), w', calls)
        /\ (1 <= totalTables aggregate <= 2)%nat).
Proof.
  assert (Hiff : validateConfig dbConfig syncConfig = Returned true
   <-> unset (host (clientSettings dbConfig)) = false
       /\ unset (database (clientSettings dbConfig)) = false
       /\ unset (host (serverSettings dbConfig)) = false
       /\ unset (database (serverSettings dbConfig)) = false
       /\ wholeOrEmpty (clientToServer (tables syncConfig)) = true
       /\ wholeOrEmpty (serverToClient (tables syncConfig)) = true
       /\ configured (clientToServer (tables syncConfig))
          || configured (serverToClient (tables syncConfig)) = true).
  { rewrite validateConfig_returns. unfold configErrors, wholeOrEmpty, configured.
    rewrite !pushIf_nil.
    destruct (unset (host (clientSettings dbConfig))),
             (unset (database (clientSettings dbConfig))),
             (unset (host (serverSettings dbConfig))),
             (unset (database (serverSettings dbConfig))),
             (nonEmpty (listenTable (clientToServer (tables syncConfig)))),
             (nonEmpty (syncTable (clientToServer (tables syncConfig)))),
             (nonEmpty (listenTable (serverToClient (tables syncConfig)))),
             (nonEmpty (syncTable (serverToClient (tables syncConfig))));
      simpl; intuition congruence. }
  split; [exact Hiff|]. split.
  - intros Hnot. unfold validateConfig in *.
    destruct (0 <? length (configErrors dbConfig syncConfig))%nat;
      [eexists; reflexivity|congruence].
  - intros Hvalid Hrunning Hclient Hserver.
    destruct (runSync_running syncConfig this Hrunning w)
      as (aggregate & w' & calls & Hrun & Htotal & _).
    exists aggregate, w', calls. split; [exact Hrun|].
    rewrite Htotal. unfold directions. rewrite Hclient, Hserver.
    apply Hiff in Hvalid as (_ & _ & _ & _ & _ & _ & Hone).
    destruct (configured (clientToServer (tables syncConfig))),
             (configured (serverToClient (tables syncConfig)));
      simpl in *; try discriminate; lia.
Qed.

(** The sample configuration with both ends set is accepted; with the
    client's sync table name removed it is rejected. *)
Lemma validateConfig_accepts_witness :
  let ends := {| clientSettings := {| host := Some "10.0.0.1"; database := Some "shop" |};
                 serverSettings := {| host := Some "10.0.0.2"; database := Some "shop" |} |} in
  let half := {| interval := 30000; cfg_updateColumn := "updated_at";
                 cfg_batchSize := 1000; cfg_maxRetryAttempts := 3;
                 tables :=
                   {| clientToServer := {| listenTable := "test_polling"; syncTable := "" |};
                      serverToClient := {| listenTable := "test_polling";
                                           syncTable := "test_syncing" |} |} |} in
  validateConfig ends sampleConfig = Returned true
  /\ returned (validateConfig ends half) = false.
Proof.
  intros ends half.
  destruct (validateConfig_accepts ends sampleConfig sampleSyncer (Mem.adapter Mem.Client)
              (Mem.adapter Mem.Server) (Mem.world [] [])) as [Hiff _].
  destruct (validateConfig_accepts ends half sampleSyncer (Mem.adapter Mem.Client)
              (Mem.adapter Mem.Server) (Mem.world [] [])) as (_ & Hthrows & _).
  split.
  - apply Hiff. repeat split; reflexivity.
  - destruct Hthrows as [e ->]; [|reflexivity]. vm_compute. discriminate.
Defined.

(** ** The table loop kept for compatibility *)

Section TableLoop.
Context {D : Type}.
Variable syncConfig : SyncConfig.
Variable this : DatabaseSyncer D.

Lemma syncTables_from_stopped source target schemaPrefix tables' results w :
  isRunning this = false ->
  syncTables_from syncConfig this source target schemaPrefix tables' results w
  = (Returned results, w, []).
Proof. intros Hstopped. destruct tables'; simpl; [reflexivity|now rewrite Hstopped]. Qed.

Lemma syncTables_from_running source target schemaPrefix tables' :
  isRunning this = true ->
  forall results w,
  exists results' w' calls,
    syncTables_from syncConfig this source target schemaPrefix tables' results w
    = (Returned results', w', calls)
    /\ totalTables results' = totalTables results
    /\ (successTables results' + failedTables results')%nat
       = (successTables results + failedTables results + length tables')%nat.
Proof.
  intros Hrunning. induction tables' as [|tableName' rest IH]; intros results w; simpl.
  - eexists _, _, _. split; [reflexivity|]. split; [reflexivity|lia].
  - rewrite Hrunning. cbn [negb]. unfold bind at 1, tryCatch, bind at 1.
    destruct (executeWith_returns
                (tableJob syncConfig this source target tableName' schemaPrefix)
                (processBatches (tableJob syncConfig this source target tableName'
                                   schemaPrefix)) w) as (result & Hresult & _).
    rewrite <- execute_run in Hresult.
    destruct (execute _ w) as [[o w1] calls1]. cbn [fst] in Hresult. subst o.
    destruct (success result); unfold ret; cbn [app].
    + edestruct IH as (results' & w' & calls & -> & Htotal & Hsum).
      eexists _, _, _. split; [reflexivity|]. simpl in *. split; [exact Htotal|lia].
    + edestruct IH as (results' & w' & calls & -> & Htotal & Hsum).
      eexists _, _, _. split; [reflexivity|]. simpl in *. split; [exact Htotal|lia].
Qed.

End TableLoop.

(** X9.  [syncTables] never throws and always reports as many tables as
    it was given.  While the syncer runs, every one of them is counted
    once, as a success or as a failure; when it does not run, none is
    executed and none is counted.  The job of a table writes to the table
    of the same (trimmed) name on the target. *)
Theorem syncTables_counts {D} (syncConfig : SyncConfig) (this : DatabaseSyncer D)
    (source target : Adapter D) (tables' : list string) (direction schemaPrefix : string)
    (w : World D) :
  exists aggregate w' calls,
    syncTables syncConfig this source target tables' direction schemaPrefix w
    = (Returned aggregate, w', calls)
    /\ totalTables aggregate = length tables'
    /\ (isRunning this = true ->
        (successTables aggregate + failedTables aggregate)%nat = length tables')
    /\ (isRunning this = false ->
        successTables aggregate = 0%nat /\ failedTables aggregate = 0%nat
        /\ w' = w /\ calls = [])
    /\ (forall tableName',
          tableName (tableJob syncConfig this source target tableName' schemaPrefix)
            = trim tableName'
          /\ targetTableName (tableJob syncConfig this source target tableName' schemaPrefix)
            = trim tableName').
Proof.
  unfold syncTables. destruct (isRunning this) eqn:Hrunning.
  - destruct (syncTables_from_running syncConfig this source target schemaPrefix tables'
                Hrunning
                {| totalTables := length tables'; successTables := 0; failedTables := 0;
                   totalRecords := 0 |} w)
      as (aggregate & w' & calls & Hrun & Htotal & Hsum).
    exists aggregate, w', calls. split; [exact Hrun|]. simpl in *.
    split; [exact Htotal|]. split; [intros _; lia|]. split; [discriminate|].
    intros tableName'. unfold tableJob, tableJobOptions.
    destruct (tableSchemas this !! _); now split.
  - rewrite syncTables_from_stopped by exact Hrunning.
    eexists _, _, _. split; [reflexivity|]. simpl.
    split; [reflexivity|]. split; [discriminate|]. split; [auto|].
    intros tableName'. unfold tableJob, tableJobOptions.
    destruct (tableSchemas this !! _); now split.
Qed.

(** Two tables from client to server, the second not there.  The first
    is named with an ideographic space (U+3000) before and a no-break
    space (U+00A0) after, which [trim] takes off. *)
Lemma syncTables_counts_witness :
  let w := Mem.world [Mem.person 1 (VString "a") 5] [] in
  fst (fst (syncTables sampleConfig sampleSyncer (Mem.adapter Mem.Client)
              (Mem.adapter Mem.Server) ["　test_polling "; "missing"]
              "客戶端 -> 伺服器端" "client" w))
  = Returned {| totalTables := 2; successTables := 1; failedTables := 1;
                totalRecords := 1 |}
  /\ tableName (tableJob sampleConfig sampleSyncer (Mem.adapter Mem.Client)
                  (Mem.adapter Mem.Server) "　test_polling " "client")
     = "test_polling".
Proof.
  intros w.
  destruct (syncTables_counts sampleConfig sampleSyncer (Mem.adapter Mem.Client)
              (Mem.adapter Mem.Server) ["　test_polling "; "missing"]
              "客戶端 -> 伺服器端" "client" w)
    as (aggregate & w' & calls & Hrun & _ & Hsum & _ & Hname).
  specialize (Hsum eq_refl).
  assert (Hvalue : fst (fst (syncTables sampleConfig sampleSyncer (Mem.adapter Mem.Client)
                               (Mem.adapter Mem.Server) ["　test_polling "; "missing"]
                               "客戶端 -> 伺服器端" "client" w))
                   = Returned {| totalTables := 2; successTables := 1; failedTables := 1;
                                 totalRecords := 1 |})
    by (vm_compute; reflexivity).
  split; [exact Hvalue|].
  destruct (Hname "　test_polling ") as [-> _].
  vm_compute. reflexivity.
Defined.

(** * The adapter factory *)

Ltac split_type_cases :=
  repeat match goal with
         | |- context [String.eqb ?a ?b] =>
             destruct (String.eqb_spec a b); [subst; cbn|]
         end.

(** X10.  [createAdapter] looks at the type in lower case.  It returns an
    adapter for five names only, the MariaDB adapter for four of them;
    every name it returns an adapter for is one [isSupported] accepts, but
    [isSupported] also accepts six names for which [createAdapter] throws
    "not implemented yet".  For a name [isSupported] rejects,
    [createAdapter] throws the error that quotes the name as it was
    given. *)
Theorem factory_supported_types {C} (type : string) (config : C) :
  let lowered := toLowerCase type in
  (returned (AdapterFactory.createAdapter type config) = true
   <-> In lowered AdapterFactory.implemented)
  /\ (In lowered ["mariadb"; "mysql"; "gcp_mariadb"; "client_mariadb"] ->
      AdapterFactory.createAdapter type config
      = Returned (AdapterFactory.NewMariaDBAdapter config))
  /\ (returned (AdapterFactory.createAdapter type config) = true ->
      AdapterFactory.isSupported type = true)
  /\ (AdapterFactory.isSupported type = true
      /\ returned (AdapterFactory.createAdapter type config) = false
      <-> In lowered AdapterFactory.reserved)
  /\ (AdapterFactory.isSupported type = false ->
      AdapterFactory.createAdapter type config
      = Thrown (Error "Error" ("不支援的資料庫類型: " ++ type))).
Proof.
  intros lowered. subst lowered.
  unfold AdapterFactory.createAdapter, AdapterFactory.isSupported,
    AdapterFactory.getSupportedTypes, AdapterFactory.implemented, AdapterFactory.reserved.
  remember (toLowerCase type) as lowered eqn:Hlowered. clear Hlowered.
  cbn [existsb In].
  split_type_cases;
    repeat split; intros; try discriminate; try tauto; try congruence;
    repeat match goal with
           | H : _ \/ _ |- _ => destruct H
           | H : _ /\ _ |- _ => destruct H
           end; try discriminate; try congruence; try tauto.
Qed.

(** The type can be given in any case; PostgreSQL is announced and not
    there. *)
Lemma factory_supported_types_witness :
  AdapterFactory.createAdapter "MySQL" 3306%Z
  = Returned (AdapterFactory.NewMariaDBAdapter 3306%Z)
  /\ AdapterFactory.isSupported "Postgres" = true
  /\ returned (AdapterFactory.createAdapter "Postgres" 5432%Z) = false.
Proof.
  destruct (factory_supported_types "MySQL" 3306%Z) as (_ & Hmaria & _).
  destruct (factory_supported_types "Postgres" 5432%Z) as (_ & _ & _ & Hreserved & _).
  split; [apply Hmaria; right; left; reflexivity|].
  apply Hreserved. left. reflexivity.
Defined.

(** * The MariaDB adapter on its pool *)

Section PoolCalls.
Context {D : Type}.
Variable p : MariaDB.Pool D.

(** The loop over the rows on the recording pool: what it does to the
    database is what it does on [p], and the calls it adds are the
    statements of the first [k] rows, all accepted but the last when the
    loop throws. *)
Lemma forEachRow_recorded statement data d log :
  exists k calls,
    MariaDB.forEachRow (MariaDB.recorded p) statement data (d, log)
    = (fst (MariaDB.forEachRow p statement data d),
       (snd (MariaDB.forEachRow p statement data d), log ++ calls))
    /\ MariaDB.statements calls = take k (map statement data)
    /\ (forall rest, MariaDB.sessions true (calls ++ rest) = MariaDB.sessions true rest)
    /\ MariaDB.acquisitions calls = 0%nat
    /\ (k <= length data)%nat
    /\ (returned (fst (MariaDB.forEachRow p statement data d)) = true ->
        k = length data /\ MariaDB.accepted calls = repeat true k)
    /\ (returned (fst (MariaDB.forEachRow p statement data d)) = false ->
        (1 <= k)%nat /\ MariaDB.accepted calls = repeat true (k - 1) ++ [false]).
Proof.
  revert d log. induction data as [|row rest IH]; intros d log.
  - exists 0%nat, []. cbn. rewrite app_nil_r. repeat split; auto; discriminate.
  - cbn [MariaDB.forEachRow MariaDB.recorded MariaDB.connQuery fst snd].
    destruct (MariaDB.connQuery p (fst (statement row)) (snd (statement row)) d)
      as [[rows|e] d1] eqn:Hq.
    + destruct (IH d1 (log ++ [MariaDB.CQuery (fst (statement row)) (snd (statement row))
                                 (Returned rows)]))
        as (k & calls & Hrun & Hst & Hse & Hacq & Hk & Hret & Hthr).
      exists (S k), (MariaDB.CQuery (fst (statement row)) (snd (statement row))
                       (Returned rows) :: calls).
      rewrite Hrun, <- app_assoc. cbn [app].
      split; [reflexivity|].
      split; [unfold MariaDB.statements in *; cbn; rewrite Hst; now destruct (statement row)|].
      split; [intros rest'; cbn; apply Hse|].
      split; [exact Hacq|].
      split; [cbn; lia|].
      split.
      * intros H. destruct (Hret H) as [-> Hacc]. split; [reflexivity|].
        unfold MariaDB.accepted in *. cbn. now rewrite Hacc.
      * intros H. destruct (Hthr H) as [Hk1 Hacc]. split; [lia|].
        replace (S k - 1)%nat with (S (k - 1)) by lia.
        unfold MariaDB.accepted in *. cbn. now rewrite Hacc.
    + exists 1%nat, [MariaDB.CQuery (fst (statement row)) (snd (statement row)) (Thrown e)].
      split; [reflexivity|].
      split; [cbn; now destruct (statement row)|].
      split; [reflexivity|].
      split; [reflexivity|].
      split; [cbn; lia|].
      split; [discriminate|].
      intros _. split; [lia|reflexivity].
Qed.


(** A connection obtained, a body that only sends statements, the
    release. *)
Lemma session_recorded {A} (body plain : op _ A) s :
  (forall d log, exists calls,
      body (d, log) = (fst (plain d), (snd (plain d), log ++ calls))
      /\ (forall rest, MariaDB.sessions true (calls ++ rest) = MariaDB.sessions true rest)
      /\ MariaDB.acquisitions calls = 0%nat) ->
  let run :=
    match MariaDB.getConnection (MariaDB.recorded p) s with
    | (Returned _, s1) => MariaDB.releasing (MariaDB.recorded p) body s1
    | (Thrown e, s1) => (Thrown e, s1)
    end in
  let run' :=
    match MariaDB.getConnection p (fst s) with
    | (Returned _, d1) => MariaDB.releasing p plain d1
    | (Thrown e, d1) => (Thrown e, d1)
    end in
  exists calls,
    run = (fst run', (snd run', snd s ++ calls))
    /\ MariaDB.sessions false calls = true
    /\ MariaDB.acquisitions calls = 1%nat.
Proof.
  intros Hbody run run'. subst run run'. destruct s as [d log].
  cbn [MariaDB.recorded MariaDB.getConnection fst snd].
  destruct (MariaDB.getConnection p d) as [[[]|e] d1] eqn:Hget.
  - unfold MariaDB.releasing.
    destruct (Hbody d1 (log ++ [MariaDB.CGetConnection (Returned ())]))
      as (calls & -> & Hse & Hacq).
    cbn [MariaDB.recorded MariaDB.release fst snd].
    destruct (plain d1) as [o d2]. cbn [fst snd].
    destruct (MariaDB.release p d2) as [[[]|e] d3] eqn:Hrel.
    + exists (MariaDB.CGetConnection (Returned ()) :: calls ++ [MariaDB.CRelease (Returned ())]).
      split; [now rewrite <- !app_assoc|].
      split; [cbn; now rewrite Hse|].
      unfold MariaDB.acquisitions in *. cbn. rewrite List.filter_app, length_app, Hacq.
      reflexivity.
    + exists (MariaDB.CGetConnection (Returned ()) :: calls ++ [MariaDB.CRelease (Thrown e)]).
      split; [now rewrite <- !app_assoc|].
      split; [cbn; now rewrite Hse|].
      unfold MariaDB.acquisitions in *. cbn. rewrite List.filter_app, length_app, Hacq.
      reflexivity.
  - exists [MariaDB.CGetConnection (Thrown e)]. now repeat split.
Qed.

End PoolCalls.

Section Sessions.
Context {D : Type}.
Variable keys : Row -> list string.
Variable p : MariaDB.Pool D.

Lemma query_recorded text params s :
  exists calls,
    MariaDB.query (Some (MariaDB.recorded p)) text params s
    = (fst (MariaDB.query (Some p) text params (fst s)),
       (snd (MariaDB.query (Some p) text params (fst s)), snd s ++ calls))
    /\ MariaDB.sessions false calls = true
    /\ MariaDB.acquisitions calls = 1%nat.
Proof.
  unfold MariaDB.query.
  apply (session_recorded p (MariaDB.connQuery (MariaDB.recorded p) text params)
           (MariaDB.connQuery p text params)).
  intros d log. cbn [MariaDB.recorded MariaDB.connQuery fst snd].
  destruct (MariaDB.connQuery p text params d) as [o d1].
  exists [MariaDB.CQuery text params o]. now repeat split.
Qed.

Lemma rows_recorded statement data s :
  exists calls,
    match MariaDB.getConnection (MariaDB.recorded p) s with
    | (Returned _, s1) =>
        MariaDB.releasing (MariaDB.recorded p)
          (MariaDB.forEachRow (MariaDB.recorded p) statement data) s1
    | (Thrown e, s1) => (Thrown e, s1)
    end
    = (fst match MariaDB.getConnection p (fst s) with
           | (Returned _, d1) =>
               MariaDB.releasing p (MariaDB.forEachRow p statement data) d1
           | (Thrown e, d1) => (Thrown e, d1)
           end,
       (snd match MariaDB.getConnection p (fst s) with
            | (Returned _, d1) =>
                MariaDB.releasing p (MariaDB.forEachRow p statement data) d1
            | (Thrown e, d1) => (Thrown e, d1)
            end, snd s ++ calls))
    /\ MariaDB.sessions false calls = true
    /\ MariaDB.acquisitions calls = 1%nat.
Proof.
  apply (session_recorded p (MariaDB.forEachRow (MariaDB.recorded p) statement data)
           (MariaDB.forEachRow p statement data)).
  intros d log.
  destruct (forEachRow_recorded p statement data d log)
    as (k & calls & Hrun & _ & Hse & Hacq & _).
  exists calls. auto.
Qed.

Lemma batchInsert_recorded tableName data s :
  exists calls,
    MariaDB.batchInsert keys (Some (MariaDB.recorded p)) tableName data s
    = (fst (MariaDB.batchInsert keys (Some p) tableName data (fst s)),
       (snd (MariaDB.batchInsert keys (Some p) tableName data (fst s)), snd s ++ calls))
    /\ MariaDB.sessions false calls = true
    /\ (MariaDB.acquisitions calls <= 1)%nat.
Proof.
  unfold MariaDB.batchInsert. destruct data as [|first rest].
  - exists []. rewrite app_nil_r. destruct s. repeat split. cbn. lia.
  - destruct (rows_recorded (MariaDB.insertStatement tableName (keys first))
                (first :: rest) s) as (calls & Hrun & Hse & Hacq).
    exists calls. rewrite Hrun, Hacq. auto.
Qed.

Lemma batchUpdate_recorded tableName data keyColumn s :
  exists calls,
    MariaDB.batchUpdate keys (Some (MariaDB.recorded p)) tableName data keyColumn s
    = (fst (MariaDB.batchUpdate keys (Some p) tableName data keyColumn (fst s)),
       (snd (MariaDB.batchUpdate keys (Some p) tableName data keyColumn (fst s)),
        snd s ++ calls))
    /\ MariaDB.sessions false calls = true
    /\ (MariaDB.acquisitions calls <= 1)%nat.
Proof.
  unfold MariaDB.batchUpdate. destruct data as [|first rest].
  - exists []. rewrite app_nil_r. destruct s. repeat split. cbn. lia.
  - destruct (rows_recorded (MariaDB.updateStatement keys tableName keyColumn)
                (first :: rest) s) as (calls & Hrun & Hse & Hacq).
    exists calls. rewrite Hrun, Hacq. auto.
Qed.

(** The loop between a connection obtained and its release: the calls in
    full. *)
Lemma rows_statements statement data d log d1 :
  data <> [] ->
  MariaDB.getConnection p d = (Returned tt, d1) ->
  exists k calls b r,
    match MariaDB.getConnection (MariaDB.recorded p) (d, log) with
    | (Returned _, s1) =>
        MariaDB.releasing (MariaDB.recorded p)
          (MariaDB.forEachRow (MariaDB.recorded p) statement data) s1
    | (Thrown e, s1) => (Thrown e, s1)
    end
    = (match r with
       | Returned _ => fst (MariaDB.forEachRow p statement data d1)
       | Thrown e => Thrown e
       end,
       (snd (MariaDB.release p (snd (MariaDB.forEachRow p statement data d1))),
        log ++ MariaDB.CGetConnection (Returned tt) :: calls ++ [MariaDB.CRelease r]))
    /\ MariaDB.statements calls = take k (map statement data)
    /\ (1 <= k <= length data)%nat
    /\ MariaDB.accepted calls = repeat true (k - 1) ++ [b]
    /\ b = returned (fst (MariaDB.forEachRow p statement data d1))
    /\ (b = true -> k = length data).
Proof.
  intros Hdata Hget.
  cbn [MariaDB.recorded MariaDB.getConnection fst snd]. rewrite Hget.
  unfold MariaDB.releasing.
  destruct (forEachRow_recorded p statement data d1
              (log ++ [MariaDB.CGetConnection (Returned ())]))
    as (k & calls & Hrun & Hst & _ & _ & Hk & Hret & Hthr).
  rewrite Hrun. cbn [MariaDB.recorded MariaDB.release fst snd].
  destruct (MariaDB.forEachRow p statement data d1) as [o d2]. cbn [fst snd] in *.
  destruct (MariaDB.release p d2) as [r d3] eqn:Hrel.
  exists k, calls, (returned o), r.
  split.
  { rewrite <- !app_assoc. cbn [app]. now destruct r as [[]|e]. }
  split; [exact Hst|].
  destruct o as [u|e]; cbn [returned] in *.
  - destruct (Hret eq_refl) as [-> Hacc].
    assert (0 < length data)%nat by (destruct data; [congruence|cbn; lia]).
    split; [lia|]. split; [|auto].
    rewrite Hacc.
    replace (length data) with (length data - 1 + 1)%nat at 1 by lia.
    now rewrite repeat_app.
  - destruct (Hthr eq_refl) as [Hk1 Hacc].
    split; [lia|]. split; [exact Hacc|]. split; [reflexivity|discriminate].
Qed.

(** What the statements lemma gives for a batch call [run] that is the
    loop over [data] with [statement]. *)
Lemma batch_statements statement data d log d1 run :
  data <> [] ->
  MariaDB.getConnection p d = (Returned tt, d1) ->
  run = match MariaDB.getConnection (MariaDB.recorded p) (d, log) with
        | (Returned _, s1) =>
            MariaDB.releasing (MariaDB.recorded p)
              (MariaDB.forEachRow (MariaDB.recorded p) statement data) s1
        | (Thrown e, s1) => (Thrown e, s1)
        end ->
  exists k calls b r,
    snd (snd run)
    = log ++ MariaDB.CGetConnection (Returned tt) :: calls ++ [MariaDB.CRelease r]
    /\ MariaDB.statements calls = take k (map statement data)
    /\ (1 <= k <= length data)%nat
    /\ MariaDB.accepted calls = repeat true (k - 1) ++ [b]
    /\ ((k < length data)%nat -> b = false)
    /\ returned (fst run) = b && returned r.
Proof.
  intros Hdata Hget ->.
  destruct (rows_statements statement data d log d1 Hdata Hget)
    as (k & calls & b & r & Heq & Hst & Hk & Hacc & Hb & Hfull).
  rewrite Heq. cbn [fst snd].
  exists k, calls, b, r.
  split; [reflexivity|]. split; [exact Hst|]. split; [exact Hk|]. split; [exact Hacc|].
  split.
  { intros Hlt. destruct b; [|reflexivity]. specialize (Hfull eq_refl). lia. }
  rewrite Hb.
  destruct r as [[]|e]; cbn [returned]; [now rewrite andb_true_r|now rewrite andb_false_r].
Qed.

End Sessions.

(** X11.  Whatever the pool and the statements do, [query], [batchInsert]
    and [batchUpdate] leave no connection out: in the calls each of them
    adds, every statement is on a connection that was obtained, and a
    connection that was obtained is released after the last statement,
    also when a statement throws; a call asks for one connection at
    most.  Recording the calls changes nothing of what the calls do to
    the database.  Without a pool, [query] throws the "not connected"
    error, while the batch calls return on empty data and throw a
    [TypeError] on any other. *)
Theorem connection_released {D} (keys : Row -> list string) (p : MariaDB.Pool D)
    text params tableName keyColumn data s :
  let pool := Some (MariaDB.recorded p) in
  (forall run,
      In run [snd (MariaDB.query pool text params s);
              snd (MariaDB.batchInsert keys pool tableName data s);
              snd (MariaDB.batchUpdate keys pool tableName data keyColumn s)] ->
      exists calls,
        snd run = snd s ++ calls
        /\ MariaDB.sessions false calls = true
        /\ (MariaDB.acquisitions calls <= 1)%nat)
  /\ (fst (snd (MariaDB.query pool text params s)),
      fst (snd (MariaDB.batchInsert keys pool tableName data s)),
      fst (snd (MariaDB.batchUpdate keys pool tableName data keyColumn s)))
     = (snd (MariaDB.query (Some p) text params (fst s)),
        snd (MariaDB.batchInsert keys (Some p) tableName data (fst s)),
        snd (MariaDB.batchUpdate keys (Some p) tableName data keyColumn (fst s)))
  /\ MariaDB.query None text params s = (Thrown MariaDB.notConnected, s)
  /\ MariaDB.batchInsert keys None tableName [] s = (Returned tt, s)
  /\ MariaDB.batchUpdate keys None tableName [] keyColumn s = (Returned tt, s)
  /\ (data <> [] ->
      MariaDB.batchInsert keys None tableName data s = (Thrown MariaDB.noPool, s)
      /\ MariaDB.batchUpdate keys None tableName data keyColumn s
         = (Thrown MariaDB.noPool, s)).
Proof.
  intros pool. subst pool.
  destruct (query_recorded p text params s) as (callsQ & HQ & HsQ & HaQ).
  destruct (batchInsert_recorded keys p tableName data s) as (callsI & HI & HsI & HaI).
  destruct (batchUpdate_recorded keys p tableName data keyColumn s)
    as (callsU & HU & HsU & HaU).
  split.
  { intros run [<-|[<-|[<-|[]]]].
    - exists callsQ. rewrite HQ, HaQ. auto.
    - exists callsI. rewrite HI. auto.
    - exists callsU. rewrite HU. auto. }
  split; [rewrite HI, HU, HQ; reflexivity|].
  repeat split; destruct data; try congruence; reflexivity.
Qed.

(** A batch whose second row is rejected on the in-memory pool, and the
    same batch with no pool. *)
Lemma connection_released_witness :
  (exists calls,
      snd (snd (MariaDB.batchInsert MemPool.keys (Some (MariaDB.recorded MemPool.pool))
                  "test_syncing" MemPool.sample ([], [])))
      = [] ++ calls
      /\ MariaDB.sessions false calls = true
      /\ (MariaDB.acquisitions calls <= 1)%nat)
  /\ MariaDB.batchInsert MemPool.keys None "test_syncing" MemPool.sample
       (([], []) : MemPool.Table * list MariaDB.DriverCall)
     = (Thrown MariaDB.noPool, ([], [])).
Proof.
  destruct (connection_released MemPool.keys MemPool.pool "" [] "test_syncing" "id"
              MemPool.sample ([], []))
    as (Hcalls & _ & _ & _ & _ & Hnone).
  split.
  - apply Hcalls. right. left. reflexivity.
  - apply Hnone. discriminate.
Defined.

(** X12.  [batchInsert] is no transaction.  Once the connection is there,
    it sends one INSERT for each row in turn, every one with the text and
    the columns of the first row, and stops at the first that the driver
    rejects: the calls are the connection, the statements of the first
    [k] rows, all accepted but possibly the last, and the release, with
    nothing that would undo the accepted ones.  It returns only when
    every row was sent and accepted and the release returned. *)
Theorem batchInsert_not_atomic {D} (keys : Row -> list string) (p : MariaDB.Pool D)
    tableName first rest d log d1 :
  let data := first :: rest in
  let run := MariaDB.batchInsert keys (Some (MariaDB.recorded p)) tableName data (d, log) in
  MariaDB.getConnection p d = (Returned tt, d1) ->
  exists k calls b r,
    snd (snd run)
    = log ++ MariaDB.CGetConnection (Returned tt) :: calls ++ [MariaDB.CRelease r]
    /\ MariaDB.statements calls
       = take k (map (MariaDB.insertStatement tableName (keys first)) data)
    /\ (1 <= k <= length data)%nat
    /\ MariaDB.accepted calls = repeat true (k - 1) ++ [b]
    /\ ((k < length data)%nat -> b = false)
    /\ returned (fst run) = b && returned r.
Proof.
  intros data run Hget.
  apply (batch_statements p _ data d log d1 run ltac:(discriminate) Hget).
  reflexivity.
Qed.

Lemma batchInsert_not_atomic_witness :
  exists k calls b r,
    snd (snd (MariaDB.batchInsert MemPool.keys (Some (MariaDB.recorded MemPool.pool))
                "test_syncing" MemPool.sample ([], [])))
    = [] ++ MariaDB.CGetConnection (Returned tt) :: calls ++ [MariaDB.CRelease r]
    /\ MariaDB.statements calls
       = take k (map (MariaDB.insertStatement "test_syncing"
                        (MemPool.keys (Mem.person 1 (VString "a") 10)))
                   MemPool.sample)
    /\ (1 <= k <= length MemPool.sample)%nat
    /\ MariaDB.accepted calls = repeat true (k - 1) ++ [b]
    /\ ((k < length MemPool.sample)%nat -> b = false)
    /\ returned (fst (MariaDB.batchInsert MemPool.keys
                        (Some (MariaDB.recorded MemPool.pool))
                        "test_syncing" MemPool.sample ([], [])))
       = b && returned r.
Proof.
  apply (batchInsert_not_atomic MemPool.keys MemPool.pool "test_syncing"
           (Mem.person 1 (VString "a") 10)
           [Mem.person 2 VNull 20; Mem.person 3 (VString "c") 30] [] [] []).
  reflexivity.
Defined.

(** X13.  [batchUpdate] is no transaction either: one UPDATE for each row
    in turn, built from the row's own columns without the key column, the
    key value last, up to the first that the driver rejects. *)
Theorem batchUpdate_not_atomic {D} (keys : Row -> list string) (p : MariaDB.Pool D)
    tableName keyColumn first rest d log d1 :
  let data := first :: rest in
  let run :=
    MariaDB.batchUpdate keys (Some (MariaDB.recorded p)) tableName data keyColumn (d, log) in
  MariaDB.getConnection p d = (Returned tt, d1) ->
  exists k calls b r,
    snd (snd run)
    = log ++ MariaDB.CGetConnection (Returned tt) :: calls ++ [MariaDB.CRelease r]
    /\ MariaDB.statements calls
       = take k (map (MariaDB.updateStatement keys tableName keyColumn) data)
    /\ (1 <= k <= length data)%nat
    /\ MariaDB.accepted calls = repeat true (k - 1) ++ [b]
    /\ ((k < length data)%nat -> b = false)
    /\ returned (fst run) = b && returned r.
Proof.
  intros data run Hget.
  apply (batch_statements p _ data d log d1 run ltac:(discriminate) Hget).
  reflexivity.
Qed.

Lemma batchUpdate_not_atomic_witness :
  exists k calls b r,
    snd (snd (MariaDB.batchUpdate MemPool.keys (Some (MariaDB.recorded MemPool.pool))
                "test_syncing" MemPool.sample "id" ([], [])))
    = [] ++ MariaDB.CGetConnection (Returned tt) :: calls ++ [MariaDB.CRelease r]
    /\ MariaDB.statements calls
       = take k (map (MariaDB.updateStatement MemPool.keys "test_syncing" "id")
                   MemPool.sample)
    /\ (1 <= k <= length MemPool.sample)%nat
    /\ MariaDB.accepted calls = repeat true (k - 1) ++ [b]
    /\ ((k < length MemPool.sample)%nat -> b = false)
    /\ returned (fst (MariaDB.batchUpdate MemPool.keys
                        (Some (MariaDB.recorded MemPool.pool))
                        "test_syncing" MemPool.sample "id" ([], [])))
       = b && returned r.
Proof.
  apply (batchUpdate_not_atomic MemPool.keys MemPool.pool "test_syncing" "id"
           (Mem.person 1 (VString "a") 10)
           [Mem.person 2 VNull 20; Mem.person 3 (VString "c") 30] [] [] []).
  reflexivity.
Defined.

(** * The job on the MariaDB adapter *)

Section FallbackResends.
Context {D : Type}.
Variable keys : Row -> list string.
Variable p : MariaDB.Pool D.
Variable this : SyncJob (D * list MariaDB.DriverCall).

Hypothesis target_batchInsert :
  batchInsert (targetAdapter this) = MariaDB.batchInsert keys (Some (MariaDB.recorded p)).
Hypothesis target_batchUpdate :
  batchUpdate (targetAdapter this) = MariaDB.batchUpdate keys (Some (MariaDB.recorded p)).
Hypothesis connects : forall d, returned (fst (MariaDB.getConnection p d)) = true.

Let ownStatement (row : Row) : string * list value :=
  MariaDB.insertStatement (targetTableName this) (keys row) row.

Lemma statements_app calls1 calls2 :
  MariaDB.statements (calls1 ++ calls2)
  = MariaDB.statements calls1 ++ MariaDB.statements calls2.
Proof. unfold MariaDB.statements. apply omap_app. Qed.

Lemma connects_eq d : exists d1, MariaDB.getConnection p d = (Returned tt, d1).
Proof.
  specialize (connects d). destruct (MariaDB.getConnection p d) as [[[]|e] d1]; [|discriminate].
  now exists d1.
Qed.

(** The single-row calls of the fallback: one INSERT each, with the row's
    own columns. *)
Lemma insertAlone_statements rows : forall s,
  exists calls,
    snd (snd (oneByOne (insertAlone this) rows s)) = snd s ++ calls
    /\ MariaDB.statements calls = map ownStatement rows.
Proof.
  induction rows as [|row rest IH]; intros [d log].
  - exists []. cbn. now rewrite app_nil_r.
  - cbn [oneByOne]. unfold insertAlone at 1. rewrite target_batchInsert.
    destruct (connects_eq d) as [d1 Hget].
    destruct (batch_statements p
                (MariaDB.insertStatement (targetTableName this) (keys row)) [row] d log d1
                (MariaDB.batchInsert keys (Some (MariaDB.recorded p)) (targetTableName this)
                   [row] (d, log)) ltac:(discriminate) Hget eq_refl)
      as (k & calls & b & r & Hlog & Hst & Hk & _).
    destruct (MariaDB.batchInsert keys (Some (MariaDB.recorded p)) (targetTableName this)
                [row] (d, log)) as [reply s1].
    cbn [snd] in Hlog.
    destruct (IH s1) as (calls' & Hlog' & Hst').
    destruct (oneByOne (insertAlone this) rest s1) as [replies s2].
    cbn [snd fst] in *.
    exists ((MariaDB.CGetConnection (Returned tt) :: calls ++ [MariaDB.CRelease r]) ++ calls').
    split; [rewrite Hlog', Hlog; now rewrite <- !app_assoc|].
    rewrite statements_app, Hst'.
    change (MariaDB.CGetConnection (Returned tt) :: calls ++ [MariaDB.CRelease r])
      with ([MariaDB.CGetConnection (Returned tt)] ++ calls ++ [MariaDB.CRelease r]).
    rewrite !statements_app, Hst. cbn in Hk.
    replace k with 1%nat by lia. reflexivity.
Qed.


Lemma updateAlone_extends rows : forall s,
  exists calls, snd (snd (oneByOne (updateAlone this) rows s)) = snd s ++ calls.
Proof.
  induction rows as [|row rest IH]; intros s.
  - exists []. cbn. now rewrite app_nil_r.
  - cbn [oneByOne]. unfold updateAlone at 1. rewrite target_batchUpdate.
    destruct (batchUpdate_recorded keys p (targetTableName this) [row] (keyColumn this) s)
      as (calls & -> & _).
    match goal with |- context [oneByOne _ rest ?s1] => destruct (IH s1) as (calls' & Hlog') end.
    cbn [snd] in Hlog'.
    destruct (oneByOne (updateAlone this) rest _) as [replies s2].
    cbn [snd] in *. exists (calls ++ calls'). now rewrite Hlog', app_assoc.
Qed.

Lemma updatesOn_extends toUpdate s :
  exists calls, snd (snd (fst (updatesOn this toUpdate s))) = snd s ++ calls.
Proof.
  unfold updatesOn. destruct toUpdate as [|row rest].
  - exists []. cbn. now rewrite app_nil_r.
  - rewrite target_batchUpdate.
    destruct (batchUpdate_recorded keys p (targetTableName this) (row :: rest)
                (keyColumn this) s) as (calls & -> & _).
    destruct (fst (MariaDB.batchUpdate keys (Some p) (targetTableName this) (row :: rest)
                     (keyColumn this) (fst s))) as [u|e].
    + exists calls. reflexivity.
    + match goal with
      | |- context [oneByOne _ _ ?s1] =>
          destruct (updateAlone_extends (row :: rest) s1) as (calls' & Hlog')
      end.
      cbn [snd] in Hlog'.
      destruct (oneByOne (updateAlone this) (row :: rest) _) as [replies s2].
      cbn [snd fst] in *. exists (calls ++ calls'). now rewrite Hlog', app_assoc.
Qed.

(** X14.  The job on the MariaDB adapter.  When the batch INSERT of a
    chunk throws, the row-by-row fallback starts from what the batch
    left: the driver gets the statements of the first [k] rows from the
    batch call and then one INSERT for every row of the chunk again, the
    rows the batch had already inserted among them. *)
Theorem fallback_resends batch w checks s1 first rest :
  let toInsert := first :: rest in
  let table := targetTableName this in
  existenceChecks this batch (db w) = (checks, s1) ->
  answered false checks = toInsert ->
  returned (fst (batchInsert (targetAdapter this) table toInsert s1)) = false ->
  exists k calls later,
    snd (db (snd (fst (processBatch this batch w)))) = snd s1 ++ calls
    /\ MariaDB.statements calls
       = take k (map (MariaDB.insertStatement table (keys first)) toInsert)
         ++ map (fun row => MariaDB.insertStatement table (keys row) row) toInsert
         ++ later
    /\ (1 <= k <= length toInsert)%nat
    /\ (exists results,
          fst (fst (processBatch this batch w)) = Returned results
          /\ (inserted results <= length toInsert)%nat).
Proof.
  intros toInsert table Hchecks Hnew Hthrown.
  rewrite processBatch_run. unfold batchOn. rewrite Hchecks, Hnew.
  unfold insertsOn. subst toInsert. cbv iota.
  fold table. revert Hthrown. rewrite target_batchInsert.
  destruct s1 as [d log].
  destruct (connects_eq d) as [d1 Hget].
  destruct (batch_statements p (MariaDB.insertStatement table (keys first)) (first :: rest)
              d log d1
              (MariaDB.batchInsert keys (Some (MariaDB.recorded p)) table (first :: rest)
                 (d, log))
              ltac:(discriminate) Hget eq_refl)
    as (k & calls & b & r & Hlog & Hst & Hk & _).
  destruct (MariaDB.batchInsert keys (Some (MariaDB.recorded p)) table (first :: rest)
              (d, log))
    as [[u|e] s2]; [discriminate|]. intros _.
  cbn [snd] in Hlog.
  destruct (insertAlone_statements (first :: rest) s2) as (calls2 & Hlog2 & Hst2).
  pose proof (oneByOne_length (insertAlone this) (first :: rest) s2) as Hlen.
  destruct (oneByOne (insertAlone this) (first :: rest) s2) as [replies s3].
  cbn [snd fst] in *.
  destruct (updatesOn_extends (answered true checks) s3) as (calls3 & Hlog3).
  destruct (updatesOn this (answered true checks) s3) as [[n3 s4] calls4].
  cbn [snd fst db] in *.
  exists k, ((MariaDB.CGetConnection (Returned tt) :: calls ++ [MariaDB.CRelease r])
             ++ calls2 ++ calls3), (MariaDB.statements calls3).
  split; [rewrite Hlog3, Hlog2, Hlog; now rewrite <- !app_assoc|].
  split.
  { change (MariaDB.CGetConnection (Returned tt) :: calls ++ [MariaDB.CRelease r])
      with ([MariaDB.CGetConnection (Returned tt)] ++ calls ++ [MariaDB.CRelease r]).
    rewrite !statements_app, Hst, Hst2. cbn. now rewrite app_nil_r. }
  split; [exact Hk|].
  eexists. split; [reflexivity|]. cbn [inserted].
  unfold successes. rewrite <- Hlen. apply List.filter_length_le.
Qed.

End FallbackResends.

(** On the in-memory pool the second of three new rows is rejected: the
    first row ends up in the table twice, and two rows are counted. *)
Lemma fallback_resends_witness :
  (exists k calls later,
      snd (db (snd (fst (processBatch MemPool.job MemPool.sample MemPool.world))))
      = [] ++ calls
      /\ MariaDB.statements calls
         = take k (map (MariaDB.insertStatement "test_syncing"
                          (MemPool.keys (Mem.person 1 (VString "a") 10)))
                     MemPool.sample)
           ++ map (fun row => MariaDB.insertStatement "test_syncing" (MemPool.keys row) row)
                MemPool.sample
           ++ later
      /\ (1 <= k <= 3)%nat
      /\ (exists results,
            fst (fst (processBatch MemPool.job MemPool.sample MemPool.world))
            = Returned results
            /\ (inserted results <= 3)%nat))
  /\ fst (db (snd (fst (processBatch MemPool.job MemPool.sample MemPool.world))))
     = [map (get (Mem.person 1 (VString "a") 10))
          (MemPool.keys (Mem.person 1 (VString "a") 10));
        map (get (Mem.person 1 (VString "a") 10))
          (MemPool.keys (Mem.person 1 (VString "a") 10));
        map (get (Mem.person 3 (VString "c") 30))
          (MemPool.keys (Mem.person 3 (VString "c") 30))]
  /\ fst (fst (processBatch MemPool.job MemPool.sample MemPool.world))
     = Returned {| processed := 2; inserted := 2; updated := 0 |}.
Proof.
  split.
  - apply (fallback_resends MemPool.keys MemPool.pool MemPool.job eq_refl eq_refl
             (fun _ => eq_refl) MemPool.sample MemPool.world
             (map (fun row => (row, Returned false)) MemPool.sample) ([], [])
             (Mem.person 1 (VString "a") 10)
             [Mem.person 2 VNull 20; Mem.person 3 (VString "c") 30]).
    + vm_compute. reflexivity.
    + vm_compute. reflexivity.
    + vm_compute. reflexivity.
  - split; vm_compute; reflexivity.
Defined.

(** ** Placeholders and values *)

Lemma placeholders_append a b :
  placeholders (a ++ b)%string = (placeholders a + placeholders b)%nat.
Proof.
  induction a as [|c a IH]; [reflexivity|].
  change (placeholders (String c (a ++ b)%string)
          = (placeholders (String c a) + placeholders b)%nat).
  cbn [placeholders]. rewrite IH. lia.
Qed.

Lemma placeholders_join parts :
  placeholders (join ", " parts) = list_sum (map placeholders parts).
Proof.
  induction parts as [|part rest IH]; [reflexivity|].
  destruct rest as [|part' rest].
  - cbn. lia.
  - change (join ", " (part :: part' :: rest))
      with (part ++ ", " ++ join ", " (part' :: rest))%string.
    rewrite !placeholders_append, IH. cbn. lia.
Qed.

Lemma list_sum_const {A} (f : A -> nat) n (l : list A) :
  (forall a, In a l -> f a = n) -> list_sum (map f l) = (n * length l)%nat.
Proof.
  induction l as [|a l IH]; intros H; [cbn; lia|].
  change (list_sum (map f (a :: l))) with (f a + list_sum (map f l))%nat.
  cbn [length]. rewrite IH, (H a).
  - lia.
  - now left.
  - intros a' Ha. apply H. now right.
Qed.

(** X15.  When neither the table name nor a column name holds a question
    mark, every statement [batchInsert] and [batchUpdate] send has as
    many placeholders in its text as values beside it: the columns of
    the first row for an INSERT, whatever columns the row itself has; for
    an UPDATE the row's own columns without the key, and one more for
    the key. *)
Theorem placeholders_match_values (keys : Row -> list string)
    tableName keyColumn columns row :
  placeholders tableName = 0%nat ->
  placeholders keyColumn = 0%nat ->
  (forall col, In col columns -> placeholders col = 0%nat) ->
  (forall col, In col (keys row) -> placeholders col = 0%nat) ->
  placeholders (fst (MariaDB.insertStatement tableName columns row))
  = length (snd (MariaDB.insertStatement tableName columns row))
  /\ placeholders (fst (MariaDB.updateStatement keys tableName keyColumn row))
     = length (snd (MariaDB.updateStatement keys tableName keyColumn row)).
Proof.
  intros Htable Hkey Hcolumns Hown.
  split.
  - unfold MariaDB.insertStatement, MariaDB.insertText. cbn [fst snd].
    rewrite !placeholders_append, !placeholders_join, Htable, !map_map, length_map.
    rewrite (list_sum_const _ 0 columns), (list_sum_const _ 1 columns).
    + cbn. lia.
    + reflexivity.
    + intros col Hin. unfold MariaDB.backtick.
      rewrite !placeholders_append, (Hcolumns col Hin). reflexivity.
  - unfold MariaDB.updateStatement, MariaDB.updateText. cbn [fst snd].
    rewrite !placeholders_append, !placeholders_join, Htable, Hkey, !map_map,
      length_app, length_map.
    rewrite (list_sum_const _ 1).
    + replace (placeholders newline) with 0%nat by reflexivity. cbn. lia.
    + intros col Hin. apply List.filter_In in Hin as [Hin _].
      rewrite !placeholders_append, (Hown col Hin). reflexivity.
Qed.

Lemma placeholders_match_values_witness :
  let row := Mem.person 1 (VString "a") 10 in
  placeholders (fst (MariaDB.insertStatement "test_syncing" (MemPool.keys row) row))
  = length (snd (MariaDB.insertStatement "test_syncing" (MemPool.keys row) row))
  /\ placeholders (fst (MariaDB.updateStatement MemPool.keys "test_syncing" "id" row))
     = length (snd (MariaDB.updateStatement MemPool.keys "test_syncing" "id" row)).
Proof.
  intros row.
  assert (Hkeys : MemPool.keys row = ["id"; "name"; "updated_at"])
    by (vm_compute; reflexivity).
  assert (Hcolumns : forall col, In col (MemPool.keys row) -> placeholders col = 0%nat).
  { rewrite Hkeys. intros col [<-|[<-|[<-|[]]]]; reflexivity. }
  exact (placeholders_match_values MemPool.keys "test_syncing" "id" (MemPool.keys row) row
           eq_refl eq_refl Hcolumns Hcolumns).
Defined.

(** * The table analyzer *)

Lemma lowerAscii_idempotent c : lowerAscii (lowerAscii c) = lowerAscii c.
Proof.
  destruct c as [[] [] [] [] [] [] [] []]; vm_compute; reflexivity.
Qed.

Lemma toLowerCase_idempotent s : toLowerCase (toLowerCase s) = toLowerCase s.
Proof.
  induction s as [|c s IH]; [reflexivity|].
  cbn [toLowerCase]. now rewrite lowerAscii_idempotent, IH.
Qed.

Lemma append_assoc (a b c : string) : ((a ++ b) ++ c = a ++ (b ++ c))%string.
Proof.
  induction a as [|ch a IH]; [reflexivity|].
  change (String ch ((a ++ b) ++ c) = String ch (a ++ (b ++ c)))%string.
  now rewrite IH.
Qed.


Lemma createAdapter_cases {C} (type : string) (config : C) created :
  AdapterFactory.createAdapter type config = Returned created ->
  (created = AdapterFactory.NewMSSQLAdapter config /\ toLowerCase type = "mssql")
  \/ (created = AdapterFactory.NewMariaDBAdapter config
      /\ In (toLowerCase type) ["mariadb"; "mysql"; "gcp_mariadb"; "client_mariadb"]).
Proof.
  unfold AdapterFactory.createAdapter.
  remember (toLowerCase type) as lowered eqn:Hlowered. clear Hlowered.
  split_type_cases; intros H; try discriminate; injection H as <-; cbn; tauto.
Qed.

(** X16.  The type of a database reaches the factory and the analyzer in
    lower case, as [buildDbConfig] leaves it, and the two do not read it
    alike.  Of the four types the factory builds the MariaDB adapter
    for, the analyzer reads the information schema for [mariadb] and
    [mysql] only: [gcp_mariadb] and [client_mariadb] get the generic
    analysis.  For [mssql] the analyzer runs the MSSQL analysis, and
    [generateOptimizedQueries] puts the names of its queries between two
    opening brackets, as in [getLastUpdate], where the templates close
    the bracket. *)
Theorem analysis_by_type {C} (envType : string) (config : C) (tableInfo : TableAnalyzer.TableInfo) :
  let type := toLowerCase envType in
  let queries := TableAnalyzer.generateOptimizedQueries (Some type) tableInfo in
  let table := TableAnalyzer.tableName tableInfo in
  (AdapterFactory.createAdapter type config
   = Returned (AdapterFactory.NewMariaDBAdapter config) ->
   (TableAnalyzer.analysis (Some type) = TableAnalyzer.AnalyzeMariaDBTable
    <-> In type ["mariadb"; "mysql"])
   /\ (In type ["gcp_mariadb"; "client_mariadb"] ->
       TableAnalyzer.analysis (Some type) = TableAnalyzer.AnalyzeGenericTable)
   /\ TableAnalyzer.getLastUpdate queries
      = ("SELECT MAX(`"
           ++ orString (TableAnalyzer.updateColumn tableInfo) "updated_at"
           ++ "`) as lastUpdate FROM `" ++ table ++ "`")%string)
  /\ (AdapterFactory.createAdapter type config
      = Returned (AdapterFactory.NewMSSQLAdapter config) ->
      TableAnalyzer.analysis (Some type) = TableAnalyzer.AnalyzeMSSQLTable
      /\ TableAnalyzer.getLastUpdate queries
         = ("SELECT MAX(["
              ++ orString (TableAnalyzer.updateColumn tableInfo) "updated_at"
              ++ "[) as lastUpdate FROM [" ++ table ++ "[")%string
      /\ TableAnalyzer.insert_table (TableAnalyzer.batchInsertTemplate queries)
         = ("[" ++ table ++ "]")%string).
Proof.
  intros type queries table. subst queries table type.
  remember (toLowerCase envType) as type eqn:Htype.
  assert (Hlower : toLowerCase type = type)
    by (subst type; apply toLowerCase_idempotent).
  clear Htype.
  assert (Hquery : forall quote,
             TableAnalyzer.getQuoteChar (Some type) = quote ->
             TableAnalyzer.getLastUpdate
               (TableAnalyzer.generateOptimizedQueries (Some type) tableInfo)
             = ("SELECT MAX(" ++ quote
                  ++ orString (TableAnalyzer.updateColumn tableInfo) "updated_at"
                  ++ quote ++ ") as lastUpdate FROM " ++ quote
                  ++ TableAnalyzer.tableName tableInfo ++ quote)%string).
  { intros quote <-. unfold TableAnalyzer.generateOptimizedQueries, TableAnalyzer.present.
    cbn [TableAnalyzer.getLastUpdate orString].
    destruct (TableAnalyzer.updateColumn tableInfo) as [column|]; cbn [default orString].
    - destruct (String.eqb column ""); cbn [negb]; now rewrite !append_assoc.
    - now rewrite !append_assoc. }
  split; intros Hcreated; apply createAdapter_cases in Hcreated;
    rewrite Hlower in Hcreated;
    destruct Hcreated as [[Hkind Htype]|[Hkind Htype]]; try discriminate Hkind.
  - cbn [In] in Htype.
    destruct Htype as [<-|[<-|[<-|[<-|[]]]]];
      (split; [|split]);
      [split; [intros _; cbn; tauto| reflexivity]
      |intros [H|[H|[]]]; discriminate H
      |apply (Hquery "`"); reflexivity
      |split; [intros _; cbn; tauto| reflexivity]
      |intros [H|[H|[]]]; discriminate H
      |apply (Hquery "`"); reflexivity
      |split; [intros H; discriminate H| intros [H|[H|[]]]; discriminate H]
      |intros _; reflexivity
      |apply (Hquery "`"); reflexivity
      |split; [intros H; discriminate H| intros [H|[H|[]]]; discriminate H]
      |intros _; reflexivity
      |apply (Hquery "`"); reflexivity].
  - subst type. split; [reflexivity|]. split; [apply (Hquery "["); reflexivity|].
    reflexivity.
Qed.

Lemma analysis_by_type_witness :
  let orders :=
    {| TableAnalyzer.tableName := "orders";
       TableAnalyzer.primaryKey := Some "order_no";
       TableAnalyzer.columns := [];
       TableAnalyzer.updateColumn := None |} in
  TableAnalyzer.analysis (Some "gcp_mariadb") = TableAnalyzer.AnalyzeGenericTable
  /\ TableAnalyzer.getLastUpdate (TableAnalyzer.generateOptimizedQueries (Some "mssql") orders)
     = "SELECT MAX([updated_at[) as lastUpdate FROM [orders["
  /\ TableAnalyzer.insert_table
       (TableAnalyzer.batchInsertTemplate
          (TableAnalyzer.generateOptimizedQueries (Some "mssql") orders))
     = "[orders]".
Proof.
  intros orders.
  destruct (analysis_by_type "GCP_MariaDB" tt orders) as [Hmaria _].
  destruct (analysis_by_type "MSSQL" tt orders) as [_ Hmssql].
  destruct (Hmaria eq_refl) as (_ & Hgeneric & _).
  destruct (Hmssql eq_refl) as (_ & Hquery & Htemplate).
  split; [apply Hgeneric; left; reflexivity|].
  split; [exact Hquery|exact Htemplate].
Defined.

Section Detection.
Variable columns : list TableAnalyzer.Column.

Let names : list string := map TableAnalyzer.COLUMN_NAME columns.

Let foundMSSQL (updateCol : string) : option string :=
  if existsb (fun col => String.eqb (toLowerCase (TableAnalyzer.COLUMN_NAME col)) updateCol)
       columns
  then Some updateCol else None.

Let foundMariaDB (updateCol : string) : option string :=
  let same col :=
    String.eqb (toLowerCase (TableAnalyzer.COLUMN_NAME col)) (toLowerCase updateCol) in
  if existsb same columns
  then option_map TableAnalyzer.COLUMN_NAME (List.find same columns) else None.

Lemma foundMSSQL_spec c :
  (foundMSSQL c = Some c /\ exists name, In name names /\ toLowerCase name = c)
  \/ (foundMSSQL c = None /\ forall name, In name names -> toLowerCase name <> c).
Proof.
  unfold foundMSSQL.
  destruct (existsb _ columns) eqn:Hsome.
  - left. split; [reflexivity|].
    apply List.existsb_exists in Hsome as (col & Hin & Heq).
    apply String.eqb_eq in Heq.
    exists (TableAnalyzer.COLUMN_NAME col). split; [|exact Heq].
    unfold names. apply List.in_map_iff. now exists col.
  - right. split; [reflexivity|]. intros name Hin Heq.
    unfold names in Hin. apply List.in_map_iff in Hin as (col & <- & Hin).
    assert (Htrue : existsb
              (fun col => String.eqb (toLowerCase (TableAnalyzer.COLUMN_NAME col)) c)
              columns = true).
    { apply List.existsb_exists. exists col. split; [exact Hin|]. now apply String.eqb_eq. }
    congruence.
Qed.

Lemma foundMariaDB_spec c :
  toLowerCase c = c ->
  (exists name, foundMariaDB c = Some name /\ foundMSSQL c = Some c
                /\ In name names /\ toLowerCase name = c)
  \/ (foundMariaDB c = None /\ foundMSSQL c = None).
Proof.
  intros Hc. unfold foundMariaDB, foundMSSQL. rewrite Hc.
  destruct (existsb _ columns) eqn:Hsome; [|now right].
  left. apply List.existsb_exists in Hsome as (col & Hin & Heq).
  destruct (List.find
              (fun col => String.eqb (toLowerCase (TableAnalyzer.COLUMN_NAME col)) c)
              columns) as [col'|] eqn:Hfind.
  - apply List.find_some in Hfind as [Hin' Heq']. apply String.eqb_eq in Heq'.
    exists (TableAnalyzer.COLUMN_NAME col'). repeat split; [|exact Heq'].
    unfold names. apply List.in_map_iff. now exists col'.
  - pose proof (List.find_none _ _ Hfind col Hin) as Hnone. cbv beta in Hnone. congruence.
Qed.

Lemma detection_agrees candidates :
  (forall c, In c candidates -> toLowerCase c = c) ->
  TableAnalyzer.firstOf candidates foundMSSQL
  = option_map toLowerCase (TableAnalyzer.firstOf candidates foundMariaDB)
  /\ (forall name, TableAnalyzer.firstOf candidates foundMariaDB = Some name ->
                   In name names /\ In (toLowerCase name) candidates).
Proof.
  induction candidates as [|c rest IH]; intros Hlower; [split; [reflexivity|discriminate]|].
  cbn [TableAnalyzer.firstOf].
  destruct (foundMariaDB_spec c (Hlower c (or_introl eq_refl)))
    as [(name & -> & -> & Hin & Heq)|[-> ->]].
  - split; [cbn; now rewrite Heq|].
    intros name' [= <-]. split; [exact Hin|]. left. now symmetry.
  - destruct (IH (fun c' H => Hlower c' (or_intror H))) as [IH1 IH2].
    split; [exact IH1|]. intros name H. destruct (IH2 name H). split; [assumption|now right].
Qed.

Lemma detection_priority candidates :
  match TableAnalyzer.firstOf candidates foundMSSQL with
  | Some c =>
      exists before after,
        candidates = before ++ c :: after
        /\ (exists name, In name names /\ toLowerCase name = c)
        /\ forall earlier name, In earlier before -> In name names ->
                                toLowerCase name <> earlier
  | None =>
      forall c name, In c candidates -> In name names -> toLowerCase name <> c
  end.
Proof.
  induction candidates as [|c rest IH]; [intros c name []|].
  cbn [TableAnalyzer.firstOf].
  destruct (foundMSSQL_spec c) as [[-> Hname]|[-> Hnone]].
  - exists [], rest. split; [reflexivity|]. split; [exact Hname|]. intros ? ? [].
  - destruct (TableAnalyzer.firstOf rest foundMSSQL) as [c'|].
    + destruct IH as (before & after & -> & Hname & Hearlier).
      exists (c :: before), after. split; [reflexivity|]. split; [exact Hname|].
      intros earlier name [<-|Hin] Hn; [now apply Hnone|now apply Hearlier].
    + intros c' name [<-|Hin] Hn; [now apply Hnone|now apply IH].
Qed.

End Detection.

(** X17.  The update column of a table is looked for among four names, in
    their order, without regard to case: the first of them that some
    column of the table spells is taken, and none is found only when no
    column spells any.  The MariaDB analysis reports the column's name as
    the table has it; the MSSQL and the generic analysis report the name
    as the list has it, which is the MariaDB answer in lower case. *)
Theorem update_column_detection (columns : list TableAnalyzer.Column) :
  let names := map TableAnalyzer.COLUMN_NAME columns in
  TableAnalyzer.updateColumnMSSQL columns
  = option_map toLowerCase (TableAnalyzer.updateColumnMariaDB columns)
  /\ (forall name, TableAnalyzer.updateColumnMariaDB columns = Some name ->
                   In name names /\ In (toLowerCase name) TableAnalyzer.updateColumns)
  /\ (forall c, TableAnalyzer.updateColumnMSSQL columns = Some c ->
        exists before after,
          TableAnalyzer.updateColumns = before ++ c :: after
          /\ (exists name, In name names /\ toLowerCase name = c)
          /\ forall earlier name, In earlier before -> In name names ->
                                  toLowerCase name <> earlier)
  /\ (TableAnalyzer.updateColumnMSSQL columns = None ->
      forall c name, In c TableAnalyzer.updateColumns -> In name names ->
                     toLowerCase name <> c).
Proof.
  intros names.
  assert (Hlower : forall c, In c TableAnalyzer.updateColumns -> toLowerCase c = c).
  { intros c [<-|[<-|[<-|[<-|[]]]]]; reflexivity. }
  destruct (detection_agrees columns TableAnalyzer.updateColumns Hlower) as [Hagree Hname].
  pose proof (detection_priority columns TableAnalyzer.updateColumns) as Hpriority.
  split; [exact Hagree|]. split; [exact Hname|].
  unfold TableAnalyzer.updateColumnMSSQL.
  split.
  - intros c Hc. cbv zeta in Hpriority. rewrite Hc in Hpriority. exact Hpriority.
  - intros Hnone. cbv zeta in Hpriority. rewrite Hnone in Hpriority. exact Hpriority.
Qed.

(** A table with [Update_Time] before [Updated_At]: the second is taken,
    and reported in its own spelling by the MariaDB analysis only. *)
Lemma update_column_detection_witness :
  let column name :=
    {| TableAnalyzer.COLUMN_NAME := name;
       TableAnalyzer.PK_CONSTRAINT := VNull;
       TableAnalyzer.COLUMN_KEY := VString "" |} in
  let columns := [column "id"; column "Update_Time"; column "Updated_At"] in
  TableAnalyzer.updateColumnMSSQL columns = Some "updated_at"
  /\ TableAnalyzer.updateColumnMariaDB columns = Some "Updated_At"
  /\ In "Updated_At" (map TableAnalyzer.COLUMN_NAME columns).
Proof.
  intros column columns.
  destruct (update_column_detection columns) as (Hagree & Hname & _).
  assert (Hmaria : TableAnalyzer.updateColumnMariaDB columns = Some "Updated_At")
    by reflexivity.
  split; [rewrite Hagree, Hmaria; reflexivity|].
  split; [exact Hmaria|].
  apply (Hname "Updated_At" Hmaria).
Defined.
